(** * PDF sanitizer front end: annotation, coordinate and render-lifecycle core

    A shallow embedding of the three prototypes of the front end
    ([PDFSanitizerApp0.jsx], [PDFSanitizerApp1.jsx], [PDFSanitizerApp.jsx])
    and the properties their design document states about them.

    Conventions of the embedding.
    - A JavaScript number that carries a coordinate is a rational [Q], in
      two readings.  In [Transform], [App1] and [App1More] product and
      quotient are the exact ones: these carry the properties of order,
      bounds and structure.  In [F64], [TransformF] and [App1F] every
      product, quotient and difference is rounded to the nearest double as
      the program rounds it: these carry the properties about the values
      themselves (round trip, emitted points, painted boxes, [fmt]).
      Counters, page numbers and array indices are [nat]; pixel values that
      went through [Math.round] are [Z].
    - A JavaScript object used as a dictionary is a [gmap]; [o[k] || d] is
      [default d (o !! k)].
    - React state is an explicit record; a handler is a function from the
      state (and its event) to the next state.
    - An [async] function is cut at its [await]s: each resumption is one
      step of a transition system whose events are the settlements of the
      awaited promises. *)

From Stdlib Require Import QArith Qminmax Qround Qabs Qpower Lia Lqa ZArith Ascii.
From stdpp Require Import gmap strings list fin_maps pretty.

(** ** Coordinate transforms ([PDFSanitizerApp1.jsx], lines 21 and 71-99) *)

Module Transform.

Local Open Scope Q_scope.

(** [{x1, y1, x2, y2}] in pixels, any drag direction. *)
Record PxRect := mkPx { x1 : Q; y1 : Q; x2 : Q; y2 : Q }.

(** [{x1n, y1n, x2n, y2n}] in the unit square. *)
Record NormRect := mkNorm { x1n : Q; y1n : Q; x2n : Q; y2n : Q }.

(** [Math.round(n)]: the nearest integer, ties towards plus infinity. *)
Definition Math_round (n : Q) : Z := Qfloor (n + (1 # 2)).

(** [const fmt = (n) => Math.round(n * 100) / 100]. *)
Definition fmt (n : Q) : Q := inject_Z (Math_round (n * 100)) / 100.

(** [function normalizeRect(pxRect, w, h)]. *)
Definition normalizeRect (pxRect : PxRect) (w h : Q) : NormRect :=
  let x1 := Qmax 0 (Qmin (x1 pxRect) w) in
  let x2 := Qmax 0 (Qmin (x2 pxRect) w) in
  let y1 := Qmax 0 (Qmin (y1 pxRect) h) in
  let y2 := Qmax 0 (Qmin (y2 pxRect) h) in
  let left := Qmin x1 x2 in
  let right := Qmax x1 x2 in
  let top := Qmin y1 y2 in
  let bottom := Qmax y1 y2 in
  {| x1n := left / w; y1n := top / h; x2n := right / w; y2n := bottom / h |}.

(** [function denormalizeRect(nr, w, h)]. *)
Definition denormalizeRect (nr : NormRect) (w h : Q) : PxRect :=
  let x1 := x1n nr * w in
  let y1 := y1n nr * h in
  let x2 := x2n nr * w in
  let y2 := y2n nr * h in
  {| x1 := x1; y1 := y1; x2 := x2; y2 := y2 |}.

(** [function normRectToPdfPoints(nr, pageWpts, pageHpts)]. *)
Definition normRectToPdfPoints (nr : NormRect) (pageWpts pageHpts : Q) : PxRect :=
  {| x1 := x1n nr * pageWpts;
     y1 := y1n nr * pageHpts;
     x2 := x2n nr * pageWpts;
     y2 := y2n nr * pageHpts |}.

(** The rectangle a drag denotes once its corners are put in min/max
    order (what [drawOverlay] paints for it). *)
Definition canonical (r : PxRect) : PxRect :=
  {| x1 := Qmin (x1 r) (x2 r); y1 := Qmin (y1 r) (y2 r);
     x2 := Qmax (x1 r) (x2 r); y2 := Qmax (y1 r) (y2 r) |}.

(** Numeric equality of rectangles, field by field. *)
Definition px_eq (a b : PxRect) : Prop :=
  x1 a == x1 b /\ y1 a == y1 b /\ x2 a == x2 b /\ y2 a == y2 b.

Definition norm_eq (a b : NormRect) : Prop :=
  x1n a == x1n b /\ y1n a == y1n b /\ x2n a == x2n b /\ y2n a == y2n b.

(** The description of [toNormalized] in the design document, step by
    step: clamp, then order, then divide. *)
Definition clamp (lo hi v : Q) : Q := Qmax lo (Qmin v hi).

Definition toNormalized_spec (r : PxRect) (W H : Q) : NormRect :=
  let cx1 := clamp 0 W (x1 r) in
  let cx2 := clamp 0 W (x2 r) in
  let cy1 := clamp 0 H (y1 r) in
  let cy2 := clamp 0 H (y2 r) in
  {| x1n := Qmin cx1 cx2 / W; y1n := Qmin cy1 cy2 / H;
     x2n := Qmax cx1 cx2 / W; y2n := Qmax cy1 cy2 / H |}.

End Transform.

(** ** Annotation store, drawing and payload of [PDFSanitizerApp1.jsx] *)

Module App1.

Import Transform.
Local Open Scope Q_scope.

(** A [File] object, known by its name. *)
Definition File := string.

(** One entry of [pageRects[p]]: [{ nr, kind, logoFile }]. *)
Record SavedRect := mkRect {
  nr : NormRect;
  kind : string;
  logoFile : option File }.

(** What the rasterization engine reports for a page: the viewport at
    scale 1 and [page.rotate]. *)
Record PageGeom := mkGeom {
  widthPts : Q;
  heightPts : Q;
  rotate : nat }.

(** A loaded document is the list of its pages; [pdfDoc.getPage(p)] is
    1-based and rejects outside [1..numPages]. *)
Definition getPage (doc : list PageGeom) (p : nat) : option PageGeom :=
  match p with
  | O => None
  | S i => doc !! i
  end.

(** [page.getViewport({ scale })]: width and height of the page at a scale. *)
Definition getViewport (g : PageGeom) (scale : Q) : Q * Q :=
  (widthPts g * scale, heightPts g * scale).

(** The React state and refs of the component that the handlers read or
    write.  [overlay] is the size of the overlay canvas ([None] while the
    ref is unset); [files] holds each selected file as the document it
    parses to. *)
Record State := mkState {
  files : list (list PageGeom);
  activeFileIdx : nat;
  pdfDoc : option (list PageGeom);
  numPages : nat;
  pageNumber : nat;
  zoom : Q;
  overlay : option (Q * Q);
  isDrawing : bool;
  startPos : Q * Q;
  currentPos : Q * Q;
  pageRects : gmap nat (list SavedRect) }.

Definition set_pageRects (f : gmap nat (list SavedRect) -> gmap nat (list SavedRect))
    (st : State) : State :=
  mkState (files st) (activeFileIdx st) (pdfDoc st) (numPages st) (pageNumber st)
    (zoom st) (overlay st) (isDrawing st) (startPos st) (currentPos st)
    (f (pageRects st)).

Definition set_drag (d : bool) (s c : Q * Q) (st : State) : State :=
  mkState (files st) (activeFileIdx st) (pdfDoc st) (numPages st) (pageNumber st)
    (zoom st) (overlay st) d s c (pageRects st).

Definition set_zoom (z : Q) (st : State) : State :=
  mkState (files st) (activeFileIdx st) (pdfDoc st) (numPages st) (pageNumber st)
    z (overlay st) (isDrawing st) (startPos st) (currentPos st) (pageRects st).

Definition set_overlay (o : option (Q * Q)) (st : State) : State :=
  mkState (files st) (activeFileIdx st) (pdfDoc st) (numPages st) (pageNumber st)
    (zoom st) o (isDrawing st) (startPos st) (currentPos st) (pageRects st).

Definition set_pageNumber (p : nat) (st : State) : State :=
  mkState (files st) (activeFileIdx st) (pdfDoc st) (numPages st) p
    (zoom st) (overlay st) (isDrawing st) (startPos st) (currentPos st) (pageRects st).

(** The file selector's [onChange] followed by the load effect: the active
    index changes, the document of that file is loaded and the page number
    goes back to 1.  [pageRects] is not touched. *)
Definition setActiveFileIdx (i : nat) (st : State) : State :=
  let doc := files st !! i in
  mkState (files st) i doc (default 0%nat (length <$> doc)) 1
    (zoom st) (overlay st) (isDrawing st) (startPos st) (currentPos st) (pageRects st).

(** [pageRects[pageNumber] || []] (line 468, also line 248). *)
Definition rectsForPage (st : State) : list SavedRect :=
  default [] (pageRects st !! pageNumber st).

(** [handlePointerDown]; the event is given as the point [relPoint(e)]. *)
Definition handlePointerDown (p : Q * Q) (st : State) : State :=
  match overlay st with
  | None => st
  | Some _ => set_drag true p p st
  end.

(** [handlePointerMove]. *)
Definition handlePointerMove (p : Q * Q) (st : State) : State :=
  if isDrawing st then set_drag true (startPos st) p st else st.

(** [arr.push({ nr, kind: "redact", logoFile: undefined })] on a copy of
    [prev[pageNumber]], stored back under [pageNumber]. *)
Definition pushRect (pageNumber : nat) (nr : NormRect)
    (prev : gmap nat (list SavedRect)) : gmap nat (list SavedRect) :=
  let arr := default [] (prev !! pageNumber) in
  <[pageNumber := arr ++ [mkRect nr "redact" None]]> prev.

(** [handlePointerUp] (also bound to [onPointerLeave]). *)
Definition handlePointerUp (st : State) : State :=
  if negb (isDrawing st) then st else
  let st := set_drag false (startPos st) (currentPos st) st in
  let w := default 0 (fst <$> overlay st) in
  let h := default 0 (snd <$> overlay st) in
  if Qeq_bool w 0 || Qeq_bool h 0 then st else
  let nr := normalizeRect
              (mkPx (fst (startPos st)) (snd (startPos st))
                    (fst (currentPos st)) (snd (currentPos st))) w h in
  if negb (Qeq_bool (x1n nr) (x2n nr)) && negb (Qeq_bool (y1n nr) (y2n nr))
  then set_pageRects (pushRect (pageNumber st) nr) st
  else st.

(** [removeRect(idx)]: [arr.splice(idx, 1)]. *)
Definition removeRect (idx : nat) (st : State) : State :=
  set_pageRects (fun prev =>
    let arr := default [] (prev !! pageNumber st) in
    <[pageNumber st := delete idx arr]> prev) st.

(** [updateRectKind(idx, kind)]. *)
Definition updateRectKind (idx : nat) (kind : string) (st : State) : State :=
  set_pageRects (fun prev =>
    let arr := default [] (prev !! pageNumber st) in
    let arr :=
      match arr !! idx with
      | Some r =>
          let willLogo := String.eqb kind "logo" in
          <[idx := mkRect (nr r) kind (if willLogo then logoFile r else None)]> arr
      | None => arr
      end in
    <[pageNumber st := arr]> prev) st.

(** [setRectLogoFile(idx, file)]. *)
Definition setRectLogoFile (idx : nat) (file : option File) (st : State) : State :=
  set_pageRects (fun prev =>
    let arr := default [] (prev !! pageNumber st) in
    let arr :=
      match arr !! idx with
      | Some r => <[idx := mkRect (nr r) (kind r) file]> arr
      | None => arr
      end in
    <[pageNumber st := arr]> prev) st.

(** [clearPageRects()]: [{ ...prev, [pageNumber]: [] }]. *)
Definition clearPageRects (st : State) : State :=
  set_pageRects (fun prev => <[pageNumber st := []]> prev) st.

(** The store as the design document reads it: the rectangles listed when
    document [d] is the active file and page [p] is on display. *)
Definition listForPage (st : State) (d p : nat) : list SavedRect :=
  rectsForPage (set_pageNumber p (setActiveFileIdx d st)).

(** [clearPage(d, p)]: the Clear button pressed while document [d], page
    [p] is on display. *)
Definition clearPage (d p : nat) (st : State) : State :=
  clearPageRects (set_pageNumber p (setActiveFileIdx d st)).

(** One element of [rectangles]. *)
Record Zone := mkZone {
  rect_idx : nat;
  page : nat;
  zkind : string;
  bbox_norm : list Q;
  bbox_pts : list Q;
  page_w_pts : Q;
  page_h_pts : Q;
  rotation : nat }.

(** One element of [logoUploads]. *)
Record LogoUpload := mkUpload {
  u_rect_idx : nat;
  field : string;
  file : File }.

(** The three locals the loops of [buildPayloadAndLogos] update. *)
Record Acc := mkAcc {
  rectangles : list Zone;
  logoUploads : list LogoUpload;
  next_idx : nat }.

(** The zone pushed for rectangle [r] of page [p] when the counter is
    [rect_idx]. *)
Definition zoneOf (p : nat) (g : PageGeom) (rect_idx : nat) (r : SavedRect) : Zone :=
  let pageW := fst (getViewport g 1) in
  let pageH := snd (getViewport g 1) in
  let pts := normRectToPdfPoints (nr r) pageW pageH in
  {| rect_idx := rect_idx;
     page := p - 1;
     zkind := kind r;
     bbox_norm := [x1n (nr r); y1n (nr r); x2n (nr r); y2n (nr r)];
     bbox_pts := [fmt (x1 pts); fmt (y1 pts); fmt (x2 pts); fmt (y2 pts)];
     page_w_pts := fmt pageW;
     page_h_pts := fmt pageH;
     rotation := rotate g |}.

(** Body of [for (const r of arr)]. *)
Definition rectStep (p : nat) (g : PageGeom) (acc : Acc) (r : SavedRect) : Acc :=
  let rect_idx := next_idx acc in
  let rectangles := rectangles acc ++ [zoneOf p g rect_idx r] in
  let logoUploads :=
    match logoFile r with
    | Some f =>
        if String.eqb (kind r) "logo"
        then logoUploads acc ++ [mkUpload rect_idx ("logo_" +:+ pretty rect_idx) f]
        else logoUploads acc
    | None => logoUploads acc
    end in
  mkAcc rectangles logoUploads (S rect_idx).

(** Body of [for (let p = 1; p <= numPages; p++)]; [None] once a
    [getPage] was rejected. *)
Definition pageStep (doc : list PageGeom) (prs : gmap nat (list SavedRect))
    (acc : option Acc) (p : nat) : option Acc :=
  match acc with
  | None => None
  | Some acc =>
      match getPage doc p with
      | None => None
      | Some g => Some (foldl (rectStep p g) acc (default [] (prs !! p)))
      end
  end.

(** [buildPayloadAndLogos()]: [{ rectangles, logoUploads }], or [None] when
    the promise is rejected. *)
Definition buildPayloadAndLogos (st : State) : option (list Zone * list LogoUpload) :=
  match pdfDoc st with
  | None => Some ([], [])
  | Some doc =>
      match foldl (pageStep doc (pageRects st)) (Some (mkAcc [] [] 0)) (seq 1 (numPages st)) with
      | None => None
      | Some acc => Some (rectangles acc, logoUploads acc)
      end
  end.

(** [image_map] of [onSubmit]:
    [for (const u of logoUploads) image_map[u.rect_idx] = u.field]. *)
Definition image_map (us : list LogoUpload) : gmap nat string :=
  foldl (fun m u => <[u_rect_idx u := field u]> m) ∅ us.

(** The loops of [buildPayloadAndLogos] in closed form: the rectangles of
    pages [1..n] in page order, each with its page and page geometry. *)
Abbreviation Entry := (nat * PageGeom * SavedRect)%type.

Definition pageEntries (doc : list PageGeom) (prs : gmap nat (list SavedRect))
    (p : nat) : list Entry :=
  match getPage doc p with
  | Some g => (fun r => (p, g, r)) <$> default [] (prs !! p)
  | None => []
  end.

Definition entries (doc : list PageGeom) (prs : gmap nat (list SavedRect))
    (n : nat) : list Entry :=
  seq 1 n ≫= pageEntries doc prs.

Definition entryStep (acc : Acc) (e : Entry) : Acc := rectStep e.1.1 e.1.2 acc e.2.

Definition entryZone (i : nat) (e : Entry) : Zone := zoneOf e.1.1 e.1.2 i e.2.

(** The upload pushed for a rectangle when the counter is [i], if any. *)
Definition uploadOf (i : nat) (r : SavedRect) : option LogoUpload :=
  match logoFile r with
  | Some f =>
      if String.eqb (kind r) "logo"
      then Some (mkUpload i ("logo_" +:+ pretty i) f)
      else None
  | None => None
  end.

(** Number of zones emitted before those of page [p]. *)
Definition offset (doc : list PageGeom) (prs : gmap nat (list SavedRect))
    (p : nat) : nat :=
  length (entries doc prs (p - 1)).

(** A US-letter page, and sessions on two one-page documents used in the
    examples: the active page shown on an 800 x 600 surface, on a 700 x 700
    surface, and at zoom 1.5 (918 x 1188). *)
Definition letter : PageGeom := mkGeom 612 792 0.

Definition session (zoom : Q) (surface : Q * Q) : State :=
  mkState [[letter]; [letter]] 0 (Some [letter]) 1 1 zoom (Some surface)
    false (0, 0) (0, 0) ∅.

(** A complete gesture: press at [a], move to [b], release. *)
Definition drag (a b : Q * Q) (st : State) : State :=
  handlePointerUp (handlePointerMove b (handlePointerDown a st)).

End App1.

(** ** Text helpers, rectangle list and submission of [PDFSanitizerApp.jsx] *)

Module App.

Import Transform.

(** A string is the sequence of its code units (those below 256 here).
    [isWhiteSpace] is what [String.prototype.trim] strips among them: tab,
    line feed, vertical tab, form feed, carriage return, space and
    no-break space. *)
Definition isWhiteSpace (c : ascii) : bool :=
  let n := nat_of_ascii c in
  ((9 <=? n) && (n <=? 13)) || (n =? 32) || (n =? 160).

(** The separator class of [/[,\n]/]. *)
Definition isSeparator (c : ascii) : bool :=
  let n := nat_of_ascii c in
  (n =? 44) || (n =? 10).

Fixpoint trimStart (s : string) : string :=
  match s with
  | EmptyString => EmptyString
  | String c s' => if isWhiteSpace c then trimStart s' else s
  end.

Fixpoint trimEnd (s : string) : string :=
  match s with
  | EmptyString => EmptyString
  | String c s' =>
      match trimEnd s' with
      | EmptyString => if isWhiteSpace c then EmptyString else String c EmptyString
      | t => String c t
      end
  end.

(** [s.trim()]. *)
Definition trim (s : string) : string := trimEnd (trimStart s).

(** [s.split(/[,\n]/)]: the pieces between separators, empty ones kept;
    the empty string splits into one empty piece. *)
Fixpoint split (s : string) : list string :=
  match s with
  | EmptyString => [EmptyString]
  | String c s' =>
      if isSeparator c then EmptyString :: split s'
      else match split s' with
           | p :: ps => String c p :: ps
           | [] => [String c EmptyString]
           end
  end.

(** [Boolean(t)] for a string: non-empty. *)
Definition nonEmpty (t : string) : bool :=
  match t with
  | EmptyString => false
  | String _ _ => true
  end.

(** Body of [for (const t of arr)] in [parseEraseCSV]; the state is the
    pair of [seen] and [out]. *)
Definition eraseStep (toLowerCase : string -> string)
    (acc : gset string * list string) (t : string) : gset string * list string :=
  let k := toLowerCase t in
  if bool_decide (k ∈ acc.1) then acc else ({[k]} ∪ acc.1, acc.2 ++ [t]).

(** [arr] of [parseEraseCSV]: [s.split(/[,\n]/).map(t => t.trim()).filter(Boolean)]. *)
Definition eraseTerms (s : string) : list string :=
  filter (fun t => nonEmpty t = true) (trim <$> split s).

(** [function parseEraseCSV(input)].  [input] is [None] for [undefined];
    [toLowerCase] is the built-in [String.prototype.toLowerCase]. *)
Definition parseEraseCSV (toLowerCase : string -> string) (input : option string)
    : list string :=
  let s := trim (default EmptyString input) in
  if nonEmpty s
  then (foldl (eraseStep toLowerCase) (∅, []) (eraseTerms s)).2
  else [].

(** [toLowerCase] on the letters A-Z, enough to run the examples. *)
Definition asciiLower (c : ascii) : ascii :=
  let n := nat_of_ascii c in
  if (65 <=? n) && (n <=? 90) then ascii_of_nat (n + 32) else c.

Fixpoint lowerASCII (s : string) : string :=
  match s with
  | EmptyString => EmptyString
  | String c s' => String (asciiLower c) (lowerASCII s')
  end.

(** "Deduplicates keeping the first occurrence", as the words say: keep a
    term and drop every later term with the same key. *)
Fixpoint keepFirst (key : string -> string) (l : list string) : list string :=
  match l with
  | [] => []
  | t :: l' => t :: filter (fun u => key u ≠ key t) (keepFirst key l')
  end.

(** A [File] object, known by its name. *)
Definition File := string.

(** [draft]: [{x, y, w, h}] in pixels while drawing. *)
Record Draft := mkDraft { dx : Q; dy : Q; dw : Q; dh : Q }.

(** [pageMeta]. *)
Record PageMeta := mkMeta {
  pageNo : nat;
  width : Z;
  height : Z;
  sizeClass : string;
  orientationOf : string }.

(** [classifySize(w, h)]. *)
Definition classifySize (w h : Q) : string :=
  let maxDim := Qmax w h in
  if Qlt_le_dec 2000 maxDim then "A1"
  else if Qlt_le_dec 1500 maxDim then "A2"
  else if Qlt_le_dec 1100 maxDim then "A3"
  else "A4".

(** One element of [rects], as [confirmDraft] builds it. *)
Record Rect := mkRect {
  id : string;
  x : Z;
  y : Z;
  w : Z;
  h : Z;
  fileIdx : nat;
  page : nat;
  paper : string;
  orientation : string }.

(** One value of [rectActions]: [{ action, logoFile, logoKey }]; an absent
    or [null] field is [None]. *)
Record Action := mkAction {
  action : string;
  logoFile : option File;
  logoKey : option string }.

Record State := mkState {
  activeIndex : nat;
  rects : list Rect;
  rectActions : gmap string Action;
  draft : option Draft;
  confirmUI : option (Q * Q);
  pageMeta : option PageMeta;
  templateFileIdx : option nat;
  overlayRef : bool;
  startRef : option (Q * Q);
  drawingRef : bool }.

Definition init : State :=
  mkState 0 [] ∅ None None None None true None false.

(** [onPointerDown]; the event is given as the point relative to the
    overlay. *)
Definition onPointerDown (p : Q * Q) (st : State) : State :=
  if negb (overlayRef st) then st else
  mkState (activeIndex st) (rects st) (rectActions st)
    (Some (mkDraft (fst p) (snd p) 0 0)) (confirmUI st) (pageMeta st)
    (templateFileIdx st) (overlayRef st) (Some p) true.

(** [onPointerMove]. *)
Definition onPointerMove (p : Q * Q) (st : State) : State :=
  match startRef st with
  | Some s =>
      if drawingRef st && overlayRef st then
        let x := Qmin (fst s) (fst p) in
        let y := Qmin (snd s) (snd p) in
        let w := Qabs (fst p - fst s) in
        let h := Qabs (snd p - snd s) in
        mkState (activeIndex st) (rects st) (rectActions st)
          (Some (mkDraft x y w h)) (confirmUI st) (pageMeta st)
          (templateFileIdx st) (overlayRef st) (startRef st) (drawingRef st)
      else st
  | None => st
  end.

(** [draft.w<4||draft.h<4]. *)
Definition tooSmall (d : Draft) : bool :=
  (if Qlt_le_dec (dw d) 4 then true else false)
  || (if Qlt_le_dec (dh d) 4 then true else false).

(** [onPointerUp]. *)
Definition onPointerUp (st : State) : State :=
  if negb (drawingRef st) then st else
  match draft st with
  | Some d =>
      if tooSmall d then
        mkState (activeIndex st) (rects st) (rectActions st) None None (pageMeta st)
          (templateFileIdx st) (overlayRef st) (startRef st) false
      else
        mkState (activeIndex st) (rects st) (rectActions st) (draft st)
          (Some (dx d + dw d + 8, dy d + dh d + 8))%Q (pageMeta st)
          (templateFileIdx st) (overlayRef st) (startRef st) false
  | None =>
      mkState (activeIndex st) (rects st) (rectActions st) None None (pageMeta st)
        (templateFileIdx st) (overlayRef st) (startRef st) false
  end.

(** The record [confirmDraft] appends for draft [d] under identifier
    [newId]. *)
Definition newRect (newId : string) (d : Draft) (st : State) : Rect :=
  {| id := newId;
     x := Math_round (dx d);
     y := Math_round (dy d);
     w := Math_round (dw d);
     h := Math_round (dh d);
     fileIdx := activeIndex st;
     page := default 0%nat (pageNo <$> pageMeta st);
     paper := default "A4" (sizeClass <$> pageMeta st);
     orientation := default "H" (orientationOf <$> pageMeta st) |}.

(** [confirmDraft]; [newId] is the identifier the call generates from the
    clock and [Math.random]. *)
Definition confirmDraft (newId : string) (st : State) : State :=
  match draft st with
  | Some d =>
      if negb (overlayRef st) then st else
      mkState (activeIndex st) (rects st ++ [newRect newId d st])
        (<[newId := mkAction "redact" None None]> (rectActions st))
        None None (pageMeta st)
        (Some (default (activeIndex st) (templateFileIdx st)))
        (overlayRef st) (startRef st) (drawingRef st)
  | None => st
  end.

(** [cancelDraft]. *)
Definition cancelDraft (st : State) : State :=
  mkState (activeIndex st) (rects st) (rectActions st) None None (pageMeta st)
    (templateFileIdx st) (overlayRef st) (startRef st) (drawingRef st).

(** [removeRect(id)]. *)
Definition removeRect (i : string) (st : State) : State :=
  mkState (activeIndex st) (filter (fun r => id r ≠ i) (rects st))
    (delete i (rectActions st))
    (draft st) (confirmUI st) (pageMeta st)
    (templateFileIdx st) (overlayRef st) (startRef st) (drawingRef st).

Definition set_rectActions (f : gmap string Action -> gmap string Action)
    (st : State) : State :=
  mkState (activeIndex st) (rects st) (f (rectActions st))
    (draft st) (confirmUI st) (pageMeta st)
    (templateFileIdx st) (overlayRef st) (startRef st) (drawingRef st).

(** [onChange] of the Action select of rectangle [i] (lines 394-400); [v]
    is [e.target.value]. *)
Definition onActionChange (i : string) (v : string) (st : State) : State :=
  set_rectActions (fun prev =>
    let action := if String.eqb v "logo" then "logo" else "redact" in
    let logoFile :=
      if String.eqb action "logo" then (prev !! i) ≫= logoFile else None in
    <[i := mkAction action logoFile None]> prev) st.

(** What the logo input of rectangle [i] can deliver (lines 415-436): no
    file chosen, an upload that failed, or an upload answered with [js.key]. *)
Inductive LogoEvent :=
| NoFile
| UploadFailed (f : File)
| Uploaded (f : File) (key : option string).

Definition onLogoChange (i : string) (e : LogoEvent) (st : State) : State :=
  match e with
  | NoFile => set_rectActions (fun prev => <[i := mkAction "logo" None None]> prev) st
  | UploadFailed _ => st
  | Uploaded f key =>
      set_rectActions (fun prev => <[i := mkAction "logo" (Some f) key]> prev) st
  end.

(** [setActiveIndex(i)]. *)
Definition setActiveIndex (i : nat) (st : State) : State :=
  mkState i (rects st) (rectActions st)
    (draft st) (confirmUI st) (pageMeta st)
    (templateFileIdx st) (overlayRef st) (startRef st) (drawingRef st).

(** One element of [template_zones]. *)
Record Zone := mkZone {
  zpage : nat;
  bbox : list Z;
  zpaper : string;
  zorientation : string;
  file_idx : nat }.

Definition zoneOf (r : Rect) : Zone :=
  {| zpage := page r;
     bbox := [x r; y r; x r + w r; y r + h r]%Z;
     zpaper := paper r;
     zorientation := orientation r;
     file_idx := fileIdx r |}.

(** What [runSanitization] has built when it calls the backend, together
    with the lines it wrote with [console.warn]. *)
Record Submission := mkSubmission {
  template_zones : list Zone;
  image_map : gmap nat string;
  manual_names : list string;
  warnings : list string }.

(** [!a.logoKey] is false exactly for a non-empty string. *)
Definition truthy (k : option string) : bool :=
  match k with
  | Some s => nonEmpty s
  | None => false
  end.

Definition logoWarning : string :=
  "Logo rectangle without uploaded key; skipping placement for this rect.".

(** Body of [rects.forEach((r) => ...)] in [runSanitization]. *)
Definition zoneStep (actions : gmap string Action) (acc : Submission) (r : Rect)
    : Submission :=
  let zones := template_zones acc ++ [zoneOf r] in
  let idxInZones := (length zones - 1)%nat in
  match actions !! id r with
  | Some a =>
      if String.eqb (action a) "logo" then
        if truthy (logoKey a)
        then mkSubmission zones (<[idxInZones := default EmptyString (logoKey a)]> (image_map acc))
               (manual_names acc) (warnings acc)
        else mkSubmission zones (image_map acc) (manual_names acc)
               (warnings acc ++ [logoWarning])
      else mkSubmission zones (image_map acc) (manual_names acc) (warnings acc)
  | None => mkSubmission zones (image_map acc) (manual_names acc) (warnings acc)
  end.

(** [runSanitization()] up to the call of the backend: [None] when it
    returns early because no file is selected. *)
Definition runSanitization (pdfFiles : list File) (eraseList : list string)
    (st : State) : option Submission :=
  match pdfFiles with
  | [] => None
  | _ :: _ =>
      Some (foldl (zoneStep (rectActions st)) (mkSubmission [] ∅ eraseList []) (rects st))
  end.

(** An action as the self-test passes it: [{ action, logoName }]. *)
Record TestAction := mkTestAction {
  t_action : string;
  logoName : option string }.

(** [buildImageMapForTest(rects, actions)]; [rects] is given by its ids. *)
Definition buildImageMapForTest (rects : list string) (actions : gmap string TestAction)
    : gmap nat string :=
  (foldl (fun (acc : gmap nat string * nat) (rid : string) =>
            let idx := acc.2 in
            match actions !! rid with
            | Some a =>
                if String.eqb (t_action a) "logo" && truthy (logoName a)
                then (<[idx := default EmptyString (logoName a)]> acc.1, S idx)
                else (acc.1, S idx)
            | None => (acc.1, S idx)
            end) (∅, 0%nat) rects).1.

(** The asset [runSanitization] records for a rectangle, if any: the
    [logoKey] of a [logo] action when that key is truthy. *)
Definition assetOf (actions : gmap string Action) (r : Rect) : option string :=
  match actions !! id r with
  | Some a =>
      if String.eqb (action a) "logo" && truthy (logoKey a) then logoKey a else None
  | None => None
  end.

(** A [logo] rectangle with no resolved asset. *)
Definition unresolved (actions : gmap string Action) (r : Rect) : bool :=
  match actions !! id r with
  | Some a => String.eqb (action a) "logo" && negb (truthy (logoKey a))
  | None => false
  end.

(** The same for the actions of the self-test. *)
Definition testAssetOf (actions : gmap string TestAction) (rid : string) : option string :=
  match actions !! rid with
  | Some a =>
      if String.eqb (t_action a) "logo" && truthy (logoName a) then logoName a else None
  | None => None
  end.

(** What the operator can do on the rectangle step of the page. *)
Inductive Op :=
| PointerDown (p : Q * Q)
| PointerMove (p : Q * Q)
| PointerUp
| Confirm (newId : string)
| Cancel
| Remove (i : string)
| ActionChange (i : string) (v : string)
| LogoChange (i : string) (e : LogoEvent)
| SelectFile (i : nat).

Definition apply (st : State) (op : Op) : State :=
  match op with
  | PointerDown p => onPointerDown p st
  | PointerMove p => onPointerMove p st
  | PointerUp => onPointerUp st
  | Confirm newId => confirmDraft newId st
  | Cancel => cancelDraft st
  | Remove i => removeRect i st
  | ActionChange i v => onActionChange i v st
  | LogoChange i e => onLogoChange i e st
  | SelectFile i => setActiveIndex i st
  end.

Definition run (ops : list Op) (st : State) : State := foldl apply st ops.

(** [a] stands before [b] in [l]. *)
Definition before (a b : Rect) (l : list Rect) : Prop :=
  exists l1 l2 l3, l = l1 ++ a :: l2 ++ b :: l3.

(** The code units of a string. *)
Fixpoint chars (s : string) : list ascii :=
  match s with
  | EmptyString => []
  | String c s' => c :: chars s'
  end.

(** A session used in the examples: a rectangle is drawn and confirmed as
    "a", a second one as "b", then both are switched to [logo] and only the
    second one gets an uploaded asset. *)
Definition drawnA : State :=
  run [PointerDown (10, 10)%Q; PointerMove (110, 60)%Q; PointerUp] init.

Definition drawB : list Op :=
  [PointerDown (200, 200)%Q; PointerMove (300, 260)%Q; PointerUp].

Definition setLogos : list Op :=
  [ActionChange "a" "logo"; ActionChange "b" "logo";
   LogoChange "b" (Uploaded "logo.png" (Some "logos/logo.png"))].

Definition twoRects : State :=
  run setLogos (confirmDraft "b" (run drawB (confirmDraft "a" drawnA))).

End App.

(** ** Render lifecycle ([PDFSanitizerApp1.jsx] lines 197-236,
    [PDFSanitizerApp0.jsx] lines 62-97)

    The rasterization engine is outside the program.  What the model keeps
    of it: [getPage] and [render] return promises that settle later, in any
    order; a render task settles as done, as cancelled (only after
    [cancel()] was called on it) or with another error. *)

Module Render.

(** The target of a render request. *)
Record Params := mkParams {
  document : nat;
  pageNum : nat;
  scale : Q }.

(** How [task.promise] settles. *)
Inductive Outcome := Done | Cancelled | Failed.

(** Where the body of one call stands. *)
Inductive Phase :=
| AwaitPage
| AwaitTask (t : nat)
| Finished.

Record Call := mkCall {
  params : Params;
  phase : Phase }.

(** The refs and surfaces the calls share.  [calls] and [tasks] are
    numbered in the order of creation; [tasks !! t] tells whether
    [cancel()] was called on task [t].  [canvas] and [overlay] name the
    request whose viewport each surface was last sized to; [published]
    lists the calls that went on to size and repaint the overlay, in
    order. *)
Record State := mkState {
  calls : list Call;
  tasks : list bool;
  renderTaskRef : option nat;
  canvas : option Params;
  overlay : option Params;
  rendering : bool;
  published : list nat;
  errors : list nat }.

Definition init : State := mkState [] [] None None None false [] [].

Inductive Event :=
| Request (p : Params)
| PageResolved (i : nat)
| PageRejected (i : nat)
| TaskSettled (i : nat) (o : Outcome).

(** [renderTaskRef.current.cancel()] when the ref is set. *)
Definition cancelCurrent (st : State) : list bool :=
  match renderTaskRef st with
  | Some t => <[t := true]> (tasks st)
  | None => tasks st
  end.

(** The engine lets task [t] settle with outcome [o]. *)
Definition mayOutcome (st : State) (t : nat) (o : Outcome) : bool :=
  match o with
  | Cancelled => default false (tasks st !! t)
  | _ => true
  end.

(** The most recently requested target. *)
Definition latest (st : State) : option Params := params <$> last (calls st).

(** Every call has run to its end. *)
Definition quiescent (st : State) : bool :=
  forallb (fun c => match phase c with Finished => true | _ => false end) (calls st).

(** Two requests against the same surface, as a page change produces them:
    page 6, then page 5, of document 0 at zoom 1. *)
Definition first : Params := mkParams 0 6 1.
Definition second : Params := mkParams 0 5 1.

(** The second request arrives while the first call still waits for its
    page; both pages arrive in order; the later task settles first, with
    outcome [o], and the earlier task completes after it. *)
Definition slowEarlyRender (o : Outcome) : list Event :=
  [Request first; Request second; PageResolved 0; PageResolved 1;
   TaskSettled 1 o; TaskSettled 0 Done].

(** The second request arrives while the first task runs; the engine
    honours the cancellation. *)
Definition cancelHonoured : list Event :=
  [Request first; PageResolved 0; Request second; PageResolved 1;
   TaskSettled 0 Cancelled; TaskSettled 1 Done].

(** The page of the second request arrives before the page of the first
    one (it was loaded before). *)
Definition pagesOutOfOrder : list Event :=
  [Request first; Request second; PageResolved 1; PageResolved 0;
   TaskSettled 1 Cancelled; TaskSettled 0 Done].

End Render.

Module Render1.

Import Render.

(** [render()] of [PDFSanitizerApp1.jsx], run by the effect with the
    document loaded and the canvas mounted, from its entry to the first
    [await]: cancel the task in the ref, clear the ref, [setRendering(true)]. *)
Definition render_enter (p : Params) (st : State) : State :=
  mkState (calls st ++ [mkCall p AwaitPage]) (cancelCurrent st) None
    (canvas st) (overlay st) true (published st) (errors st).

(** From [getPage] resolved to [await task.promise]: size the base canvas,
    start the task, store it in the ref. *)
Definition render_start (i : nat) (c : Call) (st : State) : State :=
  let t := length (tasks st) in
  mkState (<[i := mkCall (params c) (AwaitTask t)]> (calls st)) (tasks st ++ [false])
    (Some t) (Some (params c)) (overlay st) (rendering st) (published st) (errors st).

(** From [task.promise] settled to the end: size and repaint the overlay
    when the task is done, log an error other than a cancellation, and in
    every case [setRendering(false)]. *)
Definition render_finish (i : nat) (c : Call) (o : Outcome) (st : State) : State :=
  let calls := <[i := mkCall (params c) Finished]> (calls st) in
  match o with
  | Done =>
      mkState calls (tasks st) (renderTaskRef st) (canvas st) (Some (params c))
        false (published st ++ [i]) (errors st)
  | Cancelled =>
      mkState calls (tasks st) (renderTaskRef st) (canvas st) (overlay st)
        false (published st) (errors st)
  | Failed =>
      mkState calls (tasks st) (renderTaskRef st) (canvas st) (overlay st)
        false (published st) (errors st ++ [i])
  end.

(** One event; [None] when the event cannot happen in this state. *)
Definition step (st : State) (e : Event) : option State :=
  match e with
  | Request p => Some (render_enter p st)
  | PageResolved i =>
      match calls st !! i with
      | Some (mkCall p AwaitPage) => Some (render_start i (mkCall p AwaitPage) st)
      | _ => None
      end
  | PageRejected i =>
      match calls st !! i with
      | Some (mkCall p AwaitPage) => Some (render_finish i (mkCall p AwaitPage) Failed st)
      | _ => None
      end
  | TaskSettled i o =>
      match calls st !! i with
      | Some (mkCall p (AwaitTask t)) =>
          if mayOutcome st t o
          then Some (render_finish i (mkCall p (AwaitTask t)) o st)
          else None
      | _ => None
      end
  end.

Definition run (es : list Event) : option State :=
  foldl (fun st e => st ≫= fun st => step st e) (Some init) es.

End Render1.

Module Render0.

Import Render.

(** [renderPage(pdf, pageNum, scale)] of [PDFSanitizerApp0.jsx] starts with
    [await pdf.getPage(pageNum)]: entering it changes nothing. *)
Definition renderPage_enter (p : Params) (st : State) : State :=
  mkState (calls st ++ [mkCall p AwaitPage]) (tasks st) (renderTaskRef st)
    (canvas st) (overlay st) (rendering st) (published st) (errors st).

(** From [getPage] resolved to [await task.promise]: size the canvas,
    cancel the task in the ref, start the new task, store it in the ref. *)
Definition renderPage_start (i : nat) (c : Call) (st : State) : State :=
  let tasks := cancelCurrent st in
  let t := length tasks in
  mkState (<[i := mkCall (params c) (AwaitTask t)]> (calls st)) (tasks ++ [false])
    (Some t) (Some (params c)) (overlay st) (rendering st) (published st) (errors st).

(** From [task.promise] settled to the end: an error other than a
    cancellation is logged, [finally] clears the ref, then the overlay is
    sized and repainted whatever the outcome. *)
Definition renderPage_finish (i : nat) (c : Call) (o : Outcome) (st : State) : State :=
  let errors :=
    match o with
    | Failed => errors st ++ [i]
    | _ => errors st
    end in
  mkState (<[i := mkCall (params c) Finished]> (calls st)) (tasks st) None
    (canvas st) (Some (params c)) (rendering st) (published st ++ [i]) errors.

(** [getPage] rejected: the call ends with that rejection. *)
Definition renderPage_abort (i : nat) (c : Call) (st : State) : State :=
  mkState (<[i := mkCall (params c) Finished]> (calls st)) (tasks st) (renderTaskRef st)
    (canvas st) (overlay st) (rendering st) (published st) (errors st).

Definition step (st : State) (e : Event) : option State :=
  match e with
  | Request p => Some (renderPage_enter p st)
  | PageResolved i =>
      match calls st !! i with
      | Some (mkCall p AwaitPage) => Some (renderPage_start i (mkCall p AwaitPage) st)
      | _ => None
      end
  | PageRejected i =>
      match calls st !! i with
      | Some (mkCall p AwaitPage) => Some (renderPage_abort i (mkCall p AwaitPage) st)
      | _ => None
      end
  | TaskSettled i o =>
      match calls st !! i with
      | Some (mkCall p (AwaitTask t)) =>
          if mayOutcome st t o
          then Some (renderPage_finish i (mkCall p (AwaitTask t)) o st)
          else None
      | _ => None
      end
  end.

Definition run (es : list Event) : option State :=
  foldl (fun st e => st ≫= fun st => step st e) (Some init) es.

End Render0.

(** ** The rest of [PDFSanitizerApp1.jsx]: erase terms, view controls,
    file list, overlay painting, and the handlers as one operation type *)

Module App1More.

Import Transform App1.
Local Open Scope Q_scope.

(** [raw.split(",")]: the pieces between commas. *)
Fixpoint splitComma (s : string) : list string :=
  match s with
  | EmptyString => [EmptyString]
  | String c s' =>
      if (nat_of_ascii c =? 44)%nat then EmptyString :: splitComma s'
      else match splitComma s' with
           | p :: ps => String c p :: ps
           | [] => [String c EmptyString]
           end
  end.

(** [set.add(t)] on a [Set] of strings, kept as the list of its elements
    in insertion order (the order [Array.from] reads them in). *)
Definition setAdd (set : list string) (t : string) : list string :=
  if bool_decide (t ∈ set) then set else set ++ [t].

(** [function parseEraseTerms(raw)] (lines 61-69). *)
Definition parseEraseTerms (raw : option string) : list string :=
  foldl setAdd []
    (filter (fun t => App.nonEmpty t = true)
            (App.trim <$> splitComma (default EmptyString raw))).

(** The zoom buttons (lines 479-482). *)
Definition zoomOut (st : State) : State :=
  set_zoom (Qmax (1 # 4) (fmt (zoom st - (1 # 10)))) st.

Definition zoomIn (st : State) : State :=
  set_zoom (Qmin 4 (fmt (zoom st + (1 # 10)))) st.

Definition resetZoom (st : State) : State := set_zoom 1 st.

(** The page buttons (lines 545 and 549); a disabled button does nothing. *)
Definition prevPage (st : State) : State :=
  match pdfDoc st with
  | None => st
  | Some _ =>
      if (pageNumber st <=? 1)%nat then st
      else set_pageNumber (Nat.max 1 (pageNumber st - 1)) st
  end.

Definition nextPage (st : State) : State :=
  match pdfDoc st with
  | None => st
  | Some _ =>
      if (numPages st <=? pageNumber st)%nat then st
      else set_pageNumber (Nat.min (numPages st) (pageNumber st + 1)) st
  end.

(** The state with more files in the list. *)
Definition set_files (fs : list (list PageGeom)) (st : State) : State :=
  mkState fs (activeFileIdx st) (pdfDoc st) (numPages st)
    (pageNumber st) (zoom st) (overlay st) (isDrawing st) (startPos st)
    (currentPos st) (pageRects st).

(** The file selector: the load effect runs when the index changes. *)
Definition selectFile (i : nat) (st : State) : State :=
  if (i =? activeFileIdx st)%nat then st else setActiveFileIdx i st.

(** "Add PDFs" (lines 500-506): the files are appended and the active
    index is set to 0.  The load effect runs when that changes the index
    or the active file; while file 0 is already the active one nothing is
    reloaded. *)
Definition addPdfs (list : list (list PageGeom)) (st : State) : State :=
  match list with
  | [] => st
  | _ :: _ =>
      match files st !! 0%nat with
      | Some _ =>
          if (activeFileIdx st =? 0)%nat
          then set_files (files st ++ list) st
          else setActiveFileIdx 0 (set_files (files st ++ list) st)
      | None => setActiveFileIdx 0 (set_files (files st ++ list) st)
      end
  end.

(** "Remove active" (lines 529-536) followed by the load effect; the
    button is shown only while there is an active file. *)
Definition removeActive (st : State) : State :=
  match files st !! activeFileIdx st with
  | None => st
  | Some _ =>
      setActiveFileIdx 0
        (mkState (delete (activeFileIdx st) (files st)) 0 None 0 1
           (zoom st) (overlay st) (isDrawing st) (startPos st) (currentPos st) ∅)
  end.

(** One [fillRect]/[strokeRect] pair of [drawOverlay]. *)
Record Box := mkBox { bx : Q; by_ : Q; bw : Q; bh : Q }.

(** [x = Math.min(x1, x2), y = Math.min(y1, y2), w = Math.abs(x2 - x1),
    h = Math.abs(y2 - y1)]. *)
Definition boxOf (r : PxRect) : Box :=
  mkBox (Qmin (x1 r) (x2 r)) (Qmin (y1 r) (y2 r))
        (Qabs (x2 r - x1 r)) (Qabs (y2 r - y1 r)).



(** The boxes [drawOverlay] paints for the committed rectangles of the
    page (lines 248-259), on an overlay of size [o]. *)
Definition paintedRects (st : State) : list Box :=
  match overlay st with
  | None => []
  | Some (W, H) => (fun r => boxOf (denormalizeRect (nr r) W H)) <$> rectsForPage st
  end.

(** The rubber band (lines 261-272). *)
Definition paintedBand (st : State) : list Box :=
  match overlay st with
  | None => []
  | Some _ =>
      if isDrawing st
      then [boxOf (mkPx (startPos st).1 (startPos st).2 (currentPos st).1 (currentPos st).2)]
      else []
  end.

(** [drawOverlay()]: everything painted after the [clearRect], in order. *)
Definition drawOverlay (st : State) : list Box := paintedRects st ++ paintedBand st.

(** The handlers of the component as one type. *)
Inductive Op :=
| PointerDown (p : Q * Q)
| PointerMove (p : Q * Q)
| PointerUp
| RemoveRect (idx : nat)
| UpdateRectKind (idx : nat) (kind : string)
| SetRectLogoFile (idx : nat) (file : option File)
| ClearPageRects
| SelectFile (i : nat)
| AddPdfs (list : list (list PageGeom))
| RemoveActive
| ZoomIn
| ZoomOut
| ResetZoom
| PrevPage
| NextPage.

Definition apply (st : State) (op : Op) : State :=
  match op with
  | PointerDown p => handlePointerDown p st
  | PointerMove p => handlePointerMove p st
  | PointerUp => handlePointerUp st
  | RemoveRect idx => removeRect idx st
  | UpdateRectKind idx kind => updateRectKind idx kind st
  | SetRectLogoFile idx file => setRectLogoFile idx file st
  | ClearPageRects => clearPageRects st
  | SelectFile i => selectFile i st
  | AddPdfs list => addPdfs list st
  | RemoveActive => removeActive st
  | ZoomIn => zoomIn st
  | ZoomOut => zoomOut st
  | ResetZoom => resetZoom st
  | PrevPage => prevPage st
  | NextPage => nextPage st
  end.

Definition run (ops : list Op) (st : State) : State := foldl apply st ops.

(** A stored rectangle in canonical form: inside the unit square, with
    positive width and height. *)
Definition canonicalUnit (n : NormRect) : Prop :=
  0 <= x1n n /\ x1n n < x2n n /\ x2n n <= 1 /\
  0 <= y1n n /\ y1n n < y2n n /\ y2n n <= 1.

(** Every stored rectangle is canonical, and the surface has no negative
    size (the width and height of a canvas are unsigned). *)
Definition storeOk (st : State) : Prop :=
  (forall W H, overlay st = Some (W, H) -> 0 <= W /\ 0 <= H) /\
  forall p r, r ∈ default [] (pageRects st !! p) -> canonicalUnit (nr r).

(** The view stays on a page of the document and within the zoom range. *)
Definition viewOk (st : State) : Prop :=
  1 # 4 <= zoom st /\ zoom st <= 4 /\
  (1 <= pageNumber st)%nat /\
  ((1 <= numPages st)%nat -> (pageNumber st <= numPages st)%nat) /\
  (forall doc, pdfDoc st = Some doc -> numPages st = length doc).

End App1More.

(** ** The rest of [PDFSanitizerApp.jsx]: file intake, client filter and
    replacement map *)

Module Home.

Import App.

(** A [File] as the page reads it: name, MIME type and size. *)
Record FileInfo := mkFile {
  fname : string;
  ftype : string;
  fsize : N }.

(** [s.endsWith(suf)]. *)
Fixpoint endsWith (suf s : string) : bool :=
  String.eqb s suf ||
  match s with
  | EmptyString => false
  | String _ s' => endsWith suf s'
  end.

(** [s.includes(sub)]. *)
Fixpoint includes (sub s : string) : bool :=
  String.prefix sub s ||
  match s with
  | EmptyString => false
  | String _ s' => includes sub s'
  end.

(** [function isPdf(file)] for a file object with a string name. *)
Definition isPdf (toLowerCase : string -> string) (file : FileInfo) : bool :=
  let ext := endsWith ".pdf" (toLowerCase (fname file)) in
  let mime := String.eqb (ftype file) "application/pdf" || String.eqb (ftype file) EmptyString in
  ext || mime.

(** [function filterClients(q, opts)]. *)
Definition filterClients (toLowerCase : string -> string) (q : option string)
    (opts : list string) : list string :=
  let s := toLowerCase (trim (default EmptyString q)) in
  if nonEmpty s
  then filter (fun c => includes s (toLowerCase c) = true) opts
  else opts.

(** The double quote. *)
Definition dquote : string := String (ascii_of_nat 34) EmptyString.

(** [const key = f => `${f.name}::${f.size}`]. *)
Definition key (f : FileInfo) : string := fname f +:+ "::" +:+ pretty (fsize f).

(** The alert of [addFiles] for a skipped file. *)
Definition skipped (f : FileInfo) : string :=
  dquote +:+ fname f +:+ dquote +:+ " is not a PDF and was skipped.".

(** [addFiles(incoming)] on the current [files]: the new [files] and the
    alerts shown, in order. *)
Definition addFiles (toLowerCase : string -> string) (incoming files : list FileInfo)
    : list FileInfo * list string :=
  let pdfs := filter (fun f => isPdf toLowerCase f = true) incoming in
  let alerts := skipped <$> filter (fun f => isPdf toLowerCase f <> true) incoming in
  let existing : gset string := list_to_set (key <$> files) in
  (foldl (fun merged f => if bool_decide (key f ∈ existing) then merged else merged ++ [f])
         files pdfs,
   alerts).

(** What [JSON.parse(text)] does, as far as [parseReplacementMap] looks:
    it throws, it returns something that is not a plain object, or it
    returns an object, given by its entries [[k, String(v ?? "")]] in the
    order of [Object.entries]. *)
Inductive JsonResult :=
| JsonThrows
| JsonNotObject
| JsonObject (entries : list (string * string)).

(** [{map, errors}]. *)
Record Parsed := mkParsed {
  map : gmap string string;
  errors : list string }.

(** [line.slice(0, idx)] and [line.slice(idx + 1)] for the first [":"] of
    the line; [None] when [indexOf(":")] is -1. *)
Fixpoint cutAtColon (line : string) : option (string * string) :=
  match line with
  | EmptyString => None
  | String c s' =>
      if (nat_of_ascii c =? 58)%nat then Some (EmptyString, s')
      else match cutAtColon s' with
           | Some (l, r) => Some (String c l, r)
           | None => None
           end
  end.

Definition missingColon (line : string) : string :=
  "Missing ':' in " +:+ dquote +:+ line +:+ dquote.

Definition emptyKey (line : string) : string :=
  "Empty key in " +:+ dquote +:+ line +:+ dquote.

(** [result[k] = v] on the object literal [{}].  The name [__proto__] is
    the accessor inherited from [Object.prototype]: assigning a string to it
    is a no-op, so no property is created; every other name becomes (or
    overwrites) an own property. *)
Definition setProp (k v : string) (m : gmap string string) : gmap string string :=
  if String.eqb k "__proto__" then m else <[k := v]> m.

(** The pair a line contributes, if it has a colon and a key. *)
Definition pairOf (line : string) : option (string * string) :=
  match cutAtColon line with
  | Some (l, r) => if nonEmpty (trim l) then Some (trim l, trim r) else None
  | None => None
  end.

(** Body of [for (const line of lines)]. *)
Definition lineStep (acc : Parsed) (line : string) : Parsed :=
  match cutAtColon line with
  | None => mkParsed (map acc) (errors acc ++ [missingColon line])
  | Some (l, r) =>
      let left := trim l in
      let right := trim r in
      if nonEmpty left
      then mkParsed (setProp left right (map acc)) (errors acc)
      else mkParsed (map acc) (errors acc ++ [emptyKey line])
  end.

(** Body of [for (const [k, v] of Object.entries(obj))]. *)
Definition jsonStep (acc : Parsed) (kv : string * string) : Parsed :=
  let kk := trim kv.1 in
  let vv := trim kv.2 in
  if nonEmpty kk
  then mkParsed (setProp kk vv (map acc)) (errors acc)
  else mkParsed (map acc) (errors acc ++ ["Empty key in JSON"]).

Definition jsonShape : string :=
  "JSON must be like {" +:+ dquote +:+ "old" +:+ dquote +:+ ":"
  +:+ dquote +:+ "new" +:+ dquote +:+ "}".

(** [function parseReplacementMap(raw)] of [PDFSanitizerApp.jsx] (lines
    50-56); [JSON_parse] stands for the built-in. *)
Definition parseReplacementMap (JSON_parse : string -> JsonResult) (raw : option string)
    : Parsed :=
  let text := trim (default EmptyString raw) in
  if negb (nonEmpty text) then mkParsed ∅ [] else
  let lineMode (errs : list string) :=
    foldl lineStep (mkParsed ∅ errs) (eraseTerms text) in
  if String.prefix "{" text then
    match JSON_parse text with
    | JsonObject entries => foldl jsonStep (mkParsed ∅ []) entries
    | JsonNotObject => lineMode [jsonShape]
    | JsonThrows => lineMode ["Invalid JSON. Use object or line pairs old:new"]
    end
  else lineMode [].

(** The error a line contributes, if it has no colon or no key. *)
Definition lineError (line : string) : option string :=
  match cutAtColon line with
  | None => Some (missingColon line)
  | Some (l, r) => if nonEmpty (trim l) then None else Some (emptyKey line)
  end.

(** The pair an entry of the parsed object contributes, if it has a key. *)
Definition jsonPairOf (kv : string * string) : option (string * string) :=
  if nonEmpty (trim kv.1) then Some (trim kv.1, trim kv.2) else None.

(** The pairs that become properties. *)
Definition stored (kv : string * string) : Prop := kv.1 <> "__proto__".

#[global] Instance stored_dec (kv : string * string) : Decision (stored kv).
Proof. unfold stored. apply _. Defined.

(** Keys are non-empty and trimmed, values are trimmed. *)
Definition tidy (m : gmap string string) : Prop :=
  forall k v, m !! k = Some v -> nonEmpty k = true /\ trim k = k /\ trim v = v.

(** A parser that always throws, and one that reads every text as the
    object [{" a ": "b", "": "c", "a": " d"}]. *)
Definition parseThrows (_ : string) : JsonResult := JsonThrows.

Definition parseFixed (_ : string) : JsonResult :=
  JsonObject [(" a ", "b"); (EmptyString, "c"); ("a", " d")].

End Home.

(** ** Sessions on the rectangle step of [PDFSanitizerApp.jsx] *)

Module AppMore.

Import App.

Local Open Scope Q_scope.

(** The identifiers the [confirmDraft] calls of a session generate. *)
Definition confirmIds (ops : list Op) : list string :=
  omap (fun op => match op with Confirm i => Some i | _ => None end) ops.

(** Every rectangle has an action; an action is [redact] or [logo], and
    only a [logo] action carries a file or a key. *)
Definition actionsOk (st : State) : Prop :=
  (forall r, r ∈ rects st -> is_Some (rectActions st !! id r)) /\
  (forall i a, rectActions st !! i = Some a ->
     (action a = "redact" /\ logoFile a = None /\ logoKey a = None) \/ action a = "logo").

(** The draft has no negative side, a draft that outlives the release is
    at least 4 px wide and high, and no rectangle has a negative side. *)
Definition draftOk (st : State) : Prop :=
  (forall d, draft st = Some d -> 0 <= dw d /\ 0 <= dh d) /\
  (drawingRef st = false -> forall d, draft st = Some d -> 4 <= dw d /\ 4 <= dh d) /\
  (forall r, r ∈ rects st -> (0 <= w r)%Z /\ (0 <= h r)%Z).

(** [bbox] is [[x0, y0, x1, y1]] with [x0 <= x1] and [y0 <= y1]. *)
Definition ordered (z : Zone) : Prop :=
  exists x0 y0 x1 y1, bbox z = [x0; y0; x1; y1] /\ (x0 <= x1)%Z /\ (y0 <= y1)%Z.

(** A drag, a confirmation, a second drag confirmed under the same
    identifier or under a new one. *)
Definition oneRect : list Op :=
  [PointerDown (10, 10); PointerMove (110, 60); PointerUp; Confirm "a"].

Definition secondRect (i : string) : list Op :=
  [PointerDown (200, 200); PointerMove (300, 260); PointerUp; Confirm i].

(** A drag is released (the confirm control is shown), then the pointer is
    pressed again at (200, 200). *)
Definition pressedAgain : State :=
  run [PointerDown (10, 10); PointerMove (110, 60); PointerUp; PointerDown (200, 200)] init.

End AppMore.

(** ** The drawing step of [PDFSanitizerApp0.jsx] (lines 100-191) *)

Module App0.

Local Open Scope Q_scope.

(** One element of [redactionZones]. *)
Record Zone := mkZone {
  zx : Q;
  zy : Q;
  zwidth : Q;
  zheight : Q;
  zpage : nat }.

Record State := mkState {
  isDrawingRef : bool;
  startPosRef : Q * Q;
  currentPosRef : Q * Q;
  redactionZones : list Zone;
  currentPage : nat;
  numPages : nat }.

(** The component once a template of [n] pages is loaded. *)
Definition init (n : nat) : State := mkState false (0, 0) (0, 0) [] 1 n.

(** [handleMouseDown]; [p] is the point relative to the overlay. *)
Definition handleMouseDown (p : Q * Q) (st : State) : State :=
  mkState true p (currentPosRef st) (redactionZones st) (currentPage st) (numPages st).

(** [handleMouseMove]. *)
Definition handleMouseMove (p : Q * Q) (st : State) : State :=
  if negb (isDrawingRef st) then st else
  mkState (isDrawingRef st) (startPosRef st) p (redactionZones st) (currentPage st)
    (numPages st).

(** The final box of [handleMouseUp], also the rubber band of [drawOverlay]. *)
Definition box (st : State) : Zone :=
  let x1 := (startPosRef st).1 in
  let y1 := (startPosRef st).2 in
  let x2 := (currentPosRef st).1 in
  let y2 := (currentPosRef st).2 in
  mkZone (Qmin x1 x2) (Qmin y1 y2) (Qabs (x2 - x1)) (Qabs (y2 - y1)) (currentPage st).

(** [w > 5 && h > 5]. *)
Definition bigEnough (z : Zone) : bool :=
  (if Qlt_le_dec 5 (zwidth z) then true else false)
  && (if Qlt_le_dec 5 (zheight z) then true else false).

(** [handleMouseUp]. *)
Definition handleMouseUp (st : State) : State :=
  if negb (isDrawingRef st) then st else
  mkState false (startPosRef st) (currentPosRef st)
    (if bigEnough (box st) then redactionZones st ++ [box st] else redactionZones st)
    (currentPage st) (numPages st).

(** The page buttons (lines 235 and 237). *)
Definition prevPage (st : State) : State :=
  if (1 <? currentPage st)%nat
  then mkState (isDrawingRef st) (startPosRef st) (currentPosRef st) (redactionZones st)
         (currentPage st - 1) (numPages st)
  else st.

Definition nextPage (st : State) : State :=
  if (currentPage st <? numPages st)%nat
  then mkState (isDrawingRef st) (startPosRef st) (currentPosRef st) (redactionZones st)
         (currentPage st + 1) (numPages st)
  else st.

(** One element of [template_zones] in [runSanitization]:
    [{ page, bbox: [x, y, x + width, y + height] }]. *)
Definition template_zone (z : Zone) : nat * list Q :=
  (zpage z, [zx z; zy z; zx z + zwidth z; zy z + zheight z]).

Definition template_zones (st : State) : list (nat * list Q) :=
  template_zone <$> redactionZones st.

(** [manualNames.split(',').map(s => s.trim())]. *)
Definition manual_names (manualNames : string) : list string :=
  App.trim <$> App1More.splitComma manualNames.

Inductive Op :=
| MouseDown (p : Q * Q)
| MouseMove (p : Q * Q)
| MouseUp
| PrevPage
| NextPage.

Definition apply (st : State) (op : Op) : State :=
  match op with
  | MouseDown p => handleMouseDown p st
  | MouseMove p => handleMouseMove p st
  | MouseUp => handleMouseUp st
  | PrevPage => prevPage st
  | NextPage => nextPage st
  end.

Definition run (ops : list Op) (st : State) : State := foldl apply st ops.

(** Every zone is more than 5 px wide and high and lies on a page of the
    template. *)
Definition zoneOk (n : nat) (z : Zone) : Prop :=
  5 < zwidth z /\ 5 < zheight z /\ (1 <= zpage z <= n)%nat.

(** The page on display is a page of the template and every zone is big
    enough and on a page of the template. *)
Definition sessionOk (n : nat) (st : State) : Prop :=
  numPages st = n /\ (1 <= currentPage st <= n)%nat /\
  Forall (zoneOk n) (redactionZones st).

(** The number of commas of a string. *)
Fixpoint commas (s : string) : nat :=
  match s with
  | EmptyString => 0
  | String c s' => (if (nat_of_ascii c =? 44)%nat then 1 else 0) + commas s'
  end.

End App0.

(** ** Schedules of the render effect of [PDFSanitizerApp1.jsx] *)

Module RenderMore.

Import Render.

Definition awaitingPage (c : Call) : bool :=
  match phase c with AwaitPage => true | _ => false end.

Definition finished (c : Call) : bool :=
  match phase c with Finished => true | _ => false end.

(** [cancel()] was not called on task [t]. *)
Definition uncancelled (st : State) (t : nat) : bool :=
  negb (default false (tasks st !! t)).

(** A serial schedule with cancellation honoured: a request does not
    arrive while a call still waits for its page, and a task on which
    [cancel()] was called does not complete. *)
Definition allowed (st : State) (e : Event) : bool :=
  match e with
  | Request _ => forallb (fun c => negb (awaitingPage c)) (calls st)
  | TaskSettled i Done =>
      match calls st !! i with
      | Some (mkCall _ (AwaitTask t)) => uncancelled st t
      | _ => true
      end
  | _ => true
  end.

Definition stepSerial (st : State) (e : Event) : option State :=
  if allowed st e then Render1.step st e else None.

Definition runSerial (es : list Event) : option State :=
  foldl (fun st e => st ≫= fun st => stepSerial st e) (Some init) es.

(** A call that waits for its page, or for a task not cancelled. *)
Definition live (st : State) (c : Call) : Prop :=
  match phase c with
  | AwaitPage => True
  | AwaitTask t => tasks st !! t = Some false
  | Finished => False
  end.

(** What a serial schedule keeps: a live call is the last one; an awaited
    task exists, and when it is not cancelled the ref holds it; while the
    last call awaits its task the canvas is sized for it. *)
Definition serialOk (st : State) : Prop :=
  (forall i c, calls st !! i = Some c -> live st c -> S i = length (calls st)) /\
  (forall i c t, calls st !! i = Some c -> phase c = AwaitTask t ->
     (t < length (tasks st))%nat /\
     (tasks st !! t = Some false -> renderTaskRef st = Some t) /\
     (S i = length (calls st) -> canvas st = Some (params c))).

(** What every schedule keeps: the calls that published or logged an error
    are finished calls, each listed once. *)
Definition reportsOk (st : State) : Prop :=
  (quiescent st = true -> rendering st = false) /\
  NoDup (published st ++ errors st) /\
  (forall i, i ∈ published st ++ errors st ->
     exists p, calls st !! i = Some (mkCall p Finished)).

(** The state after the schedule [cancelHonoured]. *)
Definition afterCancelHonoured : State :=
  default init (Render1.run cancelHonoured).

End RenderMore.

(** ** [parseReplacementMap] of [PDFSanitizerApp1.jsx] (lines 23-59) *)

Module App1Parse.

Import App.

(** What [JSON.parse(trimmed)] does, as far as the function looks: it
    throws, it returns something that is not a plain object ([null], an
    array, a number, a string, a boolean), or it returns an object, given by
    its entries in the order of [Object.entries]; the value of an entry is
    [Some v] for the string [v] and [None] for anything else. *)
Inductive JsonResult :=
| JsonThrows
| JsonNotObject
| JsonObject (entries : list (string * option string)).

(** The errors, and the text pushed for each. *)
Inductive Error :=
| NotStrings
| MissingSeparator (n : nat)
| EmptyOld (n : nat)
| EmptyNew (n : nat).

Definition message (e : Error) : string :=
  match e with
  | NotStrings => "JSON keys and values must be strings"
  | MissingSeparator n => "Line " +:+ pretty n +:+ ": missing ':' separator"
  | EmptyOld n => "Line " +:+ pretty n +:+ ": empty 'old' value"
  | EmptyNew n => "Line " +:+ pretty n +:+ ": empty 'new' value"
  end.

(** [{map, errors}], the errors before [message]. *)
Record Parsed := mkParsed {
  map : gmap string string;
  errors : list Error }.

(** [s.split(/\r?\n/)]. *)
Fixpoint splitLines (s : string) : list string :=
  match s with
  | EmptyString => [EmptyString]
  | String c s' =>
      if (nat_of_ascii c =? 10)%nat then EmptyString :: splitLines s'
      else if (nat_of_ascii c =? 13)%nat
              && match s' with
                 | String c' _ => (nat_of_ascii c' =? 10)%nat
                 | EmptyString => false
                 end
      then splitLines s'
      else match splitLines s' with
           | p :: ps => String c p :: ps
           | [] => [String c EmptyString]
           end
  end.

(** Body of [for (const [k, v] of Object.entries(obj))]; a key is always a
    string. *)
Definition jsonStep (acc : Parsed) (kv : string * option string) : Parsed :=
  match kv.2 with
  | None => mkParsed (map acc) (errors acc ++ [NotStrings])
  | Some v => mkParsed (Home.setProp kv.1 v (map acc)) (errors acc)
  end.

(** Body of [for (let i = 0; i < lines.length; i++)] for [lines[i]]. *)
Definition lineStep (acc : Parsed) (il : nat * string) : Parsed :=
  let i := il.1 in
  let line := trim il.2 in
  if negb (nonEmpty line) then acc else
  match Home.cutAtColon line with
  | None => mkParsed (map acc) (errors acc ++ [MissingSeparator (i + 1)])
  | Some (l, r) =>
      if negb (nonEmpty l)
      then mkParsed (map acc) (errors acc ++ [MissingSeparator (i + 1)])
      else
        let left := trim l in
        let right := trim r in
        let errs1 := if nonEmpty left then errors acc else errors acc ++ [EmptyOld (i + 1)] in
        let errs2 := if nonEmpty right then errs1 else errs1 ++ [EmptyNew (i + 1)] in
        mkParsed (if nonEmpty left && nonEmpty right
                  then Home.setProp left right (map acc) else map acc)
                 errs2
  end.

(** [function parseReplacementMap(raw)]; [JSON_parse] stands for the
    built-in.  The text pushed for error [e] is [message e]. *)
Definition parseReplacementMap (JSON_parse : string -> JsonResult) (raw : option string)
    : Parsed :=
  let trimmed := trim (default EmptyString raw) in
  if negb (nonEmpty trimmed) then mkParsed ∅ [] else
  match JSON_parse trimmed with
  | JsonObject entries => foldl jsonStep (mkParsed ∅ []) entries
  | _ => foldl lineStep (mkParsed ∅ []) (imap (fun i l => (i, l)) (splitLines trimmed))
  end.

(** Keys and values are non-empty and trimmed, and [__proto__] is no key. *)
Definition tidy (m : gmap string string) : Prop :=
  forall k v, m !! k = Some v ->
    nonEmpty k = true /\ trim k = k /\ nonEmpty v = true /\ trim v = v /\ k <> "__proto__".

(** The errors of the line loop over [n] lines. *)
Definition lineError (n : nat) (e : Error) : Prop :=
  exists i, (1 <= i <= n)%nat /\ (e = MissingSeparator i \/ e = EmptyNew i).

Definition parseThrows (_ : string) : JsonResult := JsonThrows.

Definition parseFixed (_ : string) : JsonResult :=
  JsonObject [("a", Some "b"); ("n", None); ("a", Some " c ")].

End App1Parse.

(** ** Binary64 arithmetic

    Where a claim is about a value (a coordinate after a round trip, an
    emitted point, a painted box), [/], [*] and [-] are evaluated as the
    program evaluates them: the exact result rounded to the nearest double,
    ties to even.  A double is the rational it denotes; [Math.min],
    [Math.max], [Math.abs] and [Math.round] are exact on doubles.
    Infinities, NaN and the sign of zero are not part of the model, so a
    result that would overflow (above [2^1024]) is outside it. *)

Module F64.

Local Open Scope Q_scope.

(** [2^e] for any integer [e]. *)
Definition pow2 (e : Z) : Q := 2 ^ e.

(** The integer nearest to [m], a tie going to the even one. *)
Definition nearestEven (m : Q) : Z :=
  let f := Qfloor m in
  match Qcompare (m - inject_Z f) (1 # 2) with
  | Lt => f
  | Gt => (f + 1)%Z
  | Eq => if Z.even f then f else (f + 1)%Z
  end.

(** For [0 < q]: the exponent [e] of the binade of [q],
    [2^e <= q < 2^(e+1)]. *)
Definition binade (q : Q) : Z :=
  let e := (Z.log2 (Qnum q) - Z.log2 (Z.pos (Qden q)))%Z in
  if Qle_bool (pow2 e) q then e else (e - 1)%Z.

(** The exponent of the unit in the last place at [q]: 53 significant
    bits, and no finer than the subnormal spacing [2^-1074]. *)
Definition ulpExp (q : Q) : Z := Z.max (binade (Qabs q) - 52) (-1074).

(** The double nearest to the real [q], ties to even: the rounding of
    every arithmetic operation. *)
Definition rnd (q : Q) : Q :=
  if Qeq_bool q 0 then 0
  else Qred (inject_Z (nearestEven (q / pow2 (ulpExp q))) * pow2 (ulpExp q)).

(** [a - b], [a * b] and [a / b] on doubles. *)
Definition sub (a b : Q) : Q := rnd (a - b).
Definition mul (a b : Q) : Q := rnd (a * b).
Definition div (a b : Q) : Q := rnd (a / b).

(** [2^-53], the relative error bound of one rounding, and [2^-1075], half
    the subnormal spacing. *)
Definition u : Q := 1 # 9007199254740992.
Definition eta : Q := pow2 (-1075).

End F64.

(** ** The coordinate transforms in binary64 ([PDFSanitizerApp1.jsx], lines
    21 and 71-99) *)

Module TransformF.

Import Transform.

Local Open Scope Q_scope.

(** [const fmt = (n) => Math.round(n * 100) / 100]. *)
Definition fmt (n : Q) : Q := F64.div (inject_Z (Math_round (F64.mul n 100))) 100.

(** [function normalizeRect(pxRect, w, h)]. *)
Definition normalizeRect (pxRect : PxRect) (w h : Q) : NormRect :=
  let x1 := Qmax 0 (Qmin (x1 pxRect) w) in
  let x2 := Qmax 0 (Qmin (x2 pxRect) w) in
  let y1 := Qmax 0 (Qmin (y1 pxRect) h) in
  let y2 := Qmax 0 (Qmin (y2 pxRect) h) in
  let left := Qmin x1 x2 in
  let right := Qmax x1 x2 in
  let top := Qmin y1 y2 in
  let bottom := Qmax y1 y2 in
  {| x1n := F64.div left w; y1n := F64.div top h;
     x2n := F64.div right w; y2n := F64.div bottom h |}.

(** [function denormalizeRect(nr, w, h)]. *)
Definition denormalizeRect (nr : NormRect) (w h : Q) : PxRect :=
  let x1 := F64.mul (x1n nr) w in
  let y1 := F64.mul (y1n nr) h in
  let x2 := F64.mul (x2n nr) w in
  let y2 := F64.mul (y2n nr) h in
  {| x1 := x1; y1 := y1; x2 := x2; y2 := y2 |}.

(** [function normRectToPdfPoints(nr, pageWpts, pageHpts)]. *)
Definition normRectToPdfPoints (nr : NormRect) (pageWpts pageHpts : Q) : PxRect :=
  {| x1 := F64.mul (x1n nr) pageWpts;
     y1 := F64.mul (y1n nr) pageHpts;
     x2 := F64.mul (x2n nr) pageWpts;
     y2 := F64.mul (y2n nr) pageHpts |}.

(** The tolerance of a round trip along an axis of length [W]: four units
    of [2^-53] of [W], and half the subnormal spacing. *)
Definition tolerance (W : Q) : Q := (4 * F64.u) * W + F64.eta.

(** Two rectangles that agree within [tx] along x and [ty] along y. *)
Definition px_close (tx ty : Q) (a b : PxRect) : Prop :=
  Qabs (x1 a - x1 b) <= tx /\ Qabs (y1 a - y1 b) <= ty /\
  Qabs (x2 a - x2 b) <= tx /\ Qabs (y2 a - y2 b) <= ty.

(** How far [fmt] may move [q]: half a hundredth, and the roundings of the
    product and of the quotient. *)
Definition fmtSlack (q : Q) : Q := (1 # 200) + (3 * F64.u) * Qabs q + F64.u.

(** The doubles written [0.015], [0.02] and [0.01]. *)
Definition d0_015 : Q := F64.rnd (15 # 1000).
Definition d0_02 : Q := F64.rnd (2 # 100).
Definition d0_01 : Q := F64.rnd (1 # 100).

End TransformF.

(** ** Commit, overlay and payload of [PDFSanitizerApp1.jsx] in binary64 *)

Module App1F.

Import Transform App1.

Local Open Scope Q_scope.

(** [handlePointerUp] (also bound to [onPointerLeave]). *)
Definition handlePointerUp (st : State) : State :=
  if negb (isDrawing st) then st else
  let st := set_drag false (startPos st) (currentPos st) st in
  let w := default 0 (fst <$> overlay st) in
  let h := default 0 (snd <$> overlay st) in
  if Qeq_bool w 0 || Qeq_bool h 0 then st else
  let nr := TransformF.normalizeRect
              (mkPx (fst (startPos st)) (snd (startPos st))
                    (fst (currentPos st)) (snd (currentPos st))) w h in
  if negb (Qeq_bool (x1n nr) (x2n nr)) && negb (Qeq_bool (y1n nr) (y2n nr))
  then set_pageRects (pushRect (pageNumber st) nr) st
  else st.

(** A complete gesture: press at [a], move to [b], release. *)
Definition drag (a b : Q * Q) (st : State) : State :=
  handlePointerUp (handlePointerMove b (handlePointerDown a st)).

(** The zone pushed for rectangle [r] of page [p] when the counter is
    [rect_idx]. *)
Definition zoneOf (p : nat) (g : PageGeom) (rect_idx : nat) (r : SavedRect) : Zone :=
  let pageW := fst (getViewport g 1) in
  let pageH := snd (getViewport g 1) in
  let pts := TransformF.normRectToPdfPoints (nr r) pageW pageH in
  {| rect_idx := rect_idx;
     page := p - 1;
     zkind := kind r;
     bbox_norm := [x1n (nr r); y1n (nr r); x2n (nr r); y2n (nr r)];
     bbox_pts := [TransformF.fmt (x1 pts); TransformF.fmt (y1 pts);
                  TransformF.fmt (x2 pts); TransformF.fmt (y2 pts)];
     page_w_pts := TransformF.fmt pageW;
     page_h_pts := TransformF.fmt pageH;
     rotation := rotate g |}.

(** Body of [for (const r of arr)]. *)
Definition rectStep (p : nat) (g : PageGeom) (acc : Acc) (r : SavedRect) : Acc :=
  let rect_idx := next_idx acc in
  let rectangles := rectangles acc ++ [zoneOf p g rect_idx r] in
  let logoUploads :=
    match logoFile r with
    | Some f =>
        if String.eqb (kind r) "logo"
        then logoUploads acc ++ [mkUpload rect_idx ("logo_" +:+ pretty rect_idx) f]
        else logoUploads acc
    | None => logoUploads acc
    end in
  mkAcc rectangles logoUploads (S rect_idx).

(** Body of [for (let p = 1; p <= numPages; p++)]; [None] once a
    [getPage] was rejected. *)
Definition pageStep (doc : list PageGeom) (prs : gmap nat (list SavedRect))
    (acc : option Acc) (p : nat) : option Acc :=
  match acc with
  | None => None
  | Some acc =>
      match getPage doc p with
      | None => None
      | Some g => Some (foldl (rectStep p g) acc (default [] (prs !! p)))
      end
  end.

(** [buildPayloadAndLogos()]: [{ rectangles, logoUploads }], or [None] when
    the promise is rejected. *)
Definition buildPayloadAndLogos (st : State) : option (list Zone * list LogoUpload) :=
  match pdfDoc st with
  | None => Some ([], [])
  | Some doc =>
      match foldl (pageStep doc (pageRects st)) (Some (mkAcc [] [] 0)) (seq 1 (numPages st)) with
      | None => None
      | Some acc => Some (rectangles acc, logoUploads acc)
      end
  end.

Definition entryStep (acc : Acc) (e : Entry) : Acc := rectStep e.1.1 e.1.2 acc e.2.

Definition entryZone (i : nat) (e : Entry) : Zone := zoneOf e.1.1 e.1.2 i e.2.

(** The points emitted for the normalized rectangle [n] on a page of
    [pageW] x [pageH] points, and the exact products they stand for. *)
Definition points (n : NormRect) (pageW pageH : Q) : list Q :=
  [TransformF.fmt (F64.mul (x1n n) pageW); TransformF.fmt (F64.mul (y1n n) pageH);
   TransformF.fmt (F64.mul (x2n n) pageW); TransformF.fmt (F64.mul (y2n n) pageH)].

Definition products (n : NormRect) (pageW pageH : Q) : list Q :=
  [x1n n * pageW; y1n n * pageH; x2n n * pageW; y2n n * pageH].

(** An emitted value next to the product it stands for: half a hundredth,
    and the roundings. *)
Definition nearProduct (b e : Q) : Prop :=
  Qabs (b - e) <= (1 # 200) + (5 * F64.u) * Qabs e + 2 * F64.u.

(** [x = Math.min(x1, x2), y = Math.min(y1, y2), w = Math.abs(x2 - x1),
    h = Math.abs(y2 - y1)]. *)
Definition boxOf (r : PxRect) : App1More.Box :=
  App1More.mkBox (Qmin (x1 r) (x2 r)) (Qmin (y1 r) (y2 r))
                 (Qabs (F64.sub (x2 r) (x1 r))) (Qabs (F64.sub (y2 r) (y1 r))).

(** The boxes [drawOverlay] paints for the committed rectangles of the
    page (lines 248-259). *)
Definition paintedRects (st : State) : list App1More.Box :=
  match overlay st with
  | None => []
  | Some (W, H) =>
      (fun r => boxOf (TransformF.denormalizeRect (nr r) W H)) <$> rectsForPage st
  end.

(** The rubber band (lines 261-272). *)
Definition paintedBand (st : State) : list App1More.Box :=
  match overlay st with
  | None => []
  | Some _ =>
      if isDrawing st
      then [boxOf (mkPx (startPos st).1 (startPos st).2 (currentPos st).1 (currentPos st).2)]
      else []
  end.

(** Two boxes that agree within [tx] along x and [ty] along y. *)
Definition box_close (tx ty : Q) (a b : App1More.Box) : Prop :=
  Qabs (App1More.bx a - App1More.bx b) <= tx /\
  Qabs (App1More.by_ a - App1More.by_ b) <= ty /\
  Qabs (App1More.bw a - App1More.bw b) <= tx /\
  Qabs (App1More.bh a - App1More.bh b) <= ty.

End App1F.

(** ** Following a rectangle through a session of [PDFSanitizerApp1.jsx]

    A stored rectangle has no identifier: it is known by its page and its
    index in the list of that page. *)

Module App1Track.

Import Transform App1 App1More.

Local Open Scope Q_scope.

(** Where the rectangle at index [i] of page [p] stands after [op];
    [None] once it is removed ([removeRect] at its index, [clearPageRects]
    on its page, "Remove active"). *)
Definition track (st : State) (op : Op) (p i : nat) : option nat :=
  match op with
  | RemoveRect idx =>
      if (p =? pageNumber st)%nat
      then (if (i <? idx)%nat then Some i
            else if (i =? idx)%nat then None else Some (i - 1)%nat)
      else Some i
  | ClearPageRects => if (p =? pageNumber st)%nat then None else Some i
  | RemoveActive =>
      match files st !! activeFileIdx st with
      | Some _ => None
      | None => Some i
      end
  | _ => Some i
  end.

Fixpoint trackRun (ops : list Op) (st : State) (p i : nat) : option nat :=
  match ops with
  | [] => Some i
  | op :: ops' =>
      match track st op p i with
      | Some j => trackRun ops' (apply st op) p j
      | None => None
      end
  end.

(** [bbox_norm] of the zone of a rectangle. *)
Definition normOf (r : SavedRect) : list Q :=
  [x1n (nr r); y1n (nr r); x2n (nr r); y2n (nr r)].

(** A session on a document of two pages, page 2 on display on an
    800 x 600 surface, with a one-page document as the second file. *)
Definition onPageTwo : State :=
  mkState [[letter; letter]; [letter]] 0 (Some [letter; letter]) 2 2 1
    (Some (800, 600)) false (0, 0) (0, 0) ∅.

(** Two drags on that page. *)
Definition twoDrags : list Op :=
  [PointerDown (10, 10); PointerMove (110, 60); PointerUp;
   PointerDown (200, 200); PointerMove (300, 260); PointerUp].

(** The two rectangles are committed on page 2, then the second file is
    selected. *)
Definition switched : State := run (twoDrags ++ [SelectFile 1]) onPageTwo.

(** A is being dragged on the one page of [session]; after its release B
    is dragged; after B's release B becomes a logo with a file. *)
Definition draggingA : State :=
  handlePointerMove (110, 60) (handlePointerDown (10, 10) (session 1 (800, 600))).

Definition thenDragB : list Op := [PointerDown (200, 200); PointerMove (300, 260)].

Definition thenLogoB : list Op :=
  [UpdateRectKind 1 "logo"; SetRectLogoFile 1 (Some "logo.png")].

End App1Track.

(** ** Binary64 arithmetic *)

Section F64Facts.

Import F64.
Local Open Scope Q_scope.

Lemma pow2_pos (e : Z) : 0 < pow2 e.
Proof. apply Qpower_0_lt. reflexivity. Qed.

Lemma pow2_add (a b : Z) : pow2 (a + b) == pow2 a * pow2 b.
Proof. apply Qpower_plus. discriminate. Qed.

Lemma pow2_Z (n : Z) : (0 <= n)%Z -> pow2 n == inject_Z (2 ^ n).
Proof. intros Hn. unfold pow2. rewrite Zpower_Qpower by exact Hn. reflexivity. Qed.

Lemma inject_Z_pos (z : Z) : (0 < z)%Z -> 0 < inject_Z z.
Proof. intros Hz. unfold Qlt. cbn. lia. Qed.

(** [nearestEven] is within a half of its argument. *)
Lemma nearestEven_error (m : Q) : Qabs (inject_Z (nearestEven m) - m) <= 1 # 2.
Proof.
  unfold nearestEven.
  pose proof (Qfloor_le m) as Hlo. pose proof (Qlt_floor m) as Hhi.
  rewrite inject_Z_plus in Hhi. change (inject_Z 1) with 1 in Hhi.
  assert (Hup : forall f : Z, inject_Z (f + 1) == inject_Z f + 1)
    by (intros f; rewrite inject_Z_plus; reflexivity).
  destruct (Qcompare (m - inject_Z (Qfloor m)) (1 # 2)) eqn:Hc.
  - apply Qeq_alt in Hc.
    destruct (Z.even (Qfloor m)); apply Qabs_Qle_condition; [| rewrite Hup]; split; lra.
  - apply Qlt_alt in Hc. apply Qabs_Qle_condition. split; lra.
  - apply Qgt_alt in Hc. apply Qabs_Qle_condition. rewrite Hup. split; lra.
Qed.

(** [binade] is the exponent of the binade. *)
Lemma binade_spec (q : Q) : 0 < q -> pow2 (binade q) <= q /\ q < pow2 (binade q + 1).
Proof.
  intros Hq. destruct q as [n d]. unfold binade. cbn [Qnum Qden].
  assert (Hn : (0 < n)%Z).
  { unfold Qlt in Hq. cbn in Hq. lia. }
  destruct (Z.log2_spec n Hn) as [Hn1 Hn2].
  destruct (Z.log2_spec (Z.pos d) (Pos2Z.is_pos d)) as [Hd1 Hd2].
  pose proof (Z.log2_nonneg n) as Ha. pose proof (Z.log2_nonneg (Z.pos d)) as Hb.
  set (a := Z.log2 n) in *. set (b := Z.log2 (Z.pos d)) in *.
  assert (Hq' : n # d == inject_Z n / inject_Z (Z.pos d)) by apply Qmake_Qdiv.
  assert (Hdpos : 0 < inject_Z (Z.pos d)) by (apply inject_Z_pos; lia).
  destruct (Qle_bool (pow2 (a - b)) (n # d)) eqn:Ht.
  - apply Qle_bool_iff in Ht. split; [exact Ht |].
    (* n / d < 2^(a+1) / 2^b *)
    replace (a - b + 1)%Z with ((a + 1) + - b)%Z by lia.
    rewrite pow2_add. unfold pow2 at 2. rewrite Qpower_opp. fold (pow2 b).
    rewrite (pow2_Z (a + 1)) by lia. rewrite (pow2_Z b) by lia. rewrite Hq'.
    assert (Hbpos : 0 < inject_Z (2 ^ b)) by (apply inject_Z_pos; lia).
    apply Qlt_shift_div_r; [exact Hdpos |].
    setoid_replace (inject_Z (2 ^ (a + 1)) * / inject_Z (2 ^ b) * inject_Z (Z.pos d))
      with (inject_Z (2 ^ (a + 1)) * inject_Z (Z.pos d) / inject_Z (2 ^ b))
      using relation Qeq by (field; lra).
    apply Qlt_shift_div_l; [exact Hbpos |].
    rewrite <- !inject_Z_mult, <- Zlt_Qlt. nia.
  - assert (Hlt : n # d < pow2 (a - b)).
    { apply Qnot_le_lt. intros H. apply Qle_bool_iff in H. congruence. }
    split; [| replace (a - b - 1 + 1)%Z with (a - b)%Z by lia; exact Hlt].
    replace (a - b - 1)%Z with (a + - (b + 1))%Z by lia.
    rewrite pow2_add. unfold pow2 at 2. rewrite Qpower_opp. fold (pow2 (b + 1)).
    rewrite (pow2_Z a) by lia. rewrite (pow2_Z (b + 1)) by lia. rewrite Hq'.
    assert (Hbpos : 0 < inject_Z (2 ^ (b + 1))) by (apply inject_Z_pos; lia).
    apply Qle_shift_div_l; [exact Hdpos |].
    setoid_replace (inject_Z (2 ^ a) * / inject_Z (2 ^ (b + 1)) * inject_Z (Z.pos d))
      with (inject_Z (2 ^ a) * inject_Z (Z.pos d) / inject_Z (2 ^ (b + 1)))
      using relation Qeq by (field; lra).
    apply Qle_shift_div_r; [exact Hbpos |].
    rewrite <- !inject_Z_mult, <- Zle_Qle. nia.
Qed.

Lemma eta_bounds : 0 < eta /\ eta <= 1 # 1267650600228229401496703205376.
Proof.
  split; [apply pow2_pos |]. apply Qle_bool_iff. vm_compute. reflexivity.
Qed.

(** The relative error of [rnd] is at most [2^-53], down to the subnormal
    spacing. *)
Lemma rnd_error (q : Q) : Qabs (rnd q - q) <= u * Qabs q + eta.
Proof.
  pose proof (proj1 eta_bounds) as Heta.
  unfold rnd. destruct (Qeq_bool q 0) eqn:Hz.
  - apply Qeq_bool_iff in Hz.
    assert (E : Qabs (0 - q) == 0) by (rewrite Hz; reflexivity).
    rewrite E. pose proof (Qabs_nonneg q). unfold u. nra.
  - assert (Hq : ~ q == 0).
    { intros E. apply Qeq_bool_iff in E. congruence. }
    assert (Habs : 0 < Qabs q).
    { destruct (Qlt_le_dec 0 q) as [H|H].
      - rewrite Qabs_pos by lra. exact H.
      - rewrite Qabs_neg by exact H. destruct (Qlt_le_dec q 0) as [H'|H']; [lra |].
        exfalso. apply Hq. lra. }
    rewrite Qred_correct.
    set (k := ulpExp q). pose proof (pow2_pos k) as Hk.
    set (m := q / pow2 k).
    assert (Em : q == m * pow2 k) by (unfold m; field; lra).
    pose proof (nearestEven_error m) as Hr.
    set (r := inject_Z (nearestEven m)) in *.
    assert (E : r * pow2 k - q == (r - m) * pow2 k) by (rewrite Em at 1; ring).
    rewrite E, Qabs_Qmult, (Qabs_pos (pow2 k)) by lra.
    apply Qle_trans with ((1 # 2) * pow2 k).
    { apply Qmult_le_compat_r; [exact Hr | lra]. }
    destruct (binade_spec (Qabs q) Habs) as [Hlo _].
    unfold k, ulpExp.
    destruct (Z.max_spec (binade (Qabs q) - 52) (-1074)) as [[_ ->]|[_ ->]].
    + assert (E1 : (1 # 2) * pow2 (-1074) == eta).
      { apply Qeq_bool_iff. vm_compute. reflexivity. }
      rewrite E1. unfold u. nra.
    + replace (binade (Qabs q) - 52)%Z with (binade (Qabs q) + -52)%Z by lia.
      rewrite pow2_add.
      assert (E2 : (1 # 2) * (pow2 (binade (Qabs q)) * pow2 (-52))
                   == u * pow2 (binade (Qabs q))).
      { assert (E3 : pow2 (-52) == 2 * u) by (apply Qeq_bool_iff; vm_compute; reflexivity).
        rewrite E3. ring. }
      rewrite E2. unfold u in *. nra.
Qed.

(** [rnd] moves a number of magnitude at most [B] by at most
    [u * B + eta]. *)
Lemma rnd_bounds (q B : Q) :
  Qabs q <= B -> q - (u * B + eta) <= rnd q /\ rnd q <= q + (u * B + eta).
Proof.
  intros HB. pose proof (rnd_error q) as H. apply Qabs_Qle_condition in H.
  unfold u in *. split; nra.
Qed.

Lemma rnd_zero : rnd 0 = 0.
Proof. reflexivity. Qed.

End F64Facts.

(** * Properties *)

(** ** Coordinate transforms *)

Section TransformFacts.

Import Transform.
Local Open Scope Q_scope.

Lemma clamp_bounds (hi v : Q) : 0 <= hi -> 0 <= clamp 0 hi v /\ clamp 0 hi v <= hi.
Proof.
  intros Hhi. unfold clamp.
  destruct (Q.max_spec 0 (Qmin v hi)) as [[? ->]|[? ->]];
    destruct (Q.min_spec v hi) as [[? E]|[? E]]; rewrite ?E in *; split; lra.
Qed.

Lemma clamp_inside (hi v : Q) : 0 <= v -> v <= hi -> clamp 0 hi v == v.
Proof.
  intros H0 H1. unfold clamp.
  destruct (Q.max_spec 0 (Qmin v hi)) as [[? ->]|[? ->]];
    destruct (Q.min_spec v hi) as [[? E]|[? E]]; rewrite ?E in *; lra.
Qed.

Lemma div_unit (a W : Q) : 0 < W -> 0 <= a -> a <= W -> 0 <= a / W /\ a / W <= 1.
Proof.
  intros HW H0 H1. split.
  - apply Qle_shift_div_l; [exact HW | lra].
  - apply Qle_shift_div_r; [exact HW | lra].
Qed.

Lemma div_mono (a b W : Q) : 0 < W -> a <= b -> a / W <= b / W.
Proof.
  intros HW Hab. unfold Qdiv. apply Qmult_le_compat_r; [exact Hab |].
  apply Qlt_le_weak, Qinv_lt_0_compat, HW.
Qed.

Lemma div_mul_cancel (a W : Q) : 0 < W -> a / W * W == a.
Proof. intros HW. field. lra. Qed.

(** The code of [normalizeRect] is the clamp / order / divide pipeline of
    the design document, term for term. *)
Lemma normalizeRect_pipeline (r : PxRect) (W H : Q) :
  normalizeRect r W H = toNormalized_spec r W H.
Proof. reflexivity. Qed.

(** Along one axis: both clamped ends, in order, inside the unit interval. *)
Lemma axis_bounds (a b W : Q) :
  0 < W ->
  let ca := clamp 0 W a in
  let cb := clamp 0 W b in
  0 <= Qmin ca cb / W /\ Qmin ca cb / W <= Qmax ca cb / W /\ Qmax ca cb / W <= 1.
Proof.
  intros HW ca cb.
  destruct (clamp_bounds W a) as [Ha0 Ha1]; [lra |].
  destruct (clamp_bounds W b) as [Hb0 Hb1]; [lra |].
  fold ca in Ha0, Ha1. fold cb in Hb0, Hb1.
  assert (Hmin : 0 <= Qmin ca cb /\ Qmin ca cb <= W).
  { destruct (Q.min_spec ca cb) as [[? ->]|[? ->]]; lra. }
  assert (Hmax : 0 <= Qmax ca cb /\ Qmax ca cb <= W).
  { destruct (Q.max_spec ca cb) as [[? ->]|[? ->]]; lra. }
  assert (Hord : Qmin ca cb <= Qmax ca cb).
  { destruct (Q.min_spec ca cb) as [[? ->]|[? ->]];
      destruct (Q.max_spec ca cb) as [[? ->]|[? ->]]; lra. }
  split; [| split].
  - apply (div_unit _ W); tauto.
  - apply div_mono; assumption.
  - apply (div_unit _ W); tauto.
Qed.

(** C2. For every pixel rectangle, whatever the drag direction and wherever
    its corners lie, and every positive surface width [W] and height [H],
    [normalizeRect] is the pipeline "clamp each coordinate into [0,W] or
    [0,H], order into min/max, divide by [W] and [H]", and its result
    satisfies [0 <= x1n <= x2n <= 1] and [0 <= y1n <= y2n <= 1]. *)
Theorem normalizeRect_unit_square (r : PxRect) (W H : Q) :
  0 < W -> 0 < H ->
  normalizeRect r W H = toNormalized_spec r W H /\
  (0 <= x1n (normalizeRect r W H) /\
   x1n (normalizeRect r W H) <= x2n (normalizeRect r W H) /\
   x2n (normalizeRect r W H) <= 1) /\
  (0 <= y1n (normalizeRect r W H) /\
   y1n (normalizeRect r W H) <= y2n (normalizeRect r W H) /\
   y2n (normalizeRect r W H) <= 1).
Proof.
  intros HW HH. split; [reflexivity |]. split.
  - exact (axis_bounds (x1 r) (x2 r) W HW).
  - exact (axis_bounds (y1 r) (y2 r) H HH).
Qed.

(** A right-to-left, bottom-to-top drag that leaves the 800 x 600 surface
    on two sides. *)
Lemma normalizeRect_unit_square_witness :
  let n := normalizeRect (mkPx 900 (-20) (-5) 300) 800 600 in
  (0 <= x1n n /\ x1n n <= x2n n /\ x2n n <= 1) /\
  (0 <= y1n n /\ y1n n <= y2n n /\ y2n n <= 1).
Proof.
  exact (proj2 (normalizeRect_unit_square (mkPx 900 (-20) (-5) 300) 800 600
                  eq_refl eq_refl)).
Defined.

(** The scenario of the design document: a drag from (10,10) to (110,60) on
    an 800 x 600 surface. *)
Example normalizeRect_scenario :
  norm_eq (normalizeRect (mkPx 10 10 110 60) 800 600)
          (mkNorm (1 # 80) (1 # 60) (11 # 80) (1 # 10)).
Proof. repeat split. Qed.

End TransformFacts.

(** ** The coordinate transforms in binary64 *)

Section TransformFFacts.

Import Transform.
Local Open Scope Q_scope.

(** Along one axis of length [W], for a point [c] on it: dividing by [W]
    and multiplying back, each rounded, gives [c] within the tolerance. *)
Lemma axis_roundtripF (c W : Q) :
  0 < W -> 0 <= c -> c <= W ->
  Qabs (F64.mul (F64.div c W) W - c) <= TransformF.tolerance W.
Proof.
  intros HW Hc0 Hc1. unfold F64.mul, F64.div, TransformF.tolerance.
  destruct eta_bounds as [He0 He1].
  destruct (div_unit c W HW Hc0 Hc1) as [Hq0 Hq1].
  pose proof (div_mul_cancel c W HW) as Ec.
  set (q := c / W) in *.
  destruct (rnd_bounds q q) as [Hn1 Hn2]; [rewrite Qabs_pos by exact Hq0; lra |].
  set (n := F64.rnd q) in *.
  assert (HeW : F64.eta * W <= (1 # 1267650600228229401496703205376) * W).
  { apply Qmult_le_compat_r; lra. }
  assert (HeW0 : 0 <= F64.eta * W) by (apply Qmult_le_0_compat; lra).
  assert (Hp1 : c - (F64.u * c + F64.eta * W) <= n * W).
  { setoid_replace (c - (F64.u * c + F64.eta * W))
      with ((q - (F64.u * q + F64.eta)) * W) using relation Qeq
      by (rewrite <- Ec; ring).
    apply Qmult_le_compat_r; lra. }
  assert (Hp2 : n * W <= c + (F64.u * c + F64.eta * W)).
  { setoid_replace (c + (F64.u * c + F64.eta * W))
      with ((q + (F64.u * q + F64.eta)) * W) using relation Qeq
      by (rewrite <- Ec; ring).
    apply Qmult_le_compat_r; lra. }
  set (p := n * W) in *.
  destruct (rnd_bounds p (c + (F64.u * c + F64.eta * W))) as [Hx1 Hx2].
  { apply Qabs_Qle_condition. unfold F64.u in *. split; lra. }
  apply Qabs_Qle_condition. unfold F64.u in *. split; lra.
Qed.

(** Ends on the surface are their own clamps. *)
Lemma axis_clamped (a b W : Q) :
  0 <= a -> a <= W -> 0 <= b -> b <= W ->
  Qmin (clamp 0 W a) (clamp 0 W b) == Qmin a b /\
  Qmax (clamp 0 W a) (clamp 0 W b) == Qmax a b /\
  0 <= Qmin a b /\ Qmin a b <= W /\ 0 <= Qmax a b /\ Qmax a b <= W.
Proof.
  intros Ha0 Ha1 Hb0 Hb1.
  pose proof (clamp_inside W a Ha0 Ha1) as Ea.
  pose proof (clamp_inside W b Hb0 Hb1) as Eb.
  split; [| split].
  - destruct (Q.min_spec (clamp 0 W a) (clamp 0 W b)) as [[? ->]|[? ->]];
      destruct (Q.min_spec a b) as [[? ->]|[? ->]]; lra.
  - destruct (Q.max_spec (clamp 0 W a) (clamp 0 W b)) as [[? ->]|[? ->]];
      destruct (Q.max_spec a b) as [[? ->]|[? ->]]; lra.
  - destruct (Q.min_spec a b) as [[? ->]|[? ->]];
      destruct (Q.max_spec a b) as [[? ->]|[? ->]]; repeat split; lra.
Qed.

(** The round trip along one axis, in the terms of [normalizeRect] and
    [denormalizeRect]. *)
Lemma axis_roundtrip_clamped (a b W : Q) :
  0 < W -> 0 <= a -> a <= W -> 0 <= b -> b <= W ->
  Qabs (F64.mul (F64.div (Qmin (clamp 0 W a) (clamp 0 W b)) W) W - Qmin a b)
    <= TransformF.tolerance W /\
  Qabs (F64.mul (F64.div (Qmax (clamp 0 W a) (clamp 0 W b)) W) W - Qmax a b)
    <= TransformF.tolerance W.
Proof.
  intros HW Ha0 Ha1 Hb0 Hb1.
  destruct (axis_clamped a b W Ha0 Ha1 Hb0 Hb1) as (Emin & Emax & L0 & L1 & R0 & R1).
  split.
  - rewrite <- Emin. apply axis_roundtripF; [exact HW | |]; rewrite Emin; assumption.
  - rewrite <- Emax. apply axis_roundtripF; [exact HW | |]; rewrite Emax; assumption.
Qed.

(** C3. For every pixel rectangle [r] of positive width and height whose
    corners lie within the surface, and positive surface dimensions [W] and
    [H], [denormalizeRect (normalizeRect r W H) W H], evaluated in binary64
    as the program does, is [r] with its corners in min/max order within
    the floating-point tolerance: every x within four units of [2^-53] of
    [W] (and half the subnormal spacing), every y likewise for [H].  The
    round trip is not exact: see [roundtrip_inexact]. *)
Theorem denormalize_normalize_roundtrip (r : PxRect) (W H : Q) :
  0 < W -> 0 < H ->
  0 <= x1 r <= W -> 0 <= x2 r <= W ->
  0 <= y1 r <= H -> 0 <= y2 r <= H ->
  ~ x1 r == x2 r -> ~ y1 r == y2 r ->
  TransformF.px_close (TransformF.tolerance W) (TransformF.tolerance H)
    (TransformF.denormalizeRect (TransformF.normalizeRect r W H) W H) (canonical r).
Proof.
  intros HW HH [Hx10 Hx11] [Hx20 Hx21] [Hy10 Hy11] [Hy20 Hy21] _ _.
  destruct (axis_roundtrip_clamped (x1 r) (x2 r) W HW Hx10 Hx11 Hx20 Hx21) as [Ex1 Ex2].
  destruct (axis_roundtrip_clamped (y1 r) (y2 r) H HH Hy10 Hy11 Hy20 Hy21) as [Ey1 Ey2].
  repeat split; assumption.
Qed.

(** *** [fmt] *)

Lemma Qfloor_eq (x : Q) (z : Z) : inject_Z z <= x -> x < inject_Z z + 1 -> Qfloor x = z.
Proof.
  intros Hlo Hhi. apply Z.le_antisymm.
  - apply Z.lt_succ_r. rewrite Zlt_Qlt.
    eapply Qle_lt_trans; [apply Qfloor_le |].
    unfold Z.succ. rewrite inject_Z_plus. exact Hhi.
  - rewrite <- (Qfloor_Z z) at 1. apply Qfloor_resp_le. exact Hlo.
Qed.

Lemma Math_round_bounds (a : Q) :
  a - (1 # 2) < inject_Z (Math_round a) /\ inject_Z (Math_round a) <= a + (1 # 2).
Proof.
  unfold Math_round.
  pose proof (Qfloor_le (a + (1 # 2))) as Hlo.
  pose proof (Qlt_floor (a + (1 # 2))) as Hhi.
  rewrite inject_Z_plus in Hhi. change (inject_Z 1) with 1 in Hhi.
  split; lra.
Qed.

(** [fmt] in binary64, for an argument of magnitude at most [B]. *)
Lemma fmtF_bounds (q B : Q) :
  Qabs q <= B ->
  let k := inject_Z (Math_round (F64.mul q 100)) in
  Qabs (k - q * 100) <= (1 # 2) + 100 * F64.u * B + F64.eta /\
  Qabs (TransformF.fmt q - k / 100)
    <= F64.u * (B + B * F64.u + (1 # 200) + F64.eta) + F64.eta.
Proof.
  intros HB k. destruct eta_bounds as [He0 He1].
  pose proof (Qabs_nonneg q) as HA.
  assert (Hq : - B <= q /\ q <= B) by (apply Qabs_Qle_condition; exact HB).
  destruct (rnd_bounds (q * 100) (B * 100)) as [Ha1 Ha2].
  { apply Qabs_Qle_condition. split; lra. }
  destruct (Math_round_bounds (F64.rnd (q * 100))) as [Hk1 Hk2].
  unfold TransformF.fmt. fold (F64.mul q 100) in *. fold k in Hk1, Hk2 |- *.
  unfold F64.mul in *. set (a := F64.rnd (q * 100)) in *.
  assert (Hk : Qabs (k - q * 100) <= (1 # 2) + 100 * F64.u * B + F64.eta).
  { apply Qabs_Qle_condition. unfold F64.u in *. split; lra. }
  split; [exact Hk |].
  apply Qabs_Qle_condition in Hk.
  destruct (rnd_bounds (k / 100) (B + B * F64.u + (1 # 200) + F64.eta)) as [Hf1 Hf2].
  { apply Qabs_Qle_condition. unfold Qdiv. change (/ 100) with (1 # 100).
    unfold F64.u in *. split; lra. }
  unfold F64.div. apply Qabs_Qle_condition. unfold F64.u in *. split; lra.
Qed.

Lemma fmtF_error (q : Q) : Qabs (TransformF.fmt q - q) <= TransformF.fmtSlack q.
Proof.
  destruct eta_bounds as [He0 He1]. pose proof (Qabs_nonneg q) as HA.
  destruct (fmtF_bounds q (Qabs q) (Qle_refl _)) as [Hk Hf]. cbv zeta in Hk, Hf.
  set (k := inject_Z (Math_round (F64.mul q 100))) in *.
  apply Qabs_Qle_condition in Hk. apply Qabs_Qle_condition in Hf.
  unfold TransformF.fmtSlack. apply Qabs_Qle_condition.
  unfold Qdiv in Hf. change (/ 100) with (1 # 100) in Hf.
  unfold F64.u in *. split; lra.
Qed.

(** X1. [fmt], evaluated in binary64 as the program does, returns a double
    within half a hundredth of its argument, up to the roundings of the
    product and of the quotient (three units of [2^-53] of the argument,
    and [2^-53]); on an argument of magnitude at most [2^40] a second [fmt]
    changes nothing.  It is not the exact rounding to hundredths: on the
    double [0.015] it returns the double [0.02], see [fmt_tie]. *)
Theorem fmt_nearest_hundredth (q : Q) :
  Qabs (TransformF.fmt q - q) <= TransformF.fmtSlack q /\
  (Qabs q <= 1099511627776 -> TransformF.fmt (TransformF.fmt q) = TransformF.fmt q).
Proof.
  split; [apply fmtF_error |]. intros HB.
  destruct eta_bounds as [He0 He1].
  destruct (fmtF_bounds q 1099511627776 HB) as [Hk Hf]. cbv zeta in Hk, Hf.
  set (k := Math_round (F64.mul q 100)) in *.
  apply Qabs_Qle_condition in Hk. apply Qabs_Qle_condition in Hf.
  assert (Hq : - (1099511627776) <= q /\ q <= 1099511627776)
    by (apply Qabs_Qle_condition; exact HB).
  unfold Qdiv in Hf. change (/ 100) with (1 # 100) in Hf.
  set (f := TransformF.fmt q) in *.
  assert (E : Math_round (F64.mul f 100) = k).
  { destruct (rnd_bounds (f * 100) 110000000000001) as [Ha1 Ha2].
    { apply Qabs_Qle_condition. unfold F64.u in *. split; lra. }
    unfold Math_round, F64.mul. apply Qfloor_eq; unfold F64.u in *; lra. }
  unfold TransformF.fmt at 1. rewrite E. reflexivity.
Qed.

End TransformFFacts.

Lemma denormalize_normalize_roundtrip_witness :
  TransformF.px_close (TransformF.tolerance 800) (TransformF.tolerance 600)
    (TransformF.denormalizeRect
       (TransformF.normalizeRect (Transform.mkPx 110 60 10 10) 800 600) 800 600)
    (Transform.mkPx 10 10 110 60).
Proof.
  apply (denormalize_normalize_roundtrip (Transform.mkPx 110 60 10 10) 800 600);
    simpl; try reflexivity; try (split; discriminate); discriminate.
Defined.

(** The round trip of 110 on a surface 800 wide is the double next above
    110 ([110.00000000000001]), not 110. *)
Example roundtrip_inexact :
  Transform.x2 (TransformF.denormalizeRect
                  (TransformF.normalizeRect (Transform.mkPx 110 60 10 10) 800 600) 800 600)
  = 7740561859543041 # 70368744177664 /\
  ~ (7740561859543041 # 70368744177664 == 110)%Q.
Proof. split; [vm_compute; reflexivity | discriminate]. Qed.

(** On the double [0.015] the product with 100 rounds to 1.5, so [fmt]
    returns the double [0.02], where rounding the exact value (just below
    0.015) to hundredths gives 0.01. *)
Example fmt_tie :
  TransformF.fmt TransformF.d0_015 = TransformF.d0_02 /\
  (TransformF.d0_015 < 15 # 1000)%Q /\
  (Transform.fmt TransformF.d0_015 == 1 # 100)%Q.
Proof. split; [vm_compute; reflexivity |]. split; vm_compute; reflexivity. Qed.

Lemma fmt_nearest_hundredth_witness :
  TransformF.fmt (TransformF.fmt (8742857142857143 # 100000000000000))
  = TransformF.fmt (8742857142857143 # 100000000000000).
Proof.
  apply (proj2 (fmt_nearest_hundredth (8742857142857143 # 100000000000000))).
  vm_compute. discriminate.
Defined.

(** ** Annotation store and payload of [PDFSanitizerApp1.jsx] *)

Section App1Facts.

Import Transform App1.
Local Open Scope Q_scope.

Lemma rectStep_closed (p : nat) (g : PageGeom) (acc : Acc) (r : SavedRect) :
  rectStep p g acc r =
  mkAcc (rectangles acc ++ [zoneOf p g (next_idx acc) r])
        (logoUploads acc ++ option_list (uploadOf (next_idx acc) r))
        (S (next_idx acc)).
Proof.
  unfold rectStep, uploadOf.
  destruct (logoFile r); [destruct (String.eqb (kind r) "logo") |];
    simpl; rewrite ?app_nil_r; reflexivity.
Qed.

Lemma foldl_entryStep (es : list Entry) (acc : Acc) :
  foldl entryStep acc es =
  mkAcc (rectangles acc ++ imap (fun i e => entryZone (next_idx acc + i) e) es)
        (logoUploads acc
           ++ (imap (fun i (e : Entry) => uploadOf (next_idx acc + i) e.2) es ≫= option_list))
        (next_idx acc + length es).
Proof.
  revert acc. induction es as [|e es IH]; intros acc.
  - destruct acc; simpl. rewrite !app_nil_r, Nat.add_0_r. reflexivity.
  - cbn [foldl]. rewrite IH.
    assert (Hs : entryStep acc e =
                 mkAcc (rectangles acc ++ [entryZone (next_idx acc) e])
                       (logoUploads acc ++ option_list (uploadOf (next_idx acc) e.2))
                       (S (next_idx acc))) by apply rectStep_closed.
    rewrite Hs. cbn [rectangles logoUploads next_idx].
    rewrite !imap_cons, bind_cons, Nat.add_0_r, <- !app_assoc.
    cbn [app length]. f_equal.
    + do 2 f_equal. apply imap_ext. intros i x _. simpl. f_equal. lia.
    + do 3 f_equal. apply imap_ext. intros i x _. simpl. f_equal. lia.
    + lia.
Qed.

Lemma foldl_pageStep (doc : list PageGeom) (prs : gmap nat (list SavedRect))
    (ps : list nat) (acc : Acc) :
  (forall p, p ∈ ps -> is_Some (getPage doc p)) ->
  foldl (pageStep doc prs) (Some acc) ps =
  Some (foldl entryStep acc (ps ≫= pageEntries doc prs)).
Proof.
  revert acc. induction ps as [|p ps IH]; intros acc Hok; [reflexivity |].
  destruct (Hok p) as [g Hg]; [left |].
  cbn [foldl]. unfold pageStep at 2. rewrite Hg.
  rewrite IH by (intros q Hq; apply Hok; right; exact Hq).
  rewrite bind_cons, foldl_app. do 2 f_equal.
  unfold pageEntries. rewrite Hg.
  rewrite foldl_fmap. reflexivity.
Qed.

Lemma getPage_loaded (doc : list PageGeom) (n p : nat) :
  (n <= length doc)%nat -> p ∈ seq 1 n -> is_Some (getPage doc p).
Proof.
  intros Hn Hp. apply elem_of_seq in Hp. destruct p as [|i]; [lia |].
  simpl. apply lookup_lt_is_Some. lia.
Qed.

(** [buildPayloadAndLogos] returns, and what it returns is the closed
    form: zone [i] is the [i]-th stored rectangle in page order, and the
    uploads are those of the logo rectangles that carry a file. *)
Lemma buildPayloadAndLogos_closed (st : State) (doc : list PageGeom) :
  pdfDoc st = Some doc -> (numPages st <= length doc)%nat ->
  buildPayloadAndLogos st =
  Some (imap entryZone (entries doc (pageRects st) (numPages st)),
        imap (fun i (e : Entry) => uploadOf i e.2)
             (entries doc (pageRects st) (numPages st)) ≫= option_list).
Proof.
  intros Hdoc Hn. unfold buildPayloadAndLogos. rewrite Hdoc.
  rewrite foldl_pageStep by (intros p Hp; eapply getPage_loaded; eassumption).
  rewrite foldl_entryStep. reflexivity.
Qed.

Lemma entries_elem (doc : list PageGeom) (prs : gmap nat (list SavedRect))
    (n : nat) (e : Entry) :
  e ∈ entries doc prs n ->
  (1 <= e.1.1 <= n)%nat /\ getPage doc e.1.1 = Some e.1.2 /\
  e.2 ∈ default [] (prs !! e.1.1).
Proof.
  unfold entries. intros He. apply list_elem_of_bind in He as (p & He & Hp).
  apply elem_of_seq in Hp. unfold pageEntries in He.
  destruct (getPage doc p) as [g|] eqn:Hg; [| by apply elem_of_nil in He].
  apply list_elem_of_fmap in He as (r & -> & Hr). simpl.
  repeat split; [lia | lia | exact Hg | exact Hr].
Qed.

Lemma entries_split (doc : list PageGeom) (prs : gmap nat (list SavedRect))
    (n p : nat) :
  (1 <= p <= n)%nat ->
  entries doc prs n =
  entries doc prs (p - 1) ++ pageEntries doc prs p
    ++ (seq (S p) (n - p) ≫= pageEntries doc prs).
Proof.
  intros Hp. unfold entries.
  replace n with ((p - 1) + S (n - p))%nat at 1 by lia.
  rewrite seq_app, bind_app. f_equal.
  replace (1 + (p - 1))%nat with p by lia.
  cbn [seq]. rewrite bind_cons. reflexivity.
Qed.

(** The [k]-th rectangle of page [p] is entry [offset p + k]. *)
Lemma entries_lookup (doc : list PageGeom) (prs : gmap nat (list SavedRect))
    (n p k : nat) (g : PageGeom) (r : SavedRect) :
  (1 <= p <= n)%nat -> getPage doc p = Some g ->
  default [] (prs !! p) !! k = Some r ->
  entries doc prs n !! (offset doc prs p + k)%nat = Some (p, g, r).
Proof.
  intros Hp Hg Hr. rewrite (entries_split doc prs n p Hp). unfold offset.
  rewrite lookup_app_r by lia.
  replace (_ + k - _)%nat with k by lia.
  rewrite lookup_app_l.
  - unfold pageEntries. rewrite Hg. cbv beta iota.
    rewrite list_lookup_fmap, Hr. reflexivity.
  - unfold pageEntries. rewrite Hg. cbv beta iota.
    rewrite length_fmap. eapply lookup_lt_Some, Hr.
Qed.

Lemma upload_elem (es : list Entry) (u : LogoUpload) :
  u ∈ imap (fun i (e : Entry) => uploadOf i e.2) es ≫= option_list <->
  exists i e, es !! i = Some e /\ uploadOf i e.2 = Some u.
Proof.
  rewrite list_elem_of_bind. split.
  - intros (o & Hu & Ho). apply elem_of_lookup_imap in Ho as (i & e & -> & He).
    exists i, e. split; [exact He |].
    destruct (uploadOf i e.2); simpl in Hu.
    + apply list_elem_of_singleton in Hu. congruence.
    + by apply elem_of_nil in Hu.
  - intros (i & e & He & Hu). exists (Some u). split; [simpl; left |].
    rewrite <- Hu. apply (elem_of_lookup_imap_2 (fun i (e : Entry) => uploadOf i e.2)), He.
Qed.

Lemma uploadOf_Some (i : nat) (r : SavedRect) (u : LogoUpload) :
  uploadOf i r = Some u ->
  kind r = "logo" /\ logoFile r = Some (file u) /\ u_rect_idx u = i /\
  field u = "logo_" +:+ pretty i.
Proof.
  unfold uploadOf. destruct (logoFile r) as [f|]; [| discriminate].
  destruct (String.eqb_spec (kind r) "logo") as [Hk|]; [| discriminate].
  intros [= <-]. simpl. auto.
Qed.

Lemma clamp_compat (W a b : Q) : a == b -> clamp 0 W a == clamp 0 W b.
Proof.
  intros E. unfold clamp.
  destruct (Q.max_spec 0 (Qmin a W)) as [[? ->]|[? ->]];
    destruct (Q.max_spec 0 (Qmin b W)) as [[? ->]|[? ->]];
    destruct (Q.min_spec a W) as [[? Ea]|[? Ea]];
    destruct (Q.min_spec b W) as [[? Eb]|[? Eb]]; rewrite ?Ea, ?Eb in *; lra.
Qed.

(** Equal pixel ends along an axis normalize to equal ends. *)
Lemma axis_degenerate (a b W : Q) :
  a == b ->
  Qmin (clamp 0 W a) (clamp 0 W b) / W == Qmax (clamp 0 W a) (clamp 0 W b) / W.
Proof.
  intros E. pose proof (clamp_compat W a b E) as Ec.
  assert (Hm : Qmin (clamp 0 W a) (clamp 0 W b) == Qmax (clamp 0 W a) (clamp 0 W b)).
  { destruct (Q.min_spec (clamp 0 W a) (clamp 0 W b)) as [[? ->]|[? ->]];
      destruct (Q.max_spec (clamp 0 W a) (clamp 0 W b)) as [[? ->]|[? ->]]; lra. }
  rewrite Hm. reflexivity.
Qed.

(** The pixel rectangle [handlePointerUp] reads from the refs. *)
Lemma handlePointerUp_reject (st : State) (W H : Q) :
  overlay st = Some (W, H) ->
  x1n (normalizeRect (mkPx (startPos st).1 (startPos st).2
                           (currentPos st).1 (currentPos st).2) W H)
  == x2n (normalizeRect (mkPx (startPos st).1 (startPos st).2
                              (currentPos st).1 (currentPos st).2) W H)
  \/ y1n (normalizeRect (mkPx (startPos st).1 (startPos st).2
                              (currentPos st).1 (currentPos st).2) W H)
     == y2n (normalizeRect (mkPx (startPos st).1 (startPos st).2
                                 (currentPos st).1 (currentPos st).2) W H) ->
  pageRects (handlePointerUp st) = pageRects st.
Proof.
  intros Ho Hz. destruct st as [fs ai pd np pn z ov dr sp cp prs].
  cbn [overlay startPos currentPos] in Ho, Hz. subst ov.
  unfold handlePointerUp.
  cbn [isDrawing set_drag overlay startPos currentPos pageNumber pageRects
       fmap option_fmap option_map default from_option fst snd].
  unfold id. destruct dr; [| reflexivity]. cbn [negb].
  destruct (Qeq_bool W 0 || Qeq_bool H 0); [reflexivity |].
  destruct Hz as [Hz|Hz]; apply Qeq_bool_iff in Hz; rewrite Hz; cbn [negb andb];
    [reflexivity | rewrite andb_false_r; reflexivity].
Qed.

Lemma handlePointerUp_no_surface (st : State) :
  overlay st = None -> pageRects (handlePointerUp st) = pageRects st.
Proof.
  intros Ho. destruct st as [fs ai pd np pn z ov dr sp cp prs].
  cbn [overlay] in Ho. subst ov. destruct dr; reflexivity.
Qed.

Lemma handlePointerUp_zero_px (st : State) :
  (startPos st).1 == (currentPos st).1 \/ (startPos st).2 == (currentPos st).2 ->
  pageRects (handlePointerUp st) = pageRects st.
Proof.
  intros Hz. destruct (overlay st) as [[W H]|] eqn:Ho.
  - apply (handlePointerUp_reject st W H Ho).
    destruct Hz as [Hz|Hz]; [left | right]; exact (axis_degenerate _ _ _ Hz).
  - apply handlePointerUp_no_surface, Ho.
Qed.

Lemma image_map_lookup (us : list LogoUpload) (k : nat) (v : string) :
  image_map us !! k = Some v ->
  exists u, u ∈ us /\ u_rect_idx u = k /\ field u = v.
Proof.
  unfold image_map. induction us as [|u us IH] using rev_ind;
    [simpl; rewrite lookup_empty; discriminate |].
  rewrite foldl_snoc. destruct (decide (u_rect_idx u = k)) as [E|N].
  - rewrite E, lookup_insert_eq. intros [= <-].
    exists u. rewrite elem_of_app, list_elem_of_singleton. auto.
  - rewrite lookup_insert_ne by exact N. intros Hk.
    destruct (IH Hk) as (u' & Hu' & Hr). exists u'.
    rewrite elem_of_app. auto.
Qed.

Lemma listForPage_lookup (st : State) (d p : nat) :
  listForPage st d p = default [] (pageRects st !! p).
Proof. reflexivity. Qed.

Lemma pageRects_clearPage (st : State) (d p : nat) :
  pageRects (clearPage d p st) = <[p := []]> (pageRects st).
Proof. reflexivity. Qed.

(** C9, as the code has it. [pageRects] is keyed by the page number alone,
    and selecting another file leaves it as it is: [clearPage] empties the
    list of that page number, for whichever document is shown, and leaves
    the list of every other page number unchanged. *)
Theorem clearPage_frame (st : State) (d p : nat) :
  (forall d', listForPage (clearPage d p st) d' p = []) /\
  (forall d' p', p' <> p ->
     listForPage (clearPage d p st) d' p' = listForPage st d' p').
Proof.
  split.
  - intros d'. rewrite listForPage_lookup, pageRects_clearPage, lookup_insert_eq.
    reflexivity.
  - intros d' p' Hne. rewrite !listForPage_lookup, pageRects_clearPage.
    rewrite lookup_insert_ne by congruence. reflexivity.
Qed.

Lemma clearPage_frame_witness :
  listForPage (clearPage 0 1 (drag (10, 10) (110, 60) (session 1 (800, 600)))) 1 2
  = listForPage (drag (10, 10) (110, 60) (session 1 (800, 600))) 1 2.
Proof.
  apply (proj2 (clearPage_frame (drag (10, 10) (110, 60) (session 1 (800, 600))) 0 1)).
  lia.
Defined.

(** C9 as stated fails: a rectangle is drawn on page 1 while document 0 is
    shown; clearing page 1 while document 1 is shown empties the list of
    document 0, page 1 as well. *)
Lemma clearPage_other_document_counterexample :
  (0%nat, 1%nat) <> (1%nat, 1%nat) /\
  length (listForPage (drag (10, 10) (110, 60) (session 1 (800, 600))) 0 1) = 1%nat /\
  listForPage (clearPage 1 1 (drag (10, 10) (110, 60) (session 1 (800, 600)))) 0 1 = [].
Proof. split; [congruence |]. split; reflexivity. Qed.

(** What [buildPayloadAndLogos] reads of the state: neither the zoom nor
    the size of the surface. *)
Lemma buildPayloadAndLogos_zoom (st : State) (z : Q) (o : option (Q * Q)) :
  buildPayloadAndLogos (set_overlay o (set_zoom z st)) = buildPayloadAndLogos st.
Proof. reflexivity. Qed.

Lemma zone_lookup (es : list Entry) (i : nat) (z : Zone) :
  imap entryZone es !! i = Some z <->
  exists e, es !! i = Some e /\ z = entryZone i e.
Proof.
  rewrite list_lookup_imap. destruct (es !! i) as [e|]; simpl; split.
  - intros [= <-]. eauto.
  - intros (e' & [= <-] & ->). reflexivity.
  - discriminate.
  - intros (e' & [=] & _).
Qed.

(** [fmt] moves a number by at most half a hundredth. *)
Lemma fmt_error (q : Q) : Qabs (fmt q - q) <= 1 # 200.
Proof.
  unfold fmt, Math_round.
  pose proof (Qfloor_le (q * 100 + (1 # 2))) as Hlo.
  pose proof (Qlt_floor (q * 100 + (1 # 2))) as Hhi.
  rewrite inject_Z_plus in Hhi. change (inject_Z 1) with 1 in Hhi.
  set (k := inject_Z (Qfloor (q * 100 + (1 # 2)))) in *.
  apply Qabs_Qle_condition. unfold Qdiv. change (/ 100) with (1 # 100).
  split; lra.
Qed.

(** *** The page list under the mutations of the store *)

Lemma rectsForPage_updateRectKind (idx : nat) (kind : string) (st : State) :
  rectsForPage (updateRectKind idx kind st) =
  match rectsForPage st !! idx with
  | Some r =>
      <[idx := mkRect (nr r) kind (if String.eqb kind "logo" then logoFile r else None)]>
        (rectsForPage st)
  | None => rectsForPage st
  end.
Proof.
  unfold rectsForPage, updateRectKind. cbn [pageRects pageNumber set_pageRects].
  rewrite lookup_insert_eq. reflexivity.
Qed.

Lemma rectsForPage_setRectLogoFile (idx : nat) (f : option File) (st : State) :
  rectsForPage (setRectLogoFile idx f st) =
  match rectsForPage st !! idx with
  | Some r => <[idx := mkRect (nr r) (kind r) f]> (rectsForPage st)
  | None => rectsForPage st
  end.
Proof.
  unfold rectsForPage, setRectLogoFile. cbn [pageRects pageNumber set_pageRects].
  rewrite lookup_insert_eq. reflexivity.
Qed.

Lemma rectsForPage_removeRect (idx : nat) (st : State) :
  rectsForPage (removeRect idx st) = delete idx (rectsForPage st).
Proof.
  unfold rectsForPage, removeRect. cbn [pageRects pageNumber set_pageRects].
  rewrite lookup_insert_eq. reflexivity.
Qed.

(** A release either leaves the page list alone or appends one [redact]
    rectangle at its end. *)
Lemma rectsForPage_handlePointerUp (st : State) :
  rectsForPage (handlePointerUp st) = rectsForPage st \/
  exists n, rectsForPage (handlePointerUp st) = rectsForPage st ++ [mkRect n "redact" None].
Proof.
  destruct st as [fs ai pd np pn z ov dr sp cp prs].
  unfold handlePointerUp.
  cbn [isDrawing set_drag overlay startPos currentPos pageNumber pageRects].
  destruct dr; [| left; reflexivity]. cbn [negb].
  destruct (Qeq_bool _ 0 || Qeq_bool _ 0); [left; reflexivity |].
  match goal with |- context [if ?c then _ else _] => destruct c end;
    [| left; reflexivity].
  right. eexists. unfold rectsForPage, pushRect.
  cbn [pageRects pageNumber set_pageRects]. rewrite lookup_insert_eq. reflexivity.
Qed.

(** Every mutation of the store other than [clearPageRects] keeps the
    rectangles that stay on the page in the order they had. *)
Lemma removeRect_sublist (idx : nat) (st : State) :
  rectsForPage (removeRect idx st) `sublist_of` rectsForPage st.
Proof. rewrite rectsForPage_removeRect. apply sublist_delete. Qed.

(** *** Switching a rectangle away from [logo] *)

Lemma updateRectKind_clears (idx : nat) (kind : string) (st : State) (r : SavedRect) :
  kind <> "logo" -> rectsForPage st !! idx = Some r ->
  rectsForPage (updateRectKind idx kind st) !! idx = Some (mkRect (nr r) kind None).
Proof.
  intros Hk Hr. rewrite rectsForPage_updateRectKind, Hr.
  destruct (String.eqb_spec kind "logo") as [E|_]; [contradiction |].
  apply list_lookup_insert_eq. eapply lookup_lt_Some, Hr.
Qed.

Lemma updateRectKind_no_upload (idx : nat) (kind : string) (st : State)
    (r : SavedRect) (doc : list PageGeom) :
  kind <> "logo" -> rectsForPage st !! idx = Some r ->
  pdfDoc st = Some doc -> (numPages st <= length doc)%nat ->
  (1 <= pageNumber st <= numPages st)%nat ->
  exists zs us g,
    buildPayloadAndLogos (updateRectKind idx kind st) = Some (zs, us) /\
    getPage doc (pageNumber st) = Some g /\
    let i := (offset doc (pageRects (updateRectKind idx kind st)) (pageNumber st) + idx)%nat in
    zs !! i = Some (zoneOf (pageNumber st) g i (mkRect (nr r) kind None)) /\
    (forall u, u ∈ us -> u_rect_idx u <> i) /\
    image_map us !! i = None.
Proof.
  intros Hk Hr Hdoc Hn Hp.
  pose proof (updateRectKind_clears idx kind st r Hk Hr) as Hr'.
  set (st' := updateRectKind idx kind st) in *.
  assert (Hdoc' : pdfDoc st' = Some doc) by exact Hdoc.
  assert (Hn' : (numPages st' <= length doc)%nat) by exact Hn.
  destruct (getPage_loaded doc (numPages st) (pageNumber st) Hn) as [g Hg];
    [apply elem_of_seq; lia |].
  pose proof (entries_lookup doc (pageRects st') (numPages st') (pageNumber st) idx g
                _ Hp Hg Hr') as He.
  remember (offset doc (pageRects st') (pageNumber st) + idx)%nat as i eqn:Ei.
  assert (Hno : forall u,
            u ∈ imap (fun i (e : Entry) => uploadOf i e.2)
                  (entries doc (pageRects st') (numPages st')) ≫= option_list ->
            u_rect_idx u <> i).
  { intros u Hu Hi. apply upload_elem in Hu as (j & e & Hj & Hu).
    apply uploadOf_Some in Hu as (Hlogo & _ & Hidx & _).
    assert (Hji : j = i) by congruence. rewrite Hji, He in Hj.
    injection Hj as <-. simpl in Hlogo. contradiction. }
  eexists _, _, g. split; [apply (buildPayloadAndLogos_closed st' doc Hdoc' Hn') |].
  split; [exact Hg |]. cbv zeta. subst i. split; [| split].
  - apply zone_lookup. exists (pageNumber st, g, mkRect (nr r) kind None).
    split; [exact He | reflexivity].
  - exact Hno.
  - destruct (image_map _ !! _) as [v|] eqn:Hv; [| reflexivity].
    apply image_map_lookup in Hv as (u & Hu & Hi & _).
    exfalso. exact (Hno u Hu Hi).
Qed.

(** *** Order of the zones and keys of the image map *)

Lemma buildPayloadAndLogos_order_keys (st : State) (doc : list PageGeom) :
  pdfDoc st = Some doc -> (numPages st <= length doc)%nat ->
  exists zs us,
    buildPayloadAndLogos st = Some (zs, us) /\
    (forall i z, zs !! i = Some z -> rect_idx z = i) /\
    (forall p g i j A B,
       (1 <= p <= numPages st)%nat -> getPage doc p = Some g ->
       default [] (pageRects st !! p) !! i = Some A ->
       default [] (pageRects st !! p) !! j = Some B ->
       (i < j)%nat ->
       exists m n,
         (m < n)%nat /\ zs !! m = Some (zoneOf p g m A) /\ zs !! n = Some (zoneOf p g n B)) /\
    (forall k v,
       image_map us !! k = Some v ->
       exists p g r f,
         zs !! k = Some (zoneOf p g k r) /\
         r ∈ default [] (pageRects st !! p) /\
         kind r = "logo" /\ logoFile r = Some f /\
         v = "logo_" +:+ pretty k /\ mkUpload k v f ∈ us).
Proof.
  intros Hdoc Hn.
  eexists _, _. split; [apply (buildPayloadAndLogos_closed st doc Hdoc Hn) |].
  split; [| split].
  - intros i z Hz. apply zone_lookup in Hz as (e & _ & ->). reflexivity.
  - intros p g i j A B Hp Hg HA HB Hij.
    exists (offset doc (pageRects st) p + i)%nat, (offset doc (pageRects st) p + j)%nat.
    split; [lia |]. split; apply zone_lookup.
    + exists (p, g, A). split; [| reflexivity].
      apply (entries_lookup doc (pageRects st) (numPages st) p i g A Hp Hg HA).
    + exists (p, g, B). split; [| reflexivity].
      apply (entries_lookup doc (pageRects st) (numPages st) p j g B Hp Hg HB).
  - intros k v Hv. apply image_map_lookup in Hv as (u & Hu & Hk & Hf).
    pose proof Hu as Hu'.
    apply upload_elem in Hu as (i & e & He & Hup).
    apply uploadOf_Some in Hup as (Hlogo & Hfile & Hidx & Hfield).
    subst i. subst k.
    pose proof (list_elem_of_lookup_2 _ _ _ He) as Hin.
    apply entries_elem in Hin as (_ & _ & Hr).
    exists e.1.1, e.1.2, e.2, (file u). split; [| split; [| split; [| split; [| split]]]].
    + apply zone_lookup. exists e. split; [exact He | reflexivity].
    + exact Hr.
    + exact Hlogo.
    + exact Hfile.
    + congruence.
    + destruct u as [ui uf ufile]. simpl in *. subst. exact Hu'.
Qed.

End App1Facts.

(** ** Payload of [PDFSanitizerApp1.jsx] in binary64 *)

Section App1FFacts.

Import Transform App1.
Local Open Scope Q_scope.

Lemma rectStepF_closed (p : nat) (g : PageGeom) (acc : Acc) (r : SavedRect) :
  App1F.rectStep p g acc r =
  mkAcc (rectangles acc ++ [App1F.zoneOf p g (next_idx acc) r])
        (logoUploads acc ++ option_list (uploadOf (next_idx acc) r))
        (S (next_idx acc)).
Proof.
  unfold App1F.rectStep, uploadOf.
  destruct (logoFile r); [destruct (String.eqb (kind r) "logo") |];
    simpl; rewrite ?app_nil_r; reflexivity.
Qed.

Lemma foldl_entryStepF (es : list Entry) (acc : Acc) :
  foldl App1F.entryStep acc es =
  mkAcc (rectangles acc ++ imap (fun i e => App1F.entryZone (next_idx acc + i) e) es)
        (logoUploads acc
           ++ (imap (fun i (e : Entry) => uploadOf (next_idx acc + i) e.2) es ≫= option_list))
        (next_idx acc + length es).
Proof.
  revert acc. induction es as [|e es IH]; intros acc.
  - destruct acc; simpl. rewrite !app_nil_r, Nat.add_0_r. reflexivity.
  - cbn [foldl]. rewrite IH.
    assert (Hs : App1F.entryStep acc e =
                 mkAcc (rectangles acc ++ [App1F.entryZone (next_idx acc) e])
                       (logoUploads acc ++ option_list (uploadOf (next_idx acc) e.2))
                       (S (next_idx acc))) by apply rectStepF_closed.
    rewrite Hs. cbn [rectangles logoUploads next_idx].
    rewrite !imap_cons, bind_cons, Nat.add_0_r, <- !app_assoc.
    cbn [app length]. f_equal.
    + do 2 f_equal. apply imap_ext. intros i x _. simpl. f_equal. lia.
    + do 3 f_equal. apply imap_ext. intros i x _. simpl. f_equal. lia.
    + lia.
Qed.

Lemma foldl_pageStepF (doc : list PageGeom) (prs : gmap nat (list SavedRect))
    (ps : list nat) (acc : Acc) :
  (forall p, p ∈ ps -> is_Some (getPage doc p)) ->
  foldl (App1F.pageStep doc prs) (Some acc) ps =
  Some (foldl App1F.entryStep acc (ps ≫= pageEntries doc prs)).
Proof.
  revert acc. induction ps as [|p ps IH]; intros acc Hok; [reflexivity |].
  destruct (Hok p) as [g Hg]; [left |].
  cbn [foldl]. unfold App1F.pageStep at 2. rewrite Hg.
  rewrite IH by (intros q Hq; apply Hok; right; exact Hq).
  rewrite bind_cons, foldl_app. do 2 f_equal.
  unfold pageEntries. rewrite Hg.
  rewrite foldl_fmap. reflexivity.
Qed.

(** [buildPayloadAndLogos] returns, and what it returns is the closed
    form: zone [i] is the [i]-th stored rectangle in page order. *)
Lemma buildPayloadAndLogosF_closed (st : State) (doc : list PageGeom) :
  pdfDoc st = Some doc -> (numPages st <= length doc)%nat ->
  App1F.buildPayloadAndLogos st =
  Some (imap App1F.entryZone (entries doc (pageRects st) (numPages st)),
        imap (fun i (e : Entry) => uploadOf i e.2)
             (entries doc (pageRects st) (numPages st)) ≫= option_list).
Proof.
  intros Hdoc Hn. unfold App1F.buildPayloadAndLogos. rewrite Hdoc.
  rewrite foldl_pageStepF by (intros p Hp; eapply getPage_loaded; eassumption).
  rewrite foldl_entryStepF. reflexivity.
Qed.

Lemma zoneF_lookup (es : list Entry) (i : nat) (z : Zone) :
  imap App1F.entryZone es !! i = Some z <->
  exists e, es !! i = Some e /\ z = App1F.entryZone i e.
Proof.
  rewrite list_lookup_imap. destruct (es !! i) as [e|]; simpl; split.
  - intros [= <-]. eauto.
  - intros (e' & [= <-] & ->). reflexivity.
  - discriminate.
  - intros (e' & [=] & _).
Qed.

(** An emitted point is [fmt] of the rounded product: within half a
    hundredth of the exact product, up to the roundings. *)
Lemma point_nearProduct (n W : Q) :
  App1F.nearProduct (TransformF.fmt (F64.mul n W)) (n * W).
Proof.
  unfold App1F.nearProduct, F64.mul. destruct eta_bounds as [He0 He1].
  set (e := n * W). pose proof (Qabs_nonneg e) as HA.
  destruct (rnd_bounds e (Qabs e) (Qle_refl _)) as [Hv1 Hv2].
  assert (Hv : Qabs (F64.rnd e) <= Qabs e + (F64.u * Qabs e + F64.eta)).
  { pose proof (Qle_Qabs e). pose proof (Qle_Qabs (- e)) as Hm.
    rewrite Qabs_opp in Hm. apply Qabs_Qle_condition. unfold F64.u in *. split; lra. }
  destruct (fmtF_bounds (F64.rnd e) _ Hv) as [Hk Hf]. cbv zeta in Hk, Hf.
  set (k := inject_Z (Math_round (F64.mul (F64.rnd e) 100))) in *.
  apply Qabs_Qle_condition in Hk. apply Qabs_Qle_condition in Hf.
  unfold Qdiv in Hf. change (/ 100) with (1 # 100) in Hf.
  apply Qabs_Qle_condition. unfold F64.u in *. split; lra.
Qed.

Lemma points_nearProduct (n : NormRect) (W H : Q) :
  Forall2 App1F.nearProduct (App1F.points n W H) (App1F.products n W H).
Proof. repeat constructor; apply point_nearProduct. Qed.

(** C4.  As the code has it: for every state whose document has the pages
    the loop visits, [buildPayloadAndLogos] returns; the result does not
    depend on the zoom or on the size of the surface; each zone comes from a
    stored rectangle [r] of a page [p], and its [bbox_pts] is [fmt] of the
    normalized coordinates of [r] times the width and height of the page's
    viewport at scale 1, products and [fmt] evaluated in binary64: each
    value is within half a hundredth of the exact product, up to the
    roundings, and is not the product itself; every stored rectangle of a
    page of the document has such a zone.  In the 612 x 792 scenario at zoom
    1.5 the full surface gives [0, 0, 612, 792]. *)
Theorem buildPayloadAndLogos_bbox_pts :
  (forall (st : State) (doc : list PageGeom),
     pdfDoc st = Some doc -> (numPages st <= length doc)%nat ->
     exists zs us,
       App1F.buildPayloadAndLogos st = Some (zs, us) /\
       (forall z o,
          App1F.buildPayloadAndLogos (set_overlay o (set_zoom z st)) = Some (zs, us)) /\
       (forall i z, zs !! i = Some z ->
          exists p g r,
            (1 <= p <= numPages st)%nat /\ getPage doc p = Some g /\
            r ∈ default [] (pageRects st !! p) /\
            bbox_pts z = App1F.points (nr r) (getViewport g 1).1 (getViewport g 1).2 /\
            Forall2 App1F.nearProduct (bbox_pts z)
              (App1F.products (nr r) (getViewport g 1).1 (getViewport g 1).2)) /\
       (forall p g k r,
          (1 <= p <= numPages st)%nat -> getPage doc p = Some g ->
          default [] (pageRects st !! p) !! k = Some r ->
          exists z,
            zs !! (offset doc (pageRects st) p + k)%nat = Some z /\
            bbox_pts z = App1F.points (nr r) (getViewport g 1).1 (getViewport g 1).2)) /\
  (exists z,
     App1F.buildPayloadAndLogos
       (App1F.drag (0, 0) (918, 1188) (session (3 # 2) (918, 1188)))
     = Some ([z], []) /\
     bbox_pts z = [0; 0; 612; 792]).
Proof.
  split.
  - intros st doc Hdoc Hn.
    eexists _, _. split; [apply (buildPayloadAndLogosF_closed st doc Hdoc Hn) |].
    split; [| split].
    + intros z o. apply (buildPayloadAndLogosF_closed (set_overlay o (set_zoom z st)) doc Hdoc Hn).
    + intros i z Hz. apply zoneF_lookup in Hz as (e & He & ->).
      apply list_elem_of_lookup_2 in He. apply entries_elem in He as (Hp & Hg & Hr).
      exists e.1.1, e.1.2, e.2.
      split; [lia |]. split; [exact Hg |]. split; [exact Hr |].
      split; [reflexivity | apply points_nearProduct].
    + intros p g k r Hp Hg Hr.
      exists (App1F.entryZone (offset doc (pageRects st) p + k) (p, g, r)).
      split; [| reflexivity].
      apply zoneF_lookup. eexists. split; [| reflexivity].
      apply (entries_lookup doc (pageRects st) (numPages st) p k g r Hp Hg Hr).
  - eexists. split; vm_compute; reflexivity.
Qed.

End App1FFacts.

Lemma buildPayloadAndLogos_bbox_pts_witness :
  exists zs us,
    App1F.buildPayloadAndLogos
      (App1F.drag (0, 0)%Q (100, 100)%Q (App1.session 1 (700, 700)%Q)) = Some (zs, us) /\
    forall z o,
      App1F.buildPayloadAndLogos
        (App1.set_overlay o
           (App1.set_zoom z (App1F.drag (0, 0)%Q (100, 100)%Q (App1.session 1 (700, 700)%Q))))
      = Some (zs, us).
Proof.
  destruct (proj1 buildPayloadAndLogos_bbox_pts
              (App1F.drag (0, 0)%Q (100, 100)%Q (App1.session 1 (700, 700)%Q)) [App1.letter]
              eq_refl (le_n 1)) as (zs & us & Hb & Hz & _).
  exists zs, us. split; assumption.
Defined.

(** C4 as stated fails on the rounding: on a 700 x 700 surface the drag
    from (0,0) to (100,100) has [x2n] the double nearest to 1/7; the
    emitted [x2] is the double [87.43], which is neither the product of
    [x2n] and 612 nor that product rounded to a double
    ([87.42857142857143]). *)
Lemma bbox_pts_exact_product_counterexample :
  exists z n b,
    App1F.buildPayloadAndLogos
      (App1F.drag (0, 0)%Q (100, 100)%Q (App1.session 1 (700, 700)%Q))
    = Some ([z], []) /\
    App1.bbox_norm z !! 2%nat = Some n /\ App1.bbox_pts z !! 2%nat = Some b /\
    n = F64.rnd (1 # 7) /\ b = F64.rnd (8743 # 100) /\
    ~ (b == n * 612)%Q /\ ~ (b == F64.mul n 612)%Q.
Proof.
  eexists _, _, _. split; [vm_compute; reflexivity |].
  split; [reflexivity |]. split; [reflexivity |].
  split; [vm_compute; reflexivity |]. split; [vm_compute; reflexivity |].
  split; vm_compute; discriminate.
Qed.

(** ** Submission and rectangle list of [PDFSanitizerApp.jsx] *)

Section AppFacts.

Import Transform App.

Lemma zoneStep_closed (actions : gmap string Action) (acc : Submission) (r : Rect) :
  zoneStep actions acc r =
  mkSubmission
    (template_zones acc ++ [zoneOf r])
    (match assetOf actions r with
     | Some k => <[length (template_zones acc) := k]> (image_map acc)
     | None => image_map acc
     end)
    (manual_names acc)
    (warnings acc ++ (if unresolved actions r then [logoWarning] else [])).
Proof.
  unfold zoneStep, assetOf, unresolved.
  rewrite length_app. cbn [length].
  replace (length (template_zones acc) + 1 - 1)%nat
    with (length (template_zones acc)) by lia.
  destruct (actions !! id r) as [a|]; [| by rewrite app_nil_r].
  destruct (String.eqb (action a) "logo"); cbn [andb]; [| by rewrite app_nil_r].
  destruct (logoKey a) as [s|]; cbn [truthy]; [| reflexivity].
  destruct (nonEmpty s); cbn [negb default]; [by rewrite app_nil_r | reflexivity].
Qed.

(** What the loop of [runSanitization] has built after the rectangles [l]. *)
Lemma foldl_zoneStep (actions : gmap string Action) (erase : list string) (l : list Rect) :
  let sub := foldl (zoneStep actions) (mkSubmission [] ∅ erase []) l in
  template_zones sub = zoneOf <$> l /\
  (forall k, image_map sub !! k = l !! k ≫= assetOf actions) /\
  manual_names sub = erase /\
  warnings sub = (fun _ => logoWarning) <$> filter (fun r => unresolved actions r = true) l.
Proof.
  induction l as [|r l IH] using rev_ind.
  - cbn. repeat split.
  - cbv zeta in *. rewrite foldl_snoc, zoneStep_closed.
    destruct IH as (Hz & Hm & He & Hw).
    cbn [template_zones image_map manual_names warnings].
    rewrite Hz, He, Hw, length_fmap, fmap_app, filter_app, fmap_app.
    split; [reflexivity |]. split; [| split; [reflexivity |]].
    + intros k. destruct (decide (k = length l)) as [->|Hk].
      * rewrite list_lookup_middle by reflexivity. cbn [mbind option_bind].
        destruct (assetOf actions r) as [s|].
        -- apply lookup_insert_eq.
        -- rewrite Hm, lookup_ge_None_2 by lia. reflexivity.
      * assert (Hl : (l ++ [r]) !! k = l !! k).
        { destruct (decide (k < length l)%nat).
          - apply lookup_app_l; assumption.
          - rewrite !lookup_ge_None_2; [reflexivity | lia | rewrite length_app; simpl; lia]. }
        rewrite Hl, <- Hm.
        destruct (assetOf actions r); [apply lookup_insert_ne; congruence | reflexivity].
    + f_equal. rewrite filter_cons, filter_nil.
      destruct (unresolved actions r); [| destruct (decide _) as [E|_]; [discriminate | reflexivity]].
      destruct (decide _) as [_|N]; [reflexivity | contradiction].
Qed.

(** [runSanitization] returns whenever a file is selected. *)
Lemma runSanitization_Some (files : list File) (erase : list string) (st : State) :
  files <> [] ->
  runSanitization files erase st =
  Some (foldl (zoneStep (rectActions st)) (mkSubmission [] ∅ erase []) (rects st)).
Proof. destruct files; [contradiction | reflexivity]. Qed.

Lemma buildImageMapForTest_lookup (ids : list string) (actions : gmap string TestAction)
    (k : nat) :
  buildImageMapForTest ids actions !! k = ids !! k ≫= testAssetOf actions.
Proof.
  unfold buildImageMapForTest.
  match goal with |- context [foldl ?f _ _] => set (step := f) end.
  assert (H : (foldl step (∅, 0%nat) ids).2 = length ids /\
              forall k, (foldl step (∅, 0%nat) ids).1 !! k = ids !! k ≫= testAssetOf actions).
  { induction ids as [|rid ids [IHn IHm]] using rev_ind.
    - split; [reflexivity |]. intros j. cbn. apply lookup_empty.
    - rewrite foldl_snoc. set (acc := foldl step (∅, 0%nat) ids) in *.
      assert (Hs : step acc rid =
                   (match testAssetOf actions rid with
                    | Some v => <[acc.2 := v]> acc.1
                    | None => acc.1
                    end, S acc.2)).
      { unfold step, testAssetOf. destruct (actions !! rid) as [a|]; [| reflexivity].
        destruct (String.eqb (t_action a) "logo"); cbn [andb]; [| reflexivity].
        destruct (logoName a) as [s|]; cbn [truthy]; [| reflexivity].
        destruct (nonEmpty s); reflexivity. }
      rewrite Hs. cbn [fst snd]. rewrite IHn. split; [rewrite length_app; simpl; lia |].
      intros j. destruct (decide (j = length ids)) as [->|Hj].
      + rewrite list_lookup_middle by reflexivity. cbn [mbind option_bind].
        destruct (testAssetOf actions rid).
        * apply lookup_insert_eq.
        * rewrite IHm, lookup_ge_None_2 by lia. reflexivity.
      + assert (Hl : (ids ++ [rid]) !! j = ids !! j).
        { destruct (decide (j < length ids)%nat).
          - apply lookup_app_l; assumption.
          - rewrite !lookup_ge_None_2; [reflexivity | lia | rewrite length_app; simpl; lia]. }
        rewrite Hl, <- IHm.
        destruct (testAssetOf actions rid); [apply lookup_insert_ne; congruence | reflexivity]. }
  apply H.
Qed.

(** *** The rectangle list under the operations of the page *)

(** An operation does one of three things to [rects]: nothing, append one
    rectangle carrying the new identifier, or drop the rectangles carrying
    the removed identifier. *)
Lemma rects_apply (st : State) (op : Op) :
  rects (apply st op) = rects st \/
  (exists newId d, op = Confirm newId /\ draft st = Some d /\
                   rects (apply st op) = rects st ++ [newRect newId d st]) \/
  (exists i, op = Remove i /\
             rects (apply st op) = filter (fun r => id r <> i) (rects st)).
Proof.
  destruct op as [p|p| |newId| |i|i v|i e|i]; cbn [apply].
  - left. unfold onPointerDown. destruct (overlayRef st); reflexivity.
  - left. unfold onPointerMove. destruct (startRef st); [| reflexivity].
    destruct (drawingRef st && overlayRef st); reflexivity.
  - left. unfold onPointerUp. destruct (drawingRef st); [| reflexivity].
    destruct (draft st) as [d|]; [destruct (tooSmall d) |]; reflexivity.
  - unfold confirmDraft. destruct (draft st) as [d|] eqn:Hd; [| left; reflexivity].
    destruct (overlayRef st); [| left; reflexivity].
    right. left. exists newId, d. auto.
  - left. reflexivity.
  - right. right. exists i. auto.
  - left. reflexivity.
  - left. destruct e; reflexivity.
  - left. reflexivity.
Qed.

Lemma before_app (a b : Rect) (l k : list Rect) : before a b l -> before a b (l ++ k).
Proof.
  intros (l1 & l2 & l3 & ->). exists l1, l2, (l3 ++ k).
  rewrite <- !app_assoc. cbn [app]. rewrite <- !app_assoc. reflexivity.
Qed.

Lemma before_snoc (a b : Rect) (l : list Rect) : a ∈ l -> before a b (l ++ [b]).
Proof.
  intros Ha. apply list_elem_of_split in Ha as (l1 & l2 & ->).
  exists l1, l2, []. rewrite <- app_assoc. reflexivity.
Qed.

Lemma before_filter (P : Rect -> Prop) `{forall r, Decision (P r)} (a b : Rect)
    (l : list Rect) :
  P a -> P b -> before a b l -> before a b (filter P l).
Proof.
  intros Pa Pb (l1 & l2 & l3 & ->).
  exists (filter P l1), (filter P l2), (filter P l3).
  rewrite filter_app, filter_cons_True by exact Pa.
  rewrite filter_app, filter_cons_True by exact Pb. reflexivity.
Qed.

Lemma before_lookup (a b : Rect) (l : list Rect) :
  before a b l -> exists i j, (i < j)%nat /\ l !! i = Some a /\ l !! j = Some b.
Proof.
  intros (l1 & l2 & l3 & ->).
  exists (length l1), (length l1 + S (length l2))%nat. split; [lia |]. split.
  - apply list_lookup_middle. reflexivity.
  - rewrite lookup_app_r by lia. replace (_ + _ - _)%nat with (S (length l2)) by lia.
    cbn [lookup list_lookup]. apply list_lookup_middle. reflexivity.
Qed.

(** Two rectangles keep their order under every operation that removes
    neither of them. *)
Lemma before_apply (a b : Rect) (st : State) (op : Op) :
  op <> Remove (id a) -> op <> Remove (id b) ->
  before a b (rects st) -> before a b (rects (apply st op)).
Proof.
  intros Ha Hb Hbef.
  destruct (rects_apply st op) as [->|[(newId & d & _ & _ & ->)|(i & -> & ->)]].
  - exact Hbef.
  - apply before_app, Hbef.
  - apply before_filter; [congruence | congruence | exact Hbef].
Qed.

Lemma before_run (a b : Rect) (ops : list Op) (st : State) :
  Remove (id a) ∉ ops -> Remove (id b) ∉ ops ->
  before a b (rects st) -> before a b (rects (run ops st)).
Proof.
  revert st. induction ops as [|op ops IH]; intros st Ha Hb Hbef; [exact Hbef |].
  apply not_elem_of_cons in Ha as [Ha1 Ha2]. apply not_elem_of_cons in Hb as [Hb1 Hb2].
  cbn. apply IH; [exact Ha2 | exact Hb2 |].
  apply before_apply; [congruence | congruence | exact Hbef].
Qed.

Lemma elem_of_rects_apply (a : Rect) (st : State) (op : Op) :
  op <> Remove (id a) -> a ∈ rects st -> a ∈ rects (apply st op).
Proof.
  intros Ha Hin.
  destruct (rects_apply st op) as [->|[(newId & d & _ & _ & ->)|(i & -> & ->)]].
  - exact Hin.
  - apply elem_of_app. left. exact Hin.
  - apply list_elem_of_filter. split; [congruence | exact Hin].
Qed.

Lemma elem_of_rects_run (a : Rect) (ops : list Op) (st : State) :
  Remove (id a) ∉ ops -> a ∈ rects st -> a ∈ rects (run ops st).
Proof.
  revert st. induction ops as [|op ops IH]; intros st Ha Hin; [exact Hin |].
  apply not_elem_of_cons in Ha as [Ha1 Ha2].
  cbn. apply IH; [exact Ha2 |]. apply elem_of_rects_apply; [congruence | exact Hin].
Qed.

Lemma rects_confirmDraft (newId : string) (d : Draft) (st : State) :
  draft st = Some d -> overlayRef st = true ->
  rects (confirmDraft newId st) = rects st ++ [newRect newId d st].
Proof. intros Hd Ho. unfold confirmDraft. rewrite Hd, Ho. reflexivity. Qed.

(** *** Release of a degenerate draft *)

Lemma tooSmall_zero (d : Draft) : (dw d == 0 \/ dh d == 0)%Q -> tooSmall d = true.
Proof.
  intros Hz. unfold tooSmall.
  destruct (Qlt_le_dec (dw d) 4) as [|Hw]; [reflexivity |].
  destruct (Qlt_le_dec (dh d) 4) as [|Hh]; [reflexivity |].
  exfalso. destruct Hz as [Hz|Hz]; rewrite Hz in *; [apply Hw | apply Hh]; reflexivity.
Qed.

Lemma onPointerUp_discards (st : State) (d : Draft) :
  drawingRef st = true -> draft st = Some d -> (dw d == 0 \/ dh d == 0)%Q ->
  draft (onPointerUp st) = None /\ confirmUI (onPointerUp st) = None /\
  rects (onPointerUp st) = rects st /\
  forall newId, rects (confirmDraft newId (onPointerUp st)) = rects st.
Proof.
  intros Hdr Hd Hz. unfold onPointerUp. rewrite Hdr, Hd.
  rewrite (tooSmall_zero d Hz). cbn. auto.
Qed.

(** *** Switching the action of a rectangle away from [logo] *)

Lemma onActionChange_clears (i v : string) (st : State) :
  v <> "logo" ->
  rectActions (onActionChange i v st) !! i = Some (mkAction "redact" None None).
Proof.
  intros Hv. unfold onActionChange. cbn [rectActions set_rectActions].
  destruct (String.eqb_spec v "logo") as [E|_]; [contradiction |].
  cbn. apply lookup_insert_eq.
Qed.

Lemma onActionChange_no_asset (i v : string) (st : State) (files : list File)
    (erase : list string) :
  v <> "logo" -> files <> [] ->
  exists sub,
    runSanitization files erase (onActionChange i v st) = Some sub /\
    forall k r, rects st !! k = Some r -> id r = i ->
      template_zones sub !! k = Some (zoneOf r) /\ image_map sub !! k = None.
Proof.
  intros Hv Hf. eexists. split; [apply runSanitization_Some, Hf |].
  intros k r Hr Hid.
  destruct (foldl_zoneStep (rectActions (onActionChange i v st)) erase
              (rects (onActionChange i v st))) as (Hz & Hm & _ & _).
  change (rects (onActionChange i v st)) with (rects st) in *.
  split.
  - rewrite Hz, list_lookup_fmap, Hr. reflexivity.
  - rewrite Hm, Hr. cbn [mbind option_bind]. unfold assetOf.
    rewrite Hid, (onActionChange_clears i v st Hv). reflexivity.
Qed.

End AppFacts.

(** ** The erase-term parser of [PDFSanitizerApp.jsx] *)

Section EraseFacts.

Import App.

(** The built-in [toLowerCase]; nothing is assumed of it. *)
Variable toLowerCase : string -> string.

Lemma filter_swap (P Q : string -> Prop) `{!forall x, Decision (P x)}
    `{!forall x, Decision (Q x)} (l : list string) :
  filter P (filter Q l) = filter Q (filter P l).
Proof. rewrite !list_filter_filter. apply list_filter_iff. tauto. Qed.

Lemma filter_all (P : string -> Prop) `{!forall x, Decision (P x)} (l : list string) :
  (forall x, P x) -> filter P l = l.
Proof.
  intros HP. induction l as [|x l IH]; [reflexivity |].
  rewrite filter_cons_True by apply HP. f_equal. exact IH.
Qed.

(** A filter that looks at the key only commutes with [keepFirst]. *)
Lemma keepFirst_filter (P : string -> Prop) `{!forall x, Decision (P x)}
    (l : list string) :
  (forall u v, toLowerCase u = toLowerCase v -> P u -> P v) ->
  filter P (keepFirst toLowerCase l) = keepFirst toLowerCase (filter P l).
Proof.
  intros Hkey. induction l as [|t l IH]; [reflexivity |].
  cbn [keepFirst]. rewrite !filter_cons. destruct (decide (P t)) as [Pt|NPt].
  - cbn [keepFirst]. f_equal. rewrite filter_swap, IH. reflexivity.
  - rewrite <- IH. rewrite list_filter_filter. apply list_filter_iff.
    intros u. split; [tauto |]. intros Pu. split; [exact Pu |].
    intros E. apply NPt. exact (Hkey u t E Pu).
Qed.

(** The loop of [parseEraseCSV] from any intermediate [seen] and [out]. *)
Lemma foldl_eraseStep (l : list string) (seen : gset string) (out : list string) :
  (foldl (eraseStep toLowerCase) (seen, out) l).2 =
  out ++ keepFirst toLowerCase (filter (fun t => toLowerCase t ∉ seen) l).
Proof.
  revert seen out. induction l as [|t l IH]; intros seen out.
  - cbn. rewrite app_nil_r. reflexivity.
  - cbn [foldl]. unfold eraseStep at 2. cbn [fst snd].
    rewrite filter_cons. destruct (decide (toLowerCase t ∉ seen)) as [Hn|Hi].
    + rewrite bool_decide_eq_false_2 by exact Hn. rewrite IH.
      cbn [keepFirst]. rewrite <- app_assoc. cbn [app]. do 2 f_equal.
      rewrite keepFirst_filter by (intros u v E Hu; congruence).
      rewrite list_filter_filter. f_equal. apply list_filter_iff.
      intros u. rewrite not_elem_of_union, not_elem_of_singleton. tauto.
    + rewrite bool_decide_eq_true_2 by (destruct (decide (toLowerCase t ∈ seen)); tauto).
      apply IH.
Qed.

Lemma nonEmpty_false (s : string) : nonEmpty s = false -> s = EmptyString.
Proof. destruct s; [reflexivity | discriminate]. Qed.

(** [parseEraseCSV] is "keep the first occurrence" applied to the trimmed,
    non-empty pieces. *)
Lemma parseEraseCSV_keepFirst (input : option string) :
  parseEraseCSV toLowerCase input =
  keepFirst toLowerCase (eraseTerms (trim (default EmptyString input))).
Proof.
  unfold parseEraseCSV. destruct (nonEmpty _) eqn:Hne.
  - rewrite foldl_eraseStep. cbn [app].
    rewrite filter_all by (intros t; apply not_elem_of_empty). reflexivity.
  - apply nonEmpty_false in Hne. rewrite Hne. reflexivity.
Qed.

Lemma keepFirst_sublist (l : list string) : keepFirst toLowerCase l `sublist_of` l.
Proof.
  induction l as [|t l IH]; [constructor |].
  cbn [keepFirst]. apply sublist_skip. etransitivity; [apply sublist_filter | exact IH].
Qed.

Lemma keepFirst_NoDup (l : list string) : NoDup (toLowerCase <$> keepFirst toLowerCase l).
Proof.
  induction l as [|t l IH]; [constructor |].
  cbn [keepFirst]. rewrite fmap_cons. apply NoDup_cons. split.
  - intros Hin. apply list_elem_of_fmap in Hin as (u & Eu & Hu).
    apply list_elem_of_filter in Hu as [Hne _]. congruence.
  - eapply sublist_NoDup; [exact IH |]. apply fmap_sublist, sublist_filter.
Qed.

(** Every term is represented, and by its first occurrence: the kept term
    with its key has no term with that key before it. *)
Lemma keepFirst_first (l : list string) (u : string) :
  u ∈ keepFirst toLowerCase l ->
  exists l1 l2, l = l1 ++ u :: l2 /\ forall t, t ∈ l1 -> toLowerCase t <> toLowerCase u.
Proof.
  induction l as [|t l IH]; [intros H; by apply elem_of_nil in H |].
  cbn [keepFirst]. intros Hu. apply elem_of_cons in Hu as [->|Hu].
  - exists [], l. split; [reflexivity |]. intros t' Ht'. by apply elem_of_nil in Ht'.
  - apply list_elem_of_filter in Hu as [Hne Hu].
    destruct (IH Hu) as (l1 & l2 & -> & Hl1).
    exists (t :: l1), l2. split; [reflexivity |].
    intros t' Ht'. apply elem_of_cons in Ht' as [->|Ht']; [congruence | exact (Hl1 t' Ht')].
Qed.

Lemma keepFirst_covers (l : list string) (t : string) :
  t ∈ l -> exists u, u ∈ keepFirst toLowerCase l /\ toLowerCase u = toLowerCase t.
Proof.
  induction l as [|t0 l IH]; [intros H; by apply elem_of_nil in H |].
  intros Ht. cbn [keepFirst]. apply elem_of_cons in Ht as [->|Ht].
  - exists t0. split; [left | reflexivity].
  - destruct (IH Ht) as (u & Hu & Eu).
    destruct (decide (toLowerCase u = toLowerCase t0)) as [E|N].
    + exists t0. split; [left | congruence].
    + exists u. split; [| exact Eu]. right. apply list_elem_of_filter. auto.
Qed.

(** *** The pieces: trimmed, non-empty, free of separators *)

Lemma trimStart_fixed (s : string) : trimStart (trimStart s) = trimStart s.
Proof.
  induction s as [|c s IH]; [reflexivity |].
  cbn [trimStart]. destruct (isWhiteSpace c) eqn:Hc; [exact IH |].
  cbn [trimStart]. rewrite Hc. reflexivity.
Qed.

Lemma trimEnd_cons (c : ascii) (s : string) :
  trimEnd s <> EmptyString -> trimEnd (String c s) = String c (trimEnd s).
Proof. cbn [trimEnd]. destruct (trimEnd s); [contradiction | reflexivity]. Qed.

Lemma trimEnd_fixed (s : string) : trimEnd (trimEnd s) = trimEnd s.
Proof.
  induction s as [|c s IH]; [reflexivity |].
  cbn [trimEnd]. destruct (trimEnd s) as [|c' t] eqn:Ht.
  - destruct (isWhiteSpace c) eqn:Hc; [reflexivity |].
    cbn [trimEnd]. rewrite Hc. reflexivity.
  - rewrite trimEnd_cons; rewrite IH; [reflexivity | discriminate].
Qed.

(** [trimEnd] keeps a first character that is not white space. *)
Lemma trimStart_trimEnd (s : string) : trimStart s = s -> trimStart (trimEnd s) = trimEnd s.
Proof.
  destruct s as [|c s]; [reflexivity |].
  cbn [trimStart]. destruct (isWhiteSpace c) eqn:Hc.
  - intros E. exfalso. assert (Hlen : String.length (trimStart s) = S (String.length s))
      by (rewrite E; reflexivity).
    clear E Hc. assert (Hle : (String.length (trimStart s) <= String.length s)%nat).
    { clear Hlen. induction s as [|c' s IH]; [reflexivity |].
      cbn [trimStart]. destruct (isWhiteSpace c'); cbn [String.length]; lia. }
    lia.
  - intros _. cbn [trimEnd].
    destruct (trimEnd s); rewrite ?Hc; cbn [trimStart]; rewrite Hc; reflexivity.
Qed.

Lemma trim_fixed (s : string) : trim (trim s) = trim s.
Proof.
  unfold trim.
  rewrite (trimStart_trimEnd (trimStart s)) by apply trimStart_fixed.
  apply trimEnd_fixed.
Qed.

Lemma chars_trimStart (s : string) : chars (trimStart s) `sublist_of` chars s.
Proof.
  induction s as [|c s IH]; [constructor |].
  cbn [trimStart]. destruct (isWhiteSpace c); [| reflexivity].
  cbn [chars]. apply sublist_cons, IH.
Qed.

Lemma chars_trimEnd (s : string) : chars (trimEnd s) `sublist_of` chars s.
Proof.
  induction s as [|c s IH]; [constructor |].
  cbn [trimEnd]. destruct (trimEnd s) as [|c' t].
  - destruct (isWhiteSpace c); cbn [chars]; [apply sublist_nil_l |].
    apply sublist_skip, sublist_nil_l.
  - cbn [chars] in *. apply sublist_skip, IH.
Qed.

Lemma chars_trim (s : string) : chars (trim s) `sublist_of` chars s.
Proof. unfold trim. etransitivity; [apply chars_trimEnd | apply chars_trimStart]. Qed.

Lemma split_no_separator (s p : string) :
  p ∈ split s -> Forall (fun c => isSeparator c = false) (chars p).
Proof.
  revert p. induction s as [|c s IH]; intros p Hp.
  - cbn in Hp. apply list_elem_of_singleton in Hp as ->. constructor.
  - cbn [split] in Hp. destruct (isSeparator c) eqn:Hc.
    + apply elem_of_cons in Hp as [->|Hp]; [constructor | exact (IH p Hp)].
    + destruct (split s) as [|q qs].
      * apply list_elem_of_singleton in Hp as ->. repeat constructor. exact Hc.
      * apply elem_of_cons in Hp as [->|Hp].
        -- cbn [chars]. constructor; [exact Hc | apply IH; left].
        -- apply IH. right. exact Hp.
Qed.

(** Nothing but the separators is lost by [split]. *)
Lemma split_concat (s : string) :
  mjoin (chars <$> split s) = filter (fun c => isSeparator c = false) (chars s).
Proof.
  induction s as [|c s IH]; [reflexivity |].
  cbn [split chars]. rewrite filter_cons. destruct (isSeparator c) eqn:Hc.
  - destruct (decide (true = false)) as [E|_]; [discriminate |]. exact IH.
  - destruct (decide (false = false)) as [_|N]; [| contradiction].
    destruct (split s) as [|q qs]; cbn in *; rewrite <- IH; reflexivity.
Qed.

Lemma eraseTerms_elem (s t : string) :
  t ∈ eraseTerms s ->
  nonEmpty t = true /\ trim t = t /\ Forall (fun c => isSeparator c = false) (chars t).
Proof.
  unfold eraseTerms. intros Ht. apply list_elem_of_filter in Ht as [Hne Ht].
  apply list_elem_of_fmap in Ht as (p & -> & Hp).
  split; [exact Hne |]. split; [apply trim_fixed |].
  apply Forall_forall. intros c Hc.
  apply (proj1 (Forall_forall _ _) (split_no_separator s p Hp)).
  exact (elem_of_sublist _ _ _ Hc (chars_trim p)).
Qed.

(** C10. For every input, [parseEraseCSV] splits on commas and newlines,
    trims the pieces, drops the empty ones and keeps the first occurrence of
    each term up to case: the result is [keepFirst] of the trimmed non-empty
    pieces; it is a subsequence of them, so order and casing are those of
    the input; no two results have the same lower-case form; every piece is
    represented by the first piece with its lower-case form; and every
    result is non-empty, trimmed and free of commas and newlines. *)
Theorem parseEraseCSV_first_occurrence (input : option string) :
  parseEraseCSV toLowerCase input
  = keepFirst toLowerCase (eraseTerms (trim (default EmptyString input))) /\
  parseEraseCSV toLowerCase input
    `sublist_of` eraseTerms (trim (default EmptyString input)) /\
  NoDup (toLowerCase <$> parseEraseCSV toLowerCase input) /\
  (forall t, t ∈ eraseTerms (trim (default EmptyString input)) ->
     exists u, u ∈ parseEraseCSV toLowerCase input /\ toLowerCase u = toLowerCase t) /\
  (forall u, u ∈ parseEraseCSV toLowerCase input ->
     exists l1 l2,
       eraseTerms (trim (default EmptyString input)) = l1 ++ u :: l2 /\
       forall t, t ∈ l1 -> toLowerCase t <> toLowerCase u) /\
  (forall t, t ∈ parseEraseCSV toLowerCase input ->
     nonEmpty t = true /\ trim t = t /\
     Forall (fun c => isSeparator c = false) (chars t)).
Proof.
  rewrite parseEraseCSV_keepFirst.
  split; [reflexivity |]. split; [apply keepFirst_sublist |].
  split; [apply keepFirst_NoDup |]. split; [apply keepFirst_covers |].
  split; [apply keepFirst_first |].
  intros t Ht. apply (eraseTerms_elem (trim (default EmptyString input))).
  exact (elem_of_sublist _ _ _ Ht (keepFirst_sublist _)).
Qed.

End EraseFacts.

(** The input of the self-test, [foo, bar\nbaz, Foo]: three terms, the
    second spelling of the first one dropped. *)
Example parseEraseCSV_self_test :
  App.parseEraseCSV App.lowerASCII (Some ("foo, bar" +:+ String "010" "baz, Foo"))
  = ["foo"; "bar"; "baz"].
Proof. vm_compute. reflexivity. Qed.

Lemma parseEraseCSV_first_occurrence_witness :
  exists u,
    u ∈ App.parseEraseCSV App.lowerASCII (Some ("foo, bar" +:+ String "010" "baz, Foo")) /\
    App.lowerASCII u = App.lowerASCII "Foo".
Proof.
  apply (proj1 (proj2 (proj2 (proj2
           (parseEraseCSV_first_occurrence App.lowerASCII
              (Some ("foo, bar" +:+ String "010" "baz, Foo"))))))).
  vm_compute. do 3 right. left.
Defined.

(** ** The store across the two variants *)

Section StoreClaims.

Import Transform.
Local Open Scope Q_scope.

(** C5. A release whose pixel rectangle has width 0 or height 0, or whose
    normalized width or height is exactly 0, commits nothing.  In
    [PDFSanitizerApp1.jsx] [handlePointerUp] leaves [pageRects] as it is, so
    the count of every page is unchanged.  In [PDFSanitizerApp.jsx]
    [onPointerUp] drops such a draft together with the confirm control, and
    a [confirmDraft] after it adds nothing to [rects].  But [confirmDraft]
    itself does not look at the size of the draft: a press sets the draft
    to a rectangle of width 0 and height 0 and leaves the confirm control
    of an earlier drag where it is, and a Confirm before the release stores
    that rectangle.  After a drag, a second press and Confirm, [rects]
    holds a rectangle of width 0 and height 0 and [runSanitization] sends
    the zone [[200, 200, 200, 200]]. *)
Theorem zero_area_committed_by_confirm :
  (forall st : App1.State,
     ((App1.startPos st).1 == (App1.currentPos st).1 \/
      (App1.startPos st).2 == (App1.currentPos st).2 \/
      exists W H,
        App1.overlay st = Some (W, H) /\
        let n := normalizeRect (mkPx (App1.startPos st).1 (App1.startPos st).2
                                     (App1.currentPos st).1 (App1.currentPos st).2) W H in
        x1n n == x2n n \/ y1n n == y2n n) ->
     App1.pageRects (App1.handlePointerUp st) = App1.pageRects st /\
     forall p,
       length (default [] (App1.pageRects (App1.handlePointerUp st) !! p))
       = length (default [] (App1.pageRects st !! p))) /\
  (forall (st : App.State) (d : App.Draft),
     App.drawingRef st = true -> App.draft st = Some d ->
     (App.dw d == 0 \/ App.dh d == 0) ->
     App.draft (App.onPointerUp st) = None /\
     App.confirmUI (App.onPointerUp st) = None /\
     App.rects (App.onPointerUp st) = App.rects st /\
     forall newId, App.rects (App.confirmDraft newId (App.onPointerUp st)) = App.rects st) /\
  (forall (st : App.State) (p : Q * Q) (newId : string),
     App.overlayRef st = true ->
     App.confirmUI (App.onPointerDown p st) = App.confirmUI st /\
     App.draft (App.onPointerDown p st) = Some (App.mkDraft p.1 p.2 0 0) /\
     exists r,
       App.rects (App.confirmDraft newId (App.onPointerDown p st)) = App.rects st ++ [r] /\
       App.id r = newId /\ App.w r = 0%Z /\ App.h r = 0%Z /\
       length (App.rects (App.confirmDraft newId (App.onPointerDown p st)))
       = S (length (App.rects st))) /\
  (App.confirmUI AppMore.pressedAgain <> None /\
   App.draft AppMore.pressedAgain = Some (App.mkDraft 200 200 0 0) /\
   App.rects AppMore.pressedAgain = [] /\
   App.rects (App.confirmDraft "z" AppMore.pressedAgain)
   = [App.mkRect "z" 200 200 0 0 0 0 "A4" "H"] /\
   App.template_zones
     <$> App.runSanitization ["drawing.pdf"] [] (App.confirmDraft "z" AppMore.pressedAgain)
   = Some [App.mkZone 0 [200; 200; 200; 200]%Z "A4" "H" 0]).
Proof.
  split; [| split; [| split]].
  - intros st Hz.
    assert (E : App1.pageRects (App1.handlePointerUp st) = App1.pageRects st).
    { destruct Hz as [Hz|[Hz|(W & H & Ho & Hz)]].
      - apply handlePointerUp_zero_px. left. exact Hz.
      - apply handlePointerUp_zero_px. right. exact Hz.
      - apply (handlePointerUp_reject st W H Ho Hz). }
    split; [exact E |]. intros p. rewrite E. reflexivity.
  - intros st d. apply onPointerUp_discards.
  - intros st p newId Ho. unfold App.onPointerDown. rewrite Ho. cbn [negb].
    split; [reflexivity |]. split; [reflexivity |].
    unfold App.confirmDraft. cbn [App.draft App.overlayRef negb App.rects]. eexists. split; [reflexivity |].
    split; [reflexivity |]. split; [reflexivity |]. split; [reflexivity |].
    rewrite length_app. cbn [length]. lia.
  - split; [vm_compute; discriminate |]. repeat split; vm_compute; reflexivity.
Qed.

(** C7. Whenever a file is selected [runSanitization] builds the
    submission, whatever the rectangles and their actions.  Every rectangle
    has its zone; a [logo] rectangle whose [logoKey] is missing or empty has
    its zone at its own index, no entry under that index in [image_map], and
    one [console.warn] line each.  [buildImageMapForTest] leaves such a
    rectangle out of the map in the same way. *)
Theorem unresolved_logo_kept_and_warned :
  (forall (files : list App.File) (erase : list string) (st : App.State),
     files <> [] ->
     exists sub,
       App.runSanitization files erase st = Some sub /\
       length (App.template_zones sub) = length (App.rects st) /\
       length (App.warnings sub)
       = length (filter (fun r => App.unresolved (App.rectActions st) r = true)
                        (App.rects st)) /\
       forall i r a,
         App.rects st !! i = Some r ->
         App.rectActions st !! App.id r = Some a ->
         App.action a = "logo" -> App.truthy (App.logoKey a) = false ->
         App.template_zones sub !! i = Some (App.zoneOf r) /\
         App.image_map sub !! i = None /\
         App.logoWarning ∈ App.warnings sub) /\
  (forall (ids : list string) (actions : gmap string App.TestAction) i rid a,
     ids !! i = Some rid -> actions !! rid = Some a ->
     App.t_action a = "logo" -> App.truthy (App.logoName a) = false ->
     App.buildImageMapForTest ids actions !! i = None).
Proof.
  split.
  - intros files erase st Hf.
    eexists. split; [apply runSanitization_Some, Hf |].
    destruct (foldl_zoneStep (App.rectActions st) erase (App.rects st))
      as (Hz & Hm & _ & Hw).
    split; [rewrite Hz; apply length_fmap |].
    split; [rewrite Hw; apply length_fmap |].
    intros i r a Hr Ha Hlogo Hkey.
    assert (Hun : App.unresolved (App.rectActions st) r = true).
    { unfold App.unresolved. rewrite Ha, Hlogo, Hkey. reflexivity. }
    split; [| split].
    + rewrite Hz, list_lookup_fmap, Hr. reflexivity.
    + rewrite Hm, Hr. cbn [mbind option_bind]. unfold App.assetOf.
      rewrite Ha, Hlogo, Hkey. reflexivity.
    + rewrite Hw. apply list_elem_of_fmap. exists r. split; [reflexivity |].
      apply list_elem_of_filter. split; [exact Hun |].
      eapply list_elem_of_lookup_2, Hr.
  - intros ids actions i rid a Hi Ha Hlogo Hname.
    rewrite buildImageMapForTest_lookup, Hi. cbn [mbind option_bind].
    unfold App.testAssetOf. rewrite Ha, Hlogo, Hname. reflexivity.
Qed.

Lemma unresolved_logo_kept_and_warned_witness :
  exists sub,
    App.runSanitization ["template.pdf"] [] App.twoRects = Some sub /\
    length (App.template_zones sub) = length (App.rects App.twoRects) /\
    length (App.warnings sub)
    = length (filter (fun r => App.unresolved (App.rectActions App.twoRects) r = true)
                     (App.rects App.twoRects)).
Proof.
  destruct (proj1 unresolved_logo_kept_and_warned ["template.pdf"] [] App.twoRects)
    as (sub & Hs & Hz & Hw & _); [discriminate |].
  exists sub. split; [exact Hs |]. split; [exact Hz | exact Hw].
Defined.

(** In that session the first rectangle is the unresolved one: two zones,
    one key (that of the second zone), one warning. *)
Example runSanitization_twoRects :
  exists sub,
    App.runSanitization ["template.pdf"] [] App.twoRects = Some sub /\
    length (App.template_zones sub) = 2%nat /\
    App.image_map sub !! 0%nat = None /\
    App.image_map sub !! 1%nat = Some "logos/logo.png" /\
    App.warnings sub = [App.logoWarning].
Proof. eexists. split; [vm_compute; reflexivity |]. repeat split. Qed.

(** The self-test of the source on [buildImageMapForTest]. *)
Example buildImageMapForTest_self_test :
  size (App.buildImageMapForTest ["1"; "2"]
          (<["1" := App.mkTestAction "logo" (Some "L1")]>
             (<["2" := App.mkTestAction "redact" None]> ∅))) = 1%nat.
Proof. vm_compute. reflexivity. Qed.

(** C8. Setting the kind of a rectangle to anything but [logo] clears its
    asset.  In [PDFSanitizerApp1.jsx] [updateRectKind] stores the rectangle
    with no [logoFile]; a build after it still emits the zone and has no
    upload and no image-map key for the index of that zone.  In
    [PDFSanitizerApp.jsx] the Action select stores [{ action: "redact" }]
    with neither file nor key; [runSanitization] after it has no
    [image_map] entry at the index of a rectangle with that identifier. *)
Theorem kind_away_from_logo_clears_asset :
  (forall (idx : nat) (kind : string) (st : App1.State) (r : App1.SavedRect),
     kind <> "logo" -> App1.rectsForPage st !! idx = Some r ->
     App1.rectsForPage (App1.updateRectKind idx kind st) !! idx
     = Some (App1.mkRect (App1.nr r) kind None) /\
     forall doc,
       App1.pdfDoc st = Some doc -> (App1.numPages st <= length doc)%nat ->
       (1 <= App1.pageNumber st <= App1.numPages st)%nat ->
       exists zs us g,
         App1.buildPayloadAndLogos (App1.updateRectKind idx kind st) = Some (zs, us) /\
         App1.getPage doc (App1.pageNumber st) = Some g /\
         let i := (App1.offset doc (App1.pageRects (App1.updateRectKind idx kind st))
                     (App1.pageNumber st) + idx)%nat in
         zs !! i = Some (App1.zoneOf (App1.pageNumber st) g i
                           (App1.mkRect (App1.nr r) kind None)) /\
         (forall u, u ∈ us -> App1.u_rect_idx u <> i) /\
         App1.image_map us !! i = None) /\
  (forall (i v : string) (st : App.State),
     v <> "logo" ->
     App.rectActions (App.onActionChange i v st) !! i
     = Some (App.mkAction "redact" None None) /\
     forall (files : list App.File) (erase : list string),
       files <> [] ->
       exists sub,
         App.runSanitization files erase (App.onActionChange i v st) = Some sub /\
         forall k r, App.rects st !! k = Some r -> App.id r = i ->
           App.template_zones sub !! k = Some (App.zoneOf r) /\
           App.image_map sub !! k = None).
Proof.
  split.
  - intros idx kind st r Hk Hr. split; [exact (updateRectKind_clears idx kind st r Hk Hr) |].
    intros doc Hdoc Hn Hp. exact (updateRectKind_no_upload idx kind st r doc Hk Hr Hdoc Hn Hp).
  - intros i v st Hv. split; [exact (onActionChange_clears i v st Hv) |].
    intros files erase Hf. exact (onActionChange_no_asset i v st files erase Hv Hf).
Qed.

(** [setKind(id,'logo'); attachAsset(id,X); setKind(id,'redact')] on a
    rectangle just drawn. *)
Lemma kind_away_from_logo_clears_asset_witness :
  App1.logoFile
    <$> App1.rectsForPage
          (App1.updateRectKind 0 "redact"
             (App1.setRectLogoFile 0 (Some "X.png")
                (App1.updateRectKind 0 "logo"
                   (App1.drag (10, 10) (110, 60) (App1.session 1 (800, 600)))))) !! 0%nat
  = Some None.
Proof.
  destruct (proj1 kind_away_from_logo_clears_asset 0%nat "redact"
              (App1.setRectLogoFile 0 (Some "X.png")
                 (App1.updateRectKind 0 "logo"
                    (App1.drag (10, 10) (110, 60) (App1.session 1 (800, 600)))))
              (App1.mkRect (normalizeRect (mkPx 10 10 110 60) 800 600) "logo" (Some "X.png")))
    as [H _]; [discriminate | reflexivity |].
  rewrite H. reflexivity.
Defined.

(** After that sequence the build has the zone and no upload. *)
Example buildPayloadAndLogos_after_redact :
  exists z,
    App1.buildPayloadAndLogos
      (App1.updateRectKind 0 "redact"
         (App1.setRectLogoFile 0 (Some "X.png")
            (App1.updateRectKind 0 "logo"
               (App1.drag (10, 10) (110, 60) (App1.session 1 (800, 600))))))
    = Some ([z], []) /\ App1.zkind z = "redact".
Proof. eexists. split; [vm_compute; reflexivity | reflexivity]. Qed.

End StoreClaims.

(** ** Order of the zones across a session *)

Section OrderClaims.

Import Transform.
Local Open Scope Q_scope.

(** *** Following a rectangle of [PDFSanitizerApp1.jsx] *)

Lemma pageRects_handlePointerUp (st : App1.State) (p : nat) :
  default [] (App1.pageRects (App1.handlePointerUp st) !! p)
  = default [] (App1.pageRects st !! p) \/
  exists n, p = App1.pageNumber st /\
    default [] (App1.pageRects (App1.handlePointerUp st) !! p)
    = default [] (App1.pageRects st !! p) ++ [App1.mkRect n "redact" None].
Proof.
  destruct st as [fs ai pd np pn z ov dr sp cp prs].
  unfold App1.handlePointerUp.
  cbn [App1.isDrawing App1.set_drag App1.overlay App1.startPos App1.currentPos
       App1.pageNumber App1.pageRects].
  destruct dr; [| left; reflexivity]. cbn [negb].
  destruct (Qeq_bool _ 0 || Qeq_bool _ 0); [left; reflexivity |].
  match goal with |- context [if ?c then _ else _] => destruct c end;
    [| left; reflexivity].
  cbn [App1.pageRects App1.pageNumber App1.set_pageRects]. unfold App1.pushRect.
  destruct (decide (pn = p)) as [->|Hne].
  - right. eexists. split; [reflexivity |]. rewrite lookup_insert_eq. reflexivity.
  - left. rewrite lookup_insert_ne by exact Hne. reflexivity.
Qed.

(** A rectangle that [track] follows is found at its new index, with the
    coordinates it had. *)
Lemma track_apply (st : App1.State) (op : App1More.Op) (p i j : nat) (r : App1.SavedRect) :
  default [] (App1.pageRects st !! p) !! i = Some r ->
  App1Track.track st op p i = Some j ->
  exists r', default [] (App1.pageRects (App1More.apply st op) !! p) !! j = Some r' /\
             App1.nr r' = App1.nr r.
Proof.
  intros Hr Ht.
  assert (Hsame : forall st', App1.pageRects st' = App1.pageRects st -> Some i = Some j ->
            exists r', default [] (App1.pageRects st' !! p) !! j = Some r' /\
                       App1.nr r' = App1.nr r).
  { intros st' E [= <-]. rewrite E. eauto. }
  assert (Hupd : forall idx (f : App1.SavedRect -> App1.SavedRect),
            (forall x, App1.nr (f x) = App1.nr x) -> Some i = Some j ->
            exists r',
              default []
                (<[App1.pageNumber st :=
                     match default [] (App1.pageRects st !! App1.pageNumber st) !! idx with
                     | Some x => <[idx := f x]> (default [] (App1.pageRects st !! App1.pageNumber st))
                     | None => default [] (App1.pageRects st !! App1.pageNumber st)
                     end]> (App1.pageRects st) !! p) !! j = Some r' /\
              App1.nr r' = App1.nr r).
  { intros idx f Hf [= <-].
    destruct (decide (App1.pageNumber st = p)) as [<-|Hne].
    - rewrite lookup_insert_eq.
      match goal with |- context [default [] (Some ?l)] =>
        change (default [] (Some l)) with l end.
      set (l := default [] (App1.pageRects st !! App1.pageNumber st)) in *.
      destruct (l !! idx) as [x|] eqn:Hx; [| eauto].
      destruct (decide (idx = i)) as [->|Hi].
      + rewrite list_lookup_insert_eq by (eapply lookup_lt_Some; exact Hr).
        eexists. split; [reflexivity |]. rewrite Hf. congruence.
      + rewrite list_lookup_insert_ne by exact Hi. eauto.
    - rewrite lookup_insert_ne by exact Hne. eauto. }
  destruct op as [q|q| |idx|idx kind|idx file| |k|l| | | | | |];
    cbn [App1More.apply App1Track.track] in *.
  - apply Hsame; [| exact Ht]. unfold App1.handlePointerDown.
    destruct (App1.overlay st); reflexivity.
  - apply Hsame; [| exact Ht]. unfold App1.handlePointerMove.
    destruct (App1.isDrawing st); reflexivity.
  - injection Ht as <-.
    destruct (pageRects_handlePointerUp st p) as [->|(n & _ & ->)]; [eauto |].
    exists r. split; [| reflexivity]. rewrite lookup_app_l; [exact Hr |].
    eapply lookup_lt_Some. exact Hr.
  - unfold App1.removeRect. cbn [App1.pageRects App1.set_pageRects].
    destruct (Nat.eqb_spec p (App1.pageNumber st)) as [->|Hne].
    + rewrite lookup_insert_eq.
      match goal with |- context [default [] (Some ?l)] =>
        change (default [] (Some l)) with l end.
      destruct (Nat.ltb_spec i idx) as [Hlt|Hge].
      * injection Ht as <-. exists r. split; [| reflexivity].
        rewrite list_lookup_delete_lt by exact Hlt. exact Hr.
      * destruct (Nat.eqb_spec i idx) as [_|Hne]; [discriminate |].
        injection Ht as <-. exists r. split; [| reflexivity].
        rewrite list_lookup_delete_ge by lia.
        replace (S (i - 1)) with i by lia. exact Hr.
    + injection Ht as <-. rewrite lookup_insert_ne by congruence. eauto.
  - unfold App1.updateRectKind. cbn [App1.pageRects App1.set_pageRects].
    apply (Hupd idx (fun x => App1.mkRect (App1.nr x) kind
                       (if String.eqb kind "logo" then App1.logoFile x else None)));
      [reflexivity | exact Ht].
  - unfold App1.setRectLogoFile. cbn [App1.pageRects App1.set_pageRects].
    apply (Hupd idx (fun x => App1.mkRect (App1.nr x) (App1.kind x) file));
      [reflexivity | exact Ht].
  - unfold App1.clearPageRects. cbn [App1.pageRects App1.set_pageRects].
    destruct (Nat.eqb_spec p (App1.pageNumber st)) as [_|Hne]; [discriminate |].
    injection Ht as <-. rewrite lookup_insert_ne by congruence. eauto.
  - apply Hsame; [| exact Ht]. unfold App1More.selectFile.
    destruct (k =? App1.activeFileIdx st)%nat; reflexivity.
  - apply Hsame; [| exact Ht]. unfold App1More.addPdfs.
    destruct l; [reflexivity |]. destruct (App1.files st !! 0%nat); [| reflexivity].
    destruct (App1.activeFileIdx st =? 0)%nat; reflexivity.
  - unfold App1More.removeActive.
    destruct (App1.files st !! App1.activeFileIdx st); [discriminate |].
    injection Ht as <-. eauto.
  - apply Hsame; [reflexivity | exact Ht].
  - apply Hsame; [reflexivity | exact Ht].
  - apply Hsame; [reflexivity | exact Ht].
  - apply Hsame; [| exact Ht]. unfold App1More.prevPage.
    destruct (App1.pdfDoc st); [| reflexivity].
    match goal with |- context [if ?c then _ else _] => destruct c end; reflexivity.
  - apply Hsame; [| exact Ht]. unfold App1More.nextPage.
    destruct (App1.pdfDoc st); [| reflexivity].
    match goal with |- context [if ?c then _ else _] => destruct c end; reflexivity.
Qed.

(** Two rectangles of a page that [track] follows keep their order. *)
Lemma track_lt (st : App1.State) (op : App1More.Op) (p i1 i2 j1 j2 : nat) :
  (i1 < i2)%nat ->
  App1Track.track st op p i1 = Some j1 -> App1Track.track st op p i2 = Some j2 ->
  (j1 < j2)%nat.
Proof.
  intros Hlt H1 H2.
  destruct op as [q|q| |idx|idx kind|idx file| |k|l| | | | | |];
    cbn [App1Track.track] in *; try (injection H1 as <-; injection H2 as <-; exact Hlt).
  - destruct (p =? App1.pageNumber st)%nat;
      [| injection H1 as <-; injection H2 as <-; exact Hlt].
    destruct (Nat.ltb_spec i1 idx), (Nat.ltb_spec i2 idx);
      destruct (Nat.eqb_spec i1 idx), (Nat.eqb_spec i2 idx);
      try discriminate; injection H1 as <-; injection H2 as <-; lia.
  - destruct (p =? App1.pageNumber st)%nat; [discriminate |].
    injection H1 as <-. injection H2 as <-. exact Hlt.
  - destruct (App1.files st !! App1.activeFileIdx st); [discriminate |].
    injection H1 as <-. injection H2 as <-. exact Hlt.
Qed.

Lemma trackRun_apply (ops : list App1More.Op) (st : App1.State) (p i j : nat)
    (r : App1.SavedRect) :
  default [] (App1.pageRects st !! p) !! i = Some r ->
  App1Track.trackRun ops st p i = Some j ->
  exists r', default [] (App1.pageRects (App1More.run ops st) !! p) !! j = Some r' /\
             App1.nr r' = App1.nr r.
Proof.
  revert st i r. induction ops as [|op ops IH]; intros st i r Hr Ht.
  - injection Ht as <-. eauto.
  - cbn [App1Track.trackRun] in Ht.
    destruct (App1Track.track st op p i) as [k|] eqn:Hk; [| discriminate].
    destruct (track_apply st op p i k r Hr Hk) as (r1 & Hr1 & E1).
    destruct (IH (App1More.apply st op) k r1 Hr1 Ht) as (r' & Hr' & E').
    exists r'. split; [exact Hr' | congruence].
Qed.

Lemma trackRun_lt (ops : list App1More.Op) (st : App1.State) (p i1 i2 j1 j2 : nat) :
  (i1 < i2)%nat ->
  App1Track.trackRun ops st p i1 = Some j1 -> App1Track.trackRun ops st p i2 = Some j2 ->
  (j1 < j2)%nat.
Proof.
  revert st i1 i2. induction ops as [|op ops IH]; intros st i1 i2 Hlt H1 H2.
  - injection H1 as <-. injection H2 as <-. exact Hlt.
  - cbn [App1Track.trackRun] in H1, H2.
    destruct (App1Track.track st op p i1) as [k1|] eqn:Hk1; [| discriminate].
    destruct (App1Track.track st op p i2) as [k2|] eqn:Hk2; [| discriminate].
    exact (IH _ k1 k2 (track_lt st op p i1 i2 k1 k2 Hlt Hk1 Hk2) H1 H2).
Qed.

Lemma pageNumber_handlePointerUp (st : App1.State) :
  App1.pageNumber (App1.handlePointerUp st) = App1.pageNumber st.
Proof.
  unfold App1.handlePointerUp. destruct (App1.isDrawing st); [| reflexivity]. cbn [negb].
  cbv zeta. destruct (Qeq_bool _ 0 || Qeq_bool _ 0); [reflexivity |].
  match goal with |- context [if ?c then _ else _] => destruct c end; reflexivity.
Qed.

(** C6, as the code has it.  In [PDFSanitizerApp.jsx]: rectangle A is
    confirmed, later B is confirmed, and neither is removed by the
    operations in between and after; then [runSanitization] returns, the
    zone of A stands before the zone of B, the zones are those of [rects]
    in list order, and every key of [image_map] is the index of the zone of
    the rectangle whose action carries that asset.  In
    [PDFSanitizerApp1.jsx]: a release commits A on page [p], operations
    follow that do not remove A, a release commits B on the same page,
    operations follow that remove neither; when [buildPayloadAndLogos]
    runs while the loaded document has a page [p], it returns, the zone
    with the coordinates of A stands before the zone with the coordinates
    of B, each zone carries its index as [rect_idx], and every key of the
    image map of [onSubmit] is the index of the zone of a [logo] rectangle
    that carries the file sent under that key. *)
Theorem zones_follow_insertion_order :
  (forall (st : App.State) (ops1 ops2 : list App.Op) (idA idB : string)
          (dA dB : App.Draft) (files : list App.File) (erase : list string),
     App.draft st = Some dA -> App.overlayRef st = true ->
     App.Remove idA ∉ ops1 ->
     App.draft (App.run ops1 (App.confirmDraft idA st)) = Some dB ->
     App.overlayRef (App.run ops1 (App.confirmDraft idA st)) = true ->
     App.Remove idA ∉ ops2 -> App.Remove idB ∉ ops2 ->
     files <> [] ->
     let A := App.newRect idA dA st in
     let B := App.newRect idB dB (App.run ops1 (App.confirmDraft idA st)) in
     let final := App.run ops2 (App.confirmDraft idB (App.run ops1 (App.confirmDraft idA st))) in
     exists sub,
       App.runSanitization files erase final = Some sub /\
       App.template_zones sub = App.zoneOf <$> App.rects final /\
       (exists i j,
          (i < j)%nat /\
          App.rects final !! i = Some A /\ App.rects final !! j = Some B /\
          App.template_zones sub !! i = Some (App.zoneOf A) /\
          App.template_zones sub !! j = Some (App.zoneOf B)) /\
       (forall k v,
          App.image_map sub !! k = Some v ->
          exists r a,
            App.rects final !! k = Some r /\
            App.template_zones sub !! k = Some (App.zoneOf r) /\
            App.rectActions final !! App.id r = Some a /\
            App.action a = "logo" /\ App.logoKey a = Some v)) /\
  (forall (st : App1.State) (ops1 ops2 : list App1More.Op) (A B : App1.SavedRect)
          (a1 a b : nat) (doc : list App1.PageGeom),
     App1.rectsForPage (App1.handlePointerUp st) = App1.rectsForPage st ++ [A] ->
     App1Track.trackRun ops1 (App1.handlePointerUp st) (App1.pageNumber st)
       (length (App1.rectsForPage st)) = Some a1 ->
     App1.pageNumber (App1More.run ops1 (App1.handlePointerUp st)) = App1.pageNumber st ->
     App1.rectsForPage (App1.handlePointerUp (App1More.run ops1 (App1.handlePointerUp st)))
     = App1.rectsForPage (App1More.run ops1 (App1.handlePointerUp st)) ++ [B] ->
     App1Track.trackRun ops2
       (App1.handlePointerUp (App1More.run ops1 (App1.handlePointerUp st)))
       (App1.pageNumber st) a1 = Some a ->
     App1Track.trackRun ops2
       (App1.handlePointerUp (App1More.run ops1 (App1.handlePointerUp st)))
       (App1.pageNumber st)
       (length (App1.rectsForPage (App1More.run ops1 (App1.handlePointerUp st)))) = Some b ->
     let final :=
       App1More.run ops2
         (App1.handlePointerUp (App1More.run ops1 (App1.handlePointerUp st))) in
     App1.pdfDoc final = Some doc -> App1.numPages final = length doc ->
     (1 <= App1.pageNumber st <= length doc)%nat ->
     exists zs us m n zA zB,
       App1.buildPayloadAndLogos final = Some (zs, us) /\
       (m < n)%nat /\ zs !! m = Some zA /\ zs !! n = Some zB /\
       App1.rect_idx zA = m /\ App1.rect_idx zB = n /\
       App1.page zA = (App1.pageNumber st - 1)%nat /\
       App1.page zB = (App1.pageNumber st - 1)%nat /\
       App1.bbox_norm zA = App1Track.normOf A /\
       App1.bbox_norm zB = App1Track.normOf B /\
       (forall k v,
          App1.image_map us !! k = Some v ->
          exists p g r f,
            zs !! k = Some (App1.zoneOf p g k r) /\
            r ∈ default [] (App1.pageRects final !! p) /\
            App1.kind r = "logo" /\ App1.logoFile r = Some f /\
            v = "logo_" +:+ pretty k /\ App1.mkUpload k v f ∈ us)).
Proof.
  split.
  {
  intros st ops1 ops2 idA idB dA dB files erase HdA HoA Hr1 HdB HoB Hr2A Hr2B Hf A B final.
  set (st1 := App.run ops1 (App.confirmDraft idA st)) in *.
  assert (HA : A ∈ App.rects st1).
  { apply elem_of_rects_run; [exact Hr1 |].
    rewrite (rects_confirmDraft idA dA st HdA HoA).
    apply elem_of_app. right. left. }
  assert (Hbef : App.before A B (App.rects final)).
  { apply before_run; [exact Hr2A | exact Hr2B |].
    rewrite (rects_confirmDraft idB dB st1 HdB HoB). apply before_snoc, HA. }
  destruct (foldl_zoneStep (App.rectActions final) erase (App.rects final))
    as (Hz & Hm & _ & _).
  eexists. split; [apply runSanitization_Some, Hf |].
  split; [exact Hz |]. split.
  - destruct (before_lookup A B _ Hbef) as (i & j & Hij & Hi & Hj).
    exists i, j. rewrite Hz, !list_lookup_fmap, Hi, Hj. auto.
  - intros k v Hv. rewrite Hm in Hv.
    destruct (App.rects final !! k) as [r|] eqn:Hr; [| discriminate].
    cbn [mbind option_bind] in Hv. unfold App.assetOf in Hv.
    destruct (App.rectActions final !! App.id r) as [a|] eqn:Ha; [| discriminate].
    destruct (String.eqb_spec (App.action a) "logo") as [Hlogo|]; [| discriminate].
    cbn [andb] in Hv. destruct (App.truthy (App.logoKey a)); [| discriminate].
    exists r, a. rewrite Hz, list_lookup_fmap, Hr. auto.
  }
  intros st ops1 ops2 A B a1 a b doc HA Ht1 Hp1 HB Hta Htb final Hdoc Hn Hp.
  set (p := App1.pageNumber st) in *.
  set (stA := App1.handlePointerUp st) in *.
  set (st1 := App1More.run ops1 stA) in *.
  set (stB := App1.handlePointerUp st1) in *.
  assert (HpA : App1.pageNumber stA = p) by apply pageNumber_handlePointerUp.
  assert (HpB : App1.pageNumber stB = p).
  { unfold stB. rewrite pageNumber_handlePointerUp. exact Hp1. }
  (* A after its commit *)
  assert (HA0 : default [] (App1.pageRects stA !! p) !! length (App1.rectsForPage st) = Some A).
  { replace (default [] (App1.pageRects stA !! p)) with (App1.rectsForPage stA)
      by (unfold App1.rectsForPage; rewrite HpA; reflexivity).
    rewrite HA. rewrite lookup_app_r by lia. rewrite Nat.sub_diag. reflexivity. }
  destruct (trackRun_apply ops1 stA p _ a1 A HA0 Ht1) as (A1 & HA1 & EA1).
  fold st1 in HA1.
  (* A and B after the commit of B *)
  assert (HlB : default [] (App1.pageRects stB !! p)
                = default [] (App1.pageRects st1 !! p) ++ [B]).
  { unfold App1.rectsForPage in HB. rewrite HpB, Hp1 in HB. exact HB. }
  assert (HA2 : default [] (App1.pageRects stB !! p) !! a1 = Some A1).
  { rewrite HlB. rewrite lookup_app_l; [exact HA1 |]. eapply lookup_lt_Some. exact HA1. }
  assert (HB2 : default [] (App1.pageRects stB !! p)
                  !! length (App1.rectsForPage st1) = Some B).
  { rewrite HlB. unfold App1.rectsForPage. rewrite Hp1.
    rewrite lookup_app_r by lia. rewrite Nat.sub_diag. reflexivity. }
  assert (Hlt : (a1 < length (App1.rectsForPage st1))%nat).
  { unfold App1.rectsForPage. rewrite Hp1. eapply lookup_lt_Some. exact HA1. }
  destruct (trackRun_apply ops2 stB p a1 a A1 HA2 Hta) as (A' & HA' & EA').
  destruct (trackRun_apply ops2 stB p _ b B HB2 Htb) as (B' & HB' & EB').
  pose proof (trackRun_lt ops2 stB p _ _ a b Hlt Hta Htb) as Hab.
  fold final in HA', HB'.
  assert (Hn' : (App1.numPages final <= length doc)%nat) by lia.
  assert (Hp' : (1 <= p <= App1.numPages final)%nat) by lia.
  assert (Hg : is_Some (App1.getPage doc p)).
  { destruct p as [|i]; [lia |]. simpl. apply lookup_lt_is_Some. lia. }
  destruct Hg as [g Hg].
  destruct (buildPayloadAndLogos_order_keys final doc Hdoc Hn')
    as (zs & us & Hb & Hidx & _ & Hkeys).
  pose proof (buildPayloadAndLogos_closed final doc Hdoc Hn') as Hc.
  rewrite Hb in Hc. injection Hc as Ezs Eus.
  exists zs, us, (App1.offset doc (App1.pageRects final) p + a)%nat,
    (App1.offset doc (App1.pageRects final) p + b)%nat,
    (App1.entryZone (App1.offset doc (App1.pageRects final) p + a) (p, g, A')),
    (App1.entryZone (App1.offset doc (App1.pageRects final) p + b) (p, g, B')).
  split; [exact Hb |]. split; [lia |].
  split.
  { rewrite Ezs. apply zone_lookup. eexists. split; [| reflexivity].
    apply (entries_lookup doc _ _ p a g A' Hp' Hg HA'). }
  split.
  { rewrite Ezs. apply zone_lookup. eexists. split; [| reflexivity].
    apply (entries_lookup doc _ _ p b g B' Hp' Hg HB'). }
  split; [reflexivity |]. split; [reflexivity |].
  split; [reflexivity |]. split; [reflexivity |].
  split; [unfold App1Track.normOf; cbn; rewrite EA', EA1; reflexivity |].
  split; [unfold App1Track.normOf; cbn; rewrite EB'; reflexivity |].
  exact Hkeys.
Qed.

(** The session of [twoRects]: A is confirmed, B is drawn and confirmed,
    and the actions are set afterwards.  In [PDFSanitizerApp1.jsx]: A is
    dragged and released, B is dragged and released, then B is made a logo
    with a file. *)
Lemma zones_follow_insertion_order_witness :
  (exists sub,
     App.runSanitization ["template.pdf"] []
       (App.run App.setLogos
          (App.confirmDraft "b" (App.run App.drawB (App.confirmDraft "a" App.drawnA))))
     = Some sub /\
     App.template_zones sub
     = App.zoneOf
         <$> App.rects
               (App.run App.setLogos
                  (App.confirmDraft "b" (App.run App.drawB (App.confirmDraft "a" App.drawnA))))) /\
  (exists zs us m n zA zB,
     App1.buildPayloadAndLogos
       (App1More.run App1Track.thenLogoB
          (App1.handlePointerUp
             (App1More.run App1Track.thenDragB (App1.handlePointerUp App1Track.draggingA))))
     = Some (zs, us) /\
     (m < n)%nat /\ zs !! m = Some zA /\ zs !! n = Some zB /\
     App1.bbox_norm zA
     = App1Track.normOf
         (App1.mkRect (normalizeRect (mkPx 10 10 110 60) 800 600) "redact" None) /\
     App1.bbox_norm zB
     = App1Track.normOf
         (App1.mkRect (normalizeRect (mkPx 200 200 300 260) 800 600) "redact" None)).
Proof.
  split.
  - destruct (proj1 zones_follow_insertion_order
                App.drawnA App.drawB App.setLogos
                "a" "b" (App.mkDraft 10 10 100 50) (App.mkDraft 200 200 100 60)
                ["template.pdf"] [])
      as (sub & Hs & Hz & _).
    + vm_compute. reflexivity.
    + reflexivity.
    + intros H. repeat (apply elem_of_cons in H as [H|H]; [discriminate |]).
      by apply elem_of_nil in H.
    + vm_compute. reflexivity.
    + vm_compute. reflexivity.
    + intros H. repeat (apply elem_of_cons in H as [H|H]; [discriminate |]).
      by apply elem_of_nil in H.
    + intros H. repeat (apply elem_of_cons in H as [H|H]; [discriminate |]).
      by apply elem_of_nil in H.
    + discriminate.
    + exists sub. split; [exact Hs | exact Hz].
  - destruct (proj2 zones_follow_insertion_order
                App1Track.draggingA App1Track.thenDragB App1Track.thenLogoB
                (App1.mkRect (normalizeRect (mkPx 10 10 110 60) 800 600) "redact" None)
                (App1.mkRect (normalizeRect (mkPx 200 200 300 260) 800 600) "redact" None)
                0%nat 0%nat 1%nat [App1.letter])
      as (zs & us & m & n & zA & zB & Hb & Hmn & HzA & HzB & _ & _ & _ & _ & HnA & HnB & _).
    + vm_compute. reflexivity.
    + vm_compute. reflexivity.
    + vm_compute. reflexivity.
    + vm_compute. reflexivity.
    + vm_compute. reflexivity.
    + vm_compute. reflexivity.
    + vm_compute. reflexivity.
    + vm_compute. reflexivity.
    + vm_compute. lia.
    + exists zs, us, m, n, zA, zB. repeat split; assumption.
Defined.

End OrderClaims.

(** C6 as stated fails in [PDFSanitizerApp1.jsx] once the loaded document
    has no page with the number of the page the rectangles are on: two
    rectangles are committed on page 2 and stay in the store, the second
    file (one page) is selected, and [buildPayloadAndLogos] emits no zone. *)
Lemma zones_of_missing_page_counterexample :
  exists A B,
    default [] (App1.pageRects App1Track.switched !! 2%nat) = [A; B] /\
    App1.pdfDoc App1Track.switched = Some [App1.letter] /\
    App1.buildPayloadAndLogos App1Track.switched = Some ([], []).
Proof. eexists _, _. vm_compute. repeat split. Qed.

(** ** Render lifecycle *)

Section RenderFacts.

Import Render.

(** What the two variants do by design. *)

(** [PDFSanitizerApp1.jsx]: entering [render] calls [cancel()] on the task
    in the ref and clears the ref. *)
Lemma render_enter_cancels (p : Params) (st : State) (t : nat) :
  renderTaskRef st = Some t -> (t < length (tasks st))%nat ->
  tasks (Render1.render_enter p st) !! t = Some true /\
  renderTaskRef (Render1.render_enter p st) = None.
Proof.
  intros Hr Ht. unfold Render1.render_enter, cancelCurrent. rewrite Hr.
  cbn [tasks renderTaskRef]. split; [| reflexivity].
  apply list_lookup_insert_eq. exact Ht.
Qed.

(** [PDFSanitizerApp1.jsx]: a call whose task was cancelled, or failed,
    leaves both surfaces as they are. *)
Lemma render_finish_not_done (i : nat) (c : Call) (o : Outcome) (st : State) :
  o <> Done ->
  overlay (Render1.render_finish i c o st) = overlay st /\
  canvas (Render1.render_finish i c o st) = canvas st /\
  published (Render1.render_finish i c o st) = published st.
Proof. intros Ho. destruct o; [contradiction | |]; repeat split. Qed.

(** [PDFSanitizerApp0.jsx]: the end of [renderPage] sizes and repaints the
    overlay and clears the ref, whatever the outcome of the task. *)
Lemma renderPage_finish_always (i : nat) (c : Call) (o : Outcome) (st : State) :
  overlay (Render0.renderPage_finish i c o st) = Some (params c) /\
  published (Render0.renderPage_finish i c o st) = published st ++ [i] /\
  renderTaskRef (Render0.renderPage_finish i c o st) = None.
Proof. repeat split. Qed.

(** [PDFSanitizerApp1.jsx], second request while the first task runs and
    the cancellation is honoured: one completion is published, that of the
    second request. *)
Example render_cancel_honoured :
  exists st,
    Render1.run cancelHonoured = Some st /\
    quiescent st = true /\ latest st = Some second /\
    published st = [1%nat] /\ overlay st = Some second /\ canvas st = Some second.
Proof. eexists. split; [reflexivity |]. repeat split. Qed.

(** C1 on the code.  [PDFSanitizerApp1.jsx], trace [slowEarlyRender]: the
    second request finds no task in the ref, so nothing is cancelled (the
    engine cannot settle a task as cancelled); whether the later task
    completes or fails, the completion of the superseded first request is
    published last and the overlay ends sized for the first request while
    the second is the latest.  [PDFSanitizerApp0.jsx], trace
    [cancelHonoured]: the cancelled first call still sizes and repaints the
    overlay after the second request; trace [pagesOutOfOrder]: the task of
    the latest request is the one cancelled, and both surfaces end on the
    first request. *)
Theorem superseded_render_reaches_surface :
  (exists st,
     Render1.run (slowEarlyRender Done) = Some st /\
     quiescent st = true /\ latest st = Some second /\
     tasks st = [false; false] /\
     published st = [1%nat; 0%nat] /\
     overlay st = Some first /\ canvas st = Some second) /\
  (exists st,
     Render1.run (slowEarlyRender Failed) = Some st /\
     quiescent st = true /\ latest st = Some second /\
     published st = [0%nat] /\
     overlay st = Some first /\ canvas st = Some second) /\
  Render1.run (slowEarlyRender Cancelled) = None /\
  (exists st,
     Render0.run cancelHonoured = Some st /\
     quiescent st = true /\ latest st = Some second /\
     tasks st = [true; false] /\
     published st = [0%nat; 1%nat]) /\
  (exists st,
     Render0.run pagesOutOfOrder = Some st /\
     quiescent st = true /\ latest st = Some second /\
     tasks st = [true; false] /\
     published st = [1%nat; 0%nat] /\
     overlay st = Some first /\ canvas st = Some first).
Proof.
  split; [| split; [| split; [reflexivity |]; split]];
    (eexists; split; [reflexivity |]); repeat split.
Qed.

End RenderFacts.

(** ** More of [PDFSanitizerApp1.jsx] *)

Section App1MoreFacts.

Import Transform App1 App1More.
Local Open Scope Q_scope.

Lemma axis_swap (a b W : Q) :
  Qmin (clamp 0 W a) (clamp 0 W b) / W == Qmin (clamp 0 W b) (clamp 0 W a) / W /\
  Qmax (clamp 0 W a) (clamp 0 W b) / W == Qmax (clamp 0 W b) (clamp 0 W a) / W.
Proof. rewrite (Q.min_comm (clamp 0 W a)), (Q.max_comm (clamp 0 W a)). split; reflexivity. Qed.

(** X2. The drag direction does not matter: exchanging the two ends of a
    drag along x, along y or along both gives the same normalized
    rectangle, for every surface size. *)
Theorem normalizeRect_direction (r : PxRect) (W H : Q) :
  norm_eq (normalizeRect (mkPx (x2 r) (y1 r) (x1 r) (y2 r)) W H) (normalizeRect r W H) /\
  norm_eq (normalizeRect (mkPx (x1 r) (y2 r) (x2 r) (y1 r)) W H) (normalizeRect r W H) /\
  norm_eq (normalizeRect (mkPx (x2 r) (y2 r) (x1 r) (y1 r)) W H) (normalizeRect r W H).
Proof.
  destruct (axis_swap (x2 r) (x1 r) W) as [Ex1 Ex2].
  destruct (axis_swap (y2 r) (y1 r) H) as [Ey1 Ey2].
  repeat split; try reflexivity; assumption.
Qed.

(** *** The stored rectangles stay canonical *)

Lemma axis_strict (a b W : Q) :
  0 < W ->
  ~ Qmin (clamp 0 W a) (clamp 0 W b) / W == Qmax (clamp 0 W a) (clamp 0 W b) / W ->
  0 <= Qmin (clamp 0 W a) (clamp 0 W b) / W /\
  Qmin (clamp 0 W a) (clamp 0 W b) / W < Qmax (clamp 0 W a) (clamp 0 W b) / W /\
  Qmax (clamp 0 W a) (clamp 0 W b) / W <= 1.
Proof.
  intros HW Hne. destruct (axis_bounds a b W HW) as (H0 & Hle & H1).
  split; [exact H0 |]. split; [| exact H1].
  apply Qle_lteq in Hle as [Hlt|Heq]; [exact Hlt | contradiction].
Qed.

Lemma Qeq_bool_false (a b : Q) : Qeq_bool a b = false -> ~ a == b.
Proof. intros Hb He. apply Qeq_bool_iff in He. congruence. Qed.

(** What a release appends, if anything, is canonical. *)
Lemma handlePointerUp_storeOk (st : State) : storeOk st -> storeOk (handlePointerUp st).
Proof.
  intros [Hsurf Hst]. destruct st as [fs ai pd np pn z ov dr sp cp prs].
  unfold handlePointerUp.
  cbn [isDrawing set_drag overlay startPos currentPos pageNumber pageRects].
  destruct dr; [| split; assumption]. cbn [negb].
  destruct ov as [[W H]|]; cbn [fmap option_fmap option_map default from_option fst snd];
    unfold id; [| split; assumption].
  destruct (Qeq_bool W 0) eqn:HW0; [split; assumption |].
  destruct (Qeq_bool H 0) eqn:HH0; [split; assumption |]. cbn [orb].
  destruct (Hsurf W H eq_refl) as [HW HH].
  apply Qeq_bool_false in HW0. apply Qeq_bool_false in HH0.
  assert (HWp : 0 < W) by (apply Qle_lteq in HW as [?|E]; [assumption | symmetry in E; contradiction]).
  assert (HHp : 0 < H) by (apply Qle_lteq in HH as [?|E]; [assumption | symmetry in E; contradiction]).
  match goal with |- context [negb (Qeq_bool ?a ?b) && negb (Qeq_bool ?c ?d)] =>
    destruct (Qeq_bool a b) eqn:Hx; [split; assumption |];
    destruct (Qeq_bool c d) eqn:Hy; [split; assumption |]
  end.
  cbn [negb andb]. apply Qeq_bool_false in Hx. apply Qeq_bool_false in Hy.
  split; [exact Hsurf |]. intros p r. cbn [pageRects set_pageRects]. unfold pushRect.
  destruct (decide (p = pn)) as [->|Hp].
  - rewrite lookup_insert_eq. cbn [default from_option]. unfold id.
    intros Hr. apply elem_of_app in Hr as [Hr|Hr]; [exact (Hst pn r Hr) |].
    apply list_elem_of_singleton in Hr as ->. cbn [nr].
    destruct (axis_strict sp.1 cp.1 W HWp Hx) as (A1 & A2 & A3).
    destruct (axis_strict sp.2 cp.2 H HHp Hy) as (B1 & B2 & B3).
    repeat split; assumption.
  - rewrite lookup_insert_ne by congruence. apply Hst.
Qed.

(** Replacing the page list by a list of rectangles that were stored, or
    that carry the coordinates of a stored one, keeps the store canonical. *)
Lemma set_page_storeOk (st : State) (arr : list SavedRect) :
  storeOk st ->
  (forall r, r ∈ arr -> exists r', r' ∈ rectsForPage st /\ nr r = nr r') ->
  storeOk (set_pageRects (fun prev => <[pageNumber st := arr]> prev) st).
Proof.
  intros [Hsurf Hst] Harr. split; [exact Hsurf |].
  intros p r. cbn [pageRects set_pageRects].
  destruct (decide (p = pageNumber st)) as [->|Hp].
  - rewrite lookup_insert_eq. cbn [default from_option]. unfold id. intros Hr.
    destruct (Harr r Hr) as (r' & Hr' & ->). exact (Hst (pageNumber st) r' Hr').
  - rewrite lookup_insert_ne by congruence. apply Hst.
Qed.

Lemma insert_elem_nr (arr : list SavedRect) (idx : nat) (r0 r new : SavedRect) :
  arr !! idx = Some r0 -> nr new = nr r0 -> r ∈ <[idx := new]> arr ->
  exists r', r' ∈ arr /\ nr r = nr r'.
Proof.
  intros H0 Hn Hr. apply list_elem_of_lookup in Hr as [j Hj].
  destruct (decide (j = idx)) as [->|Hne].
  - rewrite list_lookup_insert_eq in Hj by (eapply lookup_lt_Some, H0).
    injection Hj as <-. exists r0. split; [eapply list_elem_of_lookup_2, H0 | exact Hn].
  - rewrite list_lookup_insert_ne in Hj by congruence.
    exists r. split; [eapply list_elem_of_lookup_2, Hj | reflexivity].
Qed.

Lemma setActiveFileIdx_storeOk (i : nat) (st : State) :
  storeOk st -> storeOk (setActiveFileIdx i st).
Proof. intros H. exact H. Qed.

Lemma apply_storeOk (st : State) (op : Op) : storeOk st -> storeOk (apply st op).
Proof.
  intros Hok. destruct op as [p|p| |idx|idx kind|idx file| |i|l| | | | | |]; cbn [apply].
  - unfold handlePointerDown. destruct (overlay st); exact Hok.
  - unfold handlePointerMove. destruct (isDrawing st); exact Hok.
  - apply handlePointerUp_storeOk, Hok.
  - apply (set_page_storeOk st _ Hok). intros r Hr. exists r. split; [| reflexivity].
    eapply elem_of_sublist; [exact Hr | apply sublist_delete].
  - apply (set_page_storeOk st _ Hok). intros r Hr.
    fold (rectsForPage st) in Hr. destruct (rectsForPage st !! idx) as [r0|] eqn:H0.
    + eapply insert_elem_nr; [exact H0 | | exact Hr]. reflexivity.
    + exists r. split; [exact Hr | reflexivity].
  - apply (set_page_storeOk st _ Hok). intros r Hr.
    fold (rectsForPage st) in Hr. destruct (rectsForPage st !! idx) as [r0|] eqn:H0.
    + eapply insert_elem_nr; [exact H0 | | exact Hr]. reflexivity.
    + exists r. split; [exact Hr | reflexivity].
  - apply (set_page_storeOk st _ Hok). intros r Hr. by apply elem_of_nil in Hr.
  - unfold selectFile. destruct (i =? activeFileIdx st)%nat; exact Hok.
  - unfold addPdfs. destruct l; [exact Hok |].
    destruct (files st !! 0%nat); [destruct (activeFileIdx st =? 0)%nat |]; exact Hok.
  - unfold removeActive. destruct (files st !! activeFileIdx st); [| exact Hok].
    destruct Hok as [Hsurf _]. split; [exact Hsurf |].
    intros p r Hr. cbn in Hr. rewrite lookup_empty in Hr. by apply elem_of_nil in Hr.
  - exact Hok.
  - exact Hok.
  - exact Hok.
  - unfold prevPage. destruct (pdfDoc st); [destruct (pageNumber st <=? 1)%nat |]; exact Hok.
  - unfold nextPage. destruct (pdfDoc st); [destruct (numPages st <=? pageNumber st)%nat |]; exact Hok.
Qed.

Lemma run_storeOk (ops : list Op) (st : State) : storeOk st -> storeOk (run ops st).
Proof.
  revert st. induction ops as [|op ops IH]; intros st Hok; [exact Hok |].
  cbn. apply IH, apply_storeOk, Hok.
Qed.

(** X3. Whatever the operator does (draw, remove, change kind, attach a
    file, clear, zoom, turn pages, switch, add or remove files), every
    rectangle in the store stays inside the unit square with
    [x1n < x2n] and [y1n < y2n]. *)
Theorem storeOk_run (ops : list Op) (st : State) : storeOk st -> storeOk (run ops st).
Proof. apply run_storeOk. Qed.

Lemma storeOk_session (z : Q) (W H : Q) : 0 <= W -> 0 <= H -> storeOk (session z (W, H)).
Proof.
  intros HW HH. split.
  - intros W' H' [= <- <-]. split; assumption.
  - intros p r Hr. cbn in Hr. rewrite lookup_empty in Hr. by apply elem_of_nil in Hr.
Qed.

Lemma storeOk_run_witness :
  storeOk (run [PointerDown (900, -20); PointerMove (-5, 300); PointerUp;
                UpdateRectKind 0 "logo"; ZoomIn; PointerDown (1, 1); PointerMove (2, 2);
                PointerUp; RemoveRect 0]
               (session 1 (800, 600))).
Proof. apply storeOk_run, storeOk_session; discriminate. Defined.

(** X4. Every operation other than "Remove active" leaves the list of
    every page but the one on display as it is. *)
Theorem store_frame (st : State) (op : Op) (p : nat) :
  op <> RemoveActive -> p <> pageNumber st ->
  pageRects (apply st op) !! p = pageRects st !! p.
Proof.
  intros Hop Hp.
  destruct op as [q|q| |idx|idx kind|idx file| |i|l| | | | | |]; cbn [apply];
    try contradiction; try reflexivity.
  - unfold handlePointerDown. destruct (overlay st); reflexivity.
  - unfold handlePointerMove. destruct (isDrawing st); reflexivity.
  - destruct (rectsForPage_handlePointerUp st) as [E|[n E]].
    + destruct st as [fs ai pd np pn z ov dr sp cp prs]. unfold handlePointerUp.
      cbn [isDrawing set_drag overlay startPos currentPos pageNumber pageRects].
      destruct dr; [| reflexivity]. cbn [negb].
      destruct (Qeq_bool _ 0 || Qeq_bool _ 0); [reflexivity |].
      match goal with |- context [if ?c then _ else _] => destruct c end; [| reflexivity].
      cbn [pageRects set_pageRects]. unfold pushRect. apply lookup_insert_ne.
      cbn [pageNumber] in Hp. congruence.
    + destruct st as [fs ai pd np pn z ov dr sp cp prs]. unfold handlePointerUp.
      cbn [isDrawing set_drag overlay startPos currentPos pageNumber pageRects].
      destruct dr; [| reflexivity]. cbn [negb].
      destruct (Qeq_bool _ 0 || Qeq_bool _ 0); [reflexivity |].
      match goal with |- context [if ?c then _ else _] => destruct c end; [| reflexivity].
      cbn [pageRects set_pageRects]. unfold pushRect. apply lookup_insert_ne.
      cbn [pageNumber] in Hp. congruence.
  - cbn [removeRect pageRects set_pageRects]. apply lookup_insert_ne. congruence.
  - cbn [updateRectKind pageRects set_pageRects]. apply lookup_insert_ne. congruence.
  - cbn [setRectLogoFile pageRects set_pageRects]. apply lookup_insert_ne. congruence.
  - cbn [clearPageRects pageRects set_pageRects]. apply lookup_insert_ne. congruence.
  - unfold selectFile. destruct (i =? activeFileIdx st)%nat; reflexivity.
  - unfold addPdfs. destruct l; [reflexivity |].
    destruct (files st !! 0%nat); [destruct (activeFileIdx st =? 0)%nat |]; reflexivity.
  - unfold prevPage. destruct (pdfDoc st); [destruct (pageNumber st <=? 1)%nat |]; reflexivity.
  - unfold nextPage. destruct (pdfDoc st); [destruct (numPages st <=? pageNumber st)%nat |]; reflexivity.
Qed.

Lemma store_frame_witness :
  pageRects (apply (drag (10, 10) (110, 60) (session 1 (800, 600))) ClearPageRects) !! 2%nat
  = pageRects (drag (10, 10) (110, 60) (session 1 (800, 600))) !! 2%nat.
Proof.
  apply (store_frame (drag (10, 10) (110, 60) (session 1 (800, 600))) ClearPageRects 2);
    [discriminate | vm_compute; lia].
Defined.

(** *** What [drawOverlay] paints *)




(** *** The view stays in range *)

Lemma fmt_bounds (q : Q) : q - (1 # 200) <= fmt q /\ fmt q <= q + (1 # 200).
Proof.
  pose proof (fmt_error q) as H. apply Qabs_Qle_condition in H. split; lra.
Qed.

Lemma setActiveFileIdx_viewOk (i : nat) (st : State) :
  viewOk st -> viewOk (setActiveFileIdx i st).
Proof.
  intros (Z1 & Z2 & _). unfold viewOk, setActiveFileIdx.
  cbn [zoom pageNumber numPages pdfDoc].
  split; [exact Z1 |]. split; [exact Z2 |]. split; [lia |]. split; [lia |].
  intros doc Hd. rewrite Hd. reflexivity.
Qed.

Lemma apply_viewOk (st : State) (op : Op) : viewOk st -> viewOk (apply st op).
Proof.
  intros Hok. pose proof Hok as (Z1 & Z2 & P1 & P2 & D).
  destruct op as [p|p| |idx|idx kind|idx file| |i|l| | | | | |]; cbn [apply];
    try exact Hok.
  - unfold handlePointerDown. destruct (overlay st); exact Hok.
  - unfold handlePointerMove. destruct (isDrawing st); exact Hok.
  - destruct st as [fs ai pd np pn z ov dr sp cp prs]. unfold handlePointerUp.
    cbn [isDrawing set_drag overlay startPos currentPos pageNumber pageRects].
    destruct dr; [| exact Hok]. cbn [negb].
    destruct (Qeq_bool _ 0 || Qeq_bool _ 0); [exact Hok |].
    match goal with |- context [if ?c then _ else _] => destruct c end; exact Hok.
  - unfold selectFile. destruct (i =? activeFileIdx st)%nat;
      [exact Hok | apply setActiveFileIdx_viewOk, Hok].
  - unfold addPdfs. destruct l; [exact Hok |].
    destruct (files st !! 0%nat); [destruct (activeFileIdx st =? 0)%nat |];
      [exact Hok | apply setActiveFileIdx_viewOk; exact Hok
       | apply setActiveFileIdx_viewOk; exact Hok].
  - unfold removeActive. destruct (files st !! activeFileIdx st); [| exact Hok].
    apply setActiveFileIdx_viewOk. unfold viewOk. cbn [zoom pageNumber numPages pdfDoc].
    split; [exact Z1 |]. split; [exact Z2 |]. split; [lia |]. split; [lia |]. discriminate.
  - unfold zoomIn, viewOk. cbn [zoom pageNumber numPages pdfDoc set_zoom].
    destruct (fmt_bounds (zoom st + (1 # 10))) as [F1 F2].
    split; [apply Q.min_glb; lra |]. split; [apply Q.le_min_l |]. auto.
  - unfold zoomOut, viewOk. cbn [zoom pageNumber numPages pdfDoc set_zoom].
    destruct (fmt_bounds (zoom st - (1 # 10))) as [F1 F2].
    split; [apply Q.le_max_l |]. split; [apply Q.max_lub; lra |]. auto.
  - unfold resetZoom, viewOk. cbn [zoom pageNumber numPages pdfDoc set_zoom].
    split; [discriminate |]. split; [discriminate |]. auto.
  - unfold prevPage. destruct (pdfDoc st) eqn:Hd; [| exact Hok].
    destruct (Nat.leb_spec (pageNumber st) 1); [exact Hok |].
    unfold viewOk. cbn [zoom pageNumber numPages pdfDoc set_pageNumber].
    split; [exact Z1 |]. split; [exact Z2 |]. split; [lia |]. split; [lia |].
    rewrite Hd. exact D.
  - unfold nextPage. destruct (pdfDoc st) eqn:Hd; [| exact Hok].
    destruct (Nat.leb_spec (numPages st) (pageNumber st)); [exact Hok |].
    unfold viewOk. cbn [zoom pageNumber numPages pdfDoc set_pageNumber].
    split; [exact Z1 |]. split; [exact Z2 |]. split; [lia |]. split; [lia |].
    rewrite Hd. exact D.
Qed.

Lemma run_viewOk (ops : list Op) (st : State) : viewOk st -> viewOk (run ops st).
Proof.
  revert st. induction ops as [|op ops IH]; intros st Hok; [exact Hok |].
  cbn. apply IH, apply_viewOk, Hok.
Qed.

(** X6. Whatever the operator does, the zoom stays between 0.25 and 4, the
    page number stays at least 1 and, while the document has pages, at most
    their number, and [numPages] is the page count of the loaded document. *)
Theorem viewOk_run (ops : list Op) (st : State) : viewOk st -> viewOk (run ops st).
Proof. apply run_viewOk. Qed.

Lemma viewOk_session (W H : Q) : viewOk (session 1 (W, H)).
Proof.
  unfold viewOk. cbn. split; [discriminate |]. split; [discriminate |].
  split; [lia |]. split; [lia |]. intros doc [= <-]. reflexivity.
Qed.

Lemma viewOk_run_witness :
  viewOk (run [ZoomOut; ZoomOut; ZoomOut; ZoomOut; ZoomOut; ZoomOut; ZoomOut; ZoomOut;
               NextPage; PrevPage; PrevPage; SelectFile 1; NextPage; RemoveActive; ZoomIn]
              (session 1 (800, 600))).
Proof. apply viewOk_run, viewOk_session. Defined.

(** At the ends of the range the zoom buttons stop: eight steps down from
    1 reach 0.25 and a ninth stays there. *)
Example zoomOut_floor :
  zoom (run [ZoomOut; ZoomOut; ZoomOut; ZoomOut; ZoomOut; ZoomOut; ZoomOut; ZoomOut]
            (session 1 (800, 600))) == 1 # 4 /\
  zoom (run [ZoomOut; ZoomOut; ZoomOut; ZoomOut; ZoomOut; ZoomOut; ZoomOut; ZoomOut; ZoomOut]
            (session 1 (800, 600))) == 1 # 4.
Proof. split; vm_compute; reflexivity. Qed.

(** *** Erase terms *)

Lemma foldl_setAdd (l set : list string) :
  foldl setAdd set l = set ++ App.keepFirst (fun t => t) (filter (fun t => t ∉ set) l).
Proof.
  revert set. induction l as [|t l IH]; intros set.
  - cbn. rewrite app_nil_r. reflexivity.
  - cbn [foldl]. unfold setAdd at 2. rewrite filter_cons.
    destruct (decide (t ∉ set)) as [Hn|Hi].
    + rewrite bool_decide_eq_false_2 by exact Hn. rewrite IH.
      cbn [App.keepFirst]. rewrite <- app_assoc. cbn [app]. do 2 f_equal.
      rewrite (keepFirst_filter (fun t => t)) by (intros u v E Hu; congruence).
      rewrite list_filter_filter. f_equal. apply list_filter_iff.
      intros u. rewrite not_elem_of_app, list_elem_of_singleton. tauto.
    + rewrite bool_decide_eq_true_2 by (destruct (decide (t ∈ set)); tauto).
      apply IH.
Qed.

Lemma splitComma_no_comma (s p : string) :
  p ∈ splitComma s -> Forall (fun c => nat_of_ascii c <> 44%nat) (App.chars p).
Proof.
  revert p. induction s as [|c s IH]; intros p Hp.
  - cbn in Hp. apply list_elem_of_singleton in Hp as ->. constructor.
  - cbn [splitComma] in Hp. destruct (Nat.eqb_spec (nat_of_ascii c) 44) as [Hc|Hc].
    + apply elem_of_cons in Hp as [->|Hp]; [constructor | exact (IH p Hp)].
    + destruct (splitComma s) as [|q qs].
      * apply list_elem_of_singleton in Hp as ->. repeat constructor. exact Hc.
      * apply elem_of_cons in Hp as [->|Hp].
        -- cbn [App.chars]. constructor; [exact Hc | apply IH; left].
        -- apply IH. right. exact Hp.
Qed.

(** X8. [parseEraseTerms] returns the comma-separated pieces of its input,
    trimmed, without the empty ones, each exact spelling once and in the
    order of first occurrence; an absent input gives no term.  Spellings
    that differ only in case are kept apart, and a line break does not
    separate terms. *)
Theorem parseEraseTerms_distinct (raw : option string) :
  parseEraseTerms raw
  = App.keepFirst (fun t => t)
      (filter (fun t => App.nonEmpty t = true)
              (App.trim <$> splitComma (default EmptyString raw))) /\
  NoDup (parseEraseTerms raw) /\
  parseEraseTerms raw
    `sublist_of` filter (fun t => App.nonEmpty t = true)
                   (App.trim <$> splitComma (default EmptyString raw)) /\
  (forall t, t ∈ filter (fun t => App.nonEmpty t = true)
                   (App.trim <$> splitComma (default EmptyString raw)) ->
     t ∈ parseEraseTerms raw) /\
  (forall t, t ∈ parseEraseTerms raw ->
     App.nonEmpty t = true /\ App.trim t = t /\
     Forall (fun c => nat_of_ascii c <> 44%nat) (App.chars t)) /\
  parseEraseTerms None = [].
Proof.
  assert (E : parseEraseTerms raw
              = App.keepFirst (fun t => t)
                  (filter (fun t => App.nonEmpty t = true)
                          (App.trim <$> splitComma (default EmptyString raw)))).
  { unfold parseEraseTerms. rewrite foldl_setAdd. cbn [app].
    rewrite filter_all by (intros t; apply not_elem_of_nil). reflexivity. }
  rewrite E. split; [reflexivity |].
  split; [pose proof (keepFirst_NoDup (fun t => t) (filter (fun t => App.nonEmpty t = true)
             (App.trim <$> splitComma (default EmptyString raw)))) as Hn;
          rewrite list_fmap_id in Hn; exact Hn |].
  split; [apply keepFirst_sublist |].
  split.
  - intros t Ht. destruct (keepFirst_covers (fun t => t) _ t Ht) as (u & Hu & ->). exact Hu.
  - split; [| reflexivity]. intros t Ht.
    pose proof (elem_of_sublist _ _ _ Ht (keepFirst_sublist _ _)) as Hin.
    apply list_elem_of_filter in Hin as [Hne Hin].
    apply list_elem_of_fmap in Hin as (p & -> & Hp).
    split; [exact Hne |]. split; [apply trim_fixed |].
    apply Forall_forall. intros c Hc.
    apply (proj1 (Forall_forall _ _) (splitComma_no_comma _ p Hp)).
    exact (elem_of_sublist _ _ _ Hc (chars_trim p)).
Qed.

Lemma parseEraseTerms_distinct_witness :
  "Foo" ∈ parseEraseTerms (Some "foo, Foo,foo ,, bar").
Proof.
  apply (proj1 (proj2 (proj2 (proj2
           (parseEraseTerms_distinct (Some "foo, Foo,foo ,, bar")))))).
  vm_compute. right. left.
Defined.

(** The two spellings stay, the repetition and the empty piece go. *)
Example parseEraseTerms_example :
  parseEraseTerms (Some "foo, Foo,foo ,, bar") = ["foo"; "Foo"; "bar"].
Proof. vm_compute. reflexivity. Qed.

(** *** Uploads and the image map of [onSubmit] *)

Lemma image_map_is_Some (us : list LogoUpload) (u : LogoUpload) :
  u ∈ us -> is_Some (image_map us !! u_rect_idx u).
Proof.
  unfold image_map. induction us as [|u' us IH] using rev_ind;
    [intros H; by apply elem_of_nil in H |].
  rewrite foldl_snoc. intros Hu. apply elem_of_app in Hu as [Hu|Hu].
  - destruct (decide (u_rect_idx u' = u_rect_idx u)) as [E|N].
    + rewrite E, lookup_insert_eq. eauto.
    + rewrite lookup_insert_ne by exact N. apply IH, Hu.
  - apply list_elem_of_singleton in Hu as ->. rewrite lookup_insert_eq. eauto.
Qed.

Lemma uploads_NoDup (es : list Entry) :
  NoDup (u_rect_idx <$> (imap (fun i (e : Entry) => uploadOf i e.2) es ≫= option_list)).
Proof.
  induction es as [|e es IH] using rev_ind; [constructor |].
  rewrite imap_app, bind_app, fmap_app. cbn [imap]. rewrite bind_cons.
  cbn [mbind list_bind]. rewrite app_nil_r, Nat.add_0_r.
  apply NoDup_app. split; [exact IH |]. split.
  - intros k Hk Hk'. apply list_elem_of_fmap in Hk as (u & -> & Hu).
    apply upload_elem in Hu as (i & e' & Hi & Hu).
    apply uploadOf_Some in Hu as (_ & _ & Hidx & _).
    apply lookup_lt_Some in Hi.
    destruct (uploadOf (length es) e.2) as [u2|] eqn:H2; cbn in Hk'.
    + apply list_elem_of_singleton in Hk'.
      apply uploadOf_Some in H2 as (_ & _ & Hidx2 & _). lia.
    + by apply elem_of_nil in Hk'.
  - destruct (uploadOf (length es) e.2); cbn; [apply NoDup_singleton | constructor].
Qed.

(** X9. In what [buildPayloadAndLogos] and [onSubmit] send, every upload is
    found in [image_map] under its own [rect_idx] with its own field name,
    no two uploads share a [rect_idx], the map has as many keys as there are
    uploads, and each key is the index of a zone of kind [logo]. *)
Theorem uploads_indexed (st : State) (doc : list PageGeom) :
  pdfDoc st = Some doc -> (numPages st <= length doc)%nat ->
  exists zs us,
    buildPayloadAndLogos st = Some (zs, us) /\
    NoDup (u_rect_idx <$> us) /\
    size (image_map us) = length us /\
    forall u, u ∈ us ->
      image_map us !! u_rect_idx u = Some (field u) /\
      field u = "logo_" +:+ pretty (u_rect_idx u) /\
      exists z, zs !! u_rect_idx u = Some z /\ zkind z = "logo" /\
                rect_idx z = u_rect_idx u.
Proof.
  intros Hdoc Hn.
  eexists _, _. split; [apply (buildPayloadAndLogos_closed st doc Hdoc Hn) |].
  set (es := entries doc (pageRects st) (numPages st)).
  set (us := imap (fun i (e : Entry) => uploadOf i e.2) es ≫= option_list).
  assert (Hnd : NoDup (u_rect_idx <$> us)) by apply uploads_NoDup.
  split; [exact Hnd |]. split.
  - clear -Hnd. unfold image_map. induction us as [|u us IH] using rev_ind; [reflexivity |].
    rewrite foldl_snoc. rewrite fmap_app in Hnd. apply NoDup_app in Hnd as (Hnd & Hdis & _).
    rewrite map_size_insert_None.
    + rewrite IH by exact Hnd. rewrite length_app. cbn. lia.
    + destruct (foldl _ ∅ us !! u_rect_idx u) as [v|] eqn:Hv; [| reflexivity].
      apply image_map_lookup in Hv as (u' & Hu' & Hi & _).
      exfalso. apply (Hdis (u_rect_idx u)).
      * rewrite <- Hi. apply list_elem_of_fmap_2, Hu'.
      * cbn. left.
  - intros u Hu. pose proof Hu as Hu0.
    apply upload_elem in Hu as (i & e & Hi & Hup).
    apply uploadOf_Some in Hup as (Hlogo & _ & Hidx & Hfield).
    split; [| split].
    + destruct (image_map_is_Some us u Hu0) as [v Hv]. rewrite Hv. f_equal.
      apply image_map_lookup in Hv as (u' & Hu' & Hi' & <-).
      apply upload_elem in Hu' as (j & e' & _ & Hup').
      apply uploadOf_Some in Hup' as (_ & _ & Hidx' & Hfield').
      rewrite Hfield, Hfield'. congruence.
    + rewrite Hfield, Hidx. reflexivity.
    + exists (entryZone i e). rewrite Hidx. split; [| split; [exact Hlogo | reflexivity]].
      apply zone_lookup. exists e. split; [exact Hi | reflexivity].
Qed.

Lemma uploads_indexed_witness :
  exists zs us,
    buildPayloadAndLogos
      (setRectLogoFile 0 (Some "X.png")
         (updateRectKind 0 "logo" (drag (10, 10) (110, 60) (session 1 (800, 600)))))
    = Some (zs, us) /\
    NoDup (u_rect_idx <$> us) /\ size (image_map us) = length us.
Proof.
  destruct (uploads_indexed
              (setRectLogoFile 0 (Some "X.png")
                 (updateRectKind 0 "logo" (drag (10, 10) (110, 60) (session 1 (800, 600)))))
              [letter] eq_refl (le_n 1)) as (zs & us & Hb & Hn & Hs & _).
  exists zs, us. auto.
Defined.

End App1MoreFacts.

(** ** A committed rectangle is painted where it was drawn (binary64) *)

Section PaintFFacts.

Import Transform App1.
Local Open Scope Q_scope.

Lemma span_abs (s c : Q) : Qmax s c - Qmin s c == Qabs (c - s).
Proof.
  destruct (Qlt_le_dec s c) as [Hsc|Hcs].
  - rewrite (Q.max_r s c), (Q.min_l s c) by lra. symmetry. apply Qabs_pos. lra.
  - rewrite (Q.max_l s c), (Q.min_r s c) by lra.
    rewrite Qabs_neg by lra. ring.
Qed.

Lemma Qabs_near (a b e : Q) : Qabs (a - b) <= e -> Qabs (Qabs a - Qabs b) <= e.
Proof.
  intros H. apply Qabs_Qle_condition.
  pose proof (Qabs_triangle_reverse a b) as H1.
  pose proof (Qabs_triangle_reverse b a) as H2.
  rewrite (Qabs_Qminus b a) in H2. split; lra.
Qed.

(** Along one axis: ends further apart than the tolerance have distinct
    normalized coordinates. *)
Lemma axis_distinctF (s c W : Q) :
  0 < W -> 0 <= s -> s <= W -> 0 <= c -> c <= W ->
  TransformF.tolerance W < Qabs (c - s) ->
  ~ F64.div (Qmin (clamp 0 W s) (clamp 0 W c)) W
    == F64.div (Qmax (clamp 0 W s) (clamp 0 W c)) W.
Proof.
  intros HW Hs0 Hs1 Hc0 Hc1 Hgap He.
  destruct eta_bounds as [He0 He1].
  destruct (axis_clamped s c W Hs0 Hs1 Hc0 Hc1) as (Emin & Emax & L0 & L1 & R0 & R1).
  rewrite <- span_abs in Hgap. unfold TransformF.tolerance in Hgap.
  rewrite <- Emin, <- Emax in Hgap.
  rewrite <- Emin in L0, L1. rewrite <- Emax in R0, R1. clear Emin Emax.
  set (lo := Qmin (clamp 0 W s) (clamp 0 W c)) in *.
  set (hi := Qmax (clamp 0 W s) (clamp 0 W c)) in *.
  destruct (div_unit lo W HW L0 L1) as [Ql0 Ql1].
  destruct (div_unit hi W HW R0 R1) as [Qh0 Qh1].
  pose proof (div_mul_cancel lo W HW) as El. pose proof (div_mul_cancel hi W HW) as Eh.
  unfold F64.div in He.
  destruct (rnd_bounds (lo / W) 1) as [_ Hl]; [rewrite Qabs_pos by exact Ql0; exact Ql1 |].
  destruct (rnd_bounds (hi / W) 1) as [Hh _]; [rewrite Qabs_pos by exact Qh0; exact Qh1 |].
  rewrite He in Hl.
  assert (Hq : hi / W - lo / W <= 2 * F64.u + 2 * F64.eta) by lra.
  assert (Hm : (hi / W - lo / W) * W <= (2 * F64.u + 2 * F64.eta) * W)
    by (apply Qmult_le_compat_r; lra).
  assert (E : (hi / W - lo / W) * W == hi - lo) by (rewrite <- El, <- Eh at 2; ring).
  rewrite E in Hm.
  assert (HeW : F64.eta * W <= (1 # 1267650600228229401496703205376) * W)
    by (apply Qmult_le_compat_r; lra).
  unfold F64.u in *. lra.
Qed.

(** Along one axis: the box of the round trip of the ends next to the box
    of the ends. *)
Lemma axis_box (s c W x1' x2' : Q) :
  0 < W -> 0 <= s -> s <= W -> 0 <= c -> c <= W ->
  Qabs (x1' - Qmin s c) <= TransformF.tolerance W ->
  Qabs (x2' - Qmax s c) <= TransformF.tolerance W ->
  Qabs (Qmin x1' x2' - Qmin s c) <= 5 * TransformF.tolerance W /\
  Qabs (Qabs (F64.sub x2' x1') - Qabs (F64.sub c s)) <= 5 * TransformF.tolerance W.
Proof.
  intros HW Hs0 Hs1 Hc0 Hc1 H1 H2. destruct eta_bounds as [He0 He1].
  pose proof (span_abs s c) as Hspan.
  assert (Hord : 0 <= Qmin s c /\ Qmin s c <= Qmax s c /\ Qmax s c <= W).
  { destruct (Q.min_spec s c) as [[? ->]|[? ->]];
      destruct (Q.max_spec s c) as [[? ->]|[? ->]]; repeat split; lra. }
  destruct Hord as (Hlo & Hlh & Hhi).
  set (lo := Qmin s c) in *. set (hi := Qmax s c) in *.
  set (t := TransformF.tolerance W) in *.
  assert (Ht : t == 4 * F64.u * W + F64.eta) by reflexivity.
  assert (Ht0 : 0 <= t) by (rewrite Ht; unfold F64.u; nra).
  apply Qabs_Qle_condition in H1. apply Qabs_Qle_condition in H2.
  split.
  - apply Qabs_Qle_condition.
    destruct (Q.min_spec x1' x2') as [[? ->]|[? ->]]; split; lra.
  - assert (Hd : Qabs (c - s) <= W) by (rewrite <- Hspan; lra).
    assert (Hd' : Qabs (x2' - x1') <= W + 2 * t).
    { apply Qabs_Qle_condition. split; lra. }
    destruct (rnd_bounds (c - s) W Hd) as [A1 A2].
    destruct (rnd_bounds (x2' - x1') (W + 2 * t) Hd') as [B1 B2].
    unfold F64.sub.
    destruct (Qlt_le_dec s c) as [Hsc|Hcs].
    + assert (El : lo == s) by (unfold lo; apply Q.min_l; lra).
      assert (Eh : hi == c) by (unfold hi; apply Q.max_r; lra).
      apply Qabs_near, Qabs_Qle_condition. unfold F64.u in *. split; lra.
    + (* [c <= s]: the ends were swapped, and both widths are absolute values *)
      assert (El : lo == c) by (unfold lo; apply Q.min_r; lra).
      assert (Eh : hi == s) by (unfold hi; apply Q.max_l; lra).
      rewrite <- (Qabs_opp (F64.rnd (c - s))).
      apply Qabs_near, Qabs_Qle_condition. unfold F64.u in *. split; lra.
Qed.

(** X7. A drag that stays on the surface and is wider and taller than the
    floating-point tolerance is committed by the release, and the box
    painted for the new rectangle, computed in binary64 as the program
    does, is the box the rubber band had within five tolerances: corner,
    width and height.  The rubber band itself is gone. *)
Theorem commit_painted_where_drawn (st : State) (W H : Q) :
  overlay st = Some (W, H) -> 0 < W -> 0 < H -> isDrawing st = true ->
  0 <= (startPos st).1 <= W -> 0 <= (currentPos st).1 <= W ->
  0 <= (startPos st).2 <= H -> 0 <= (currentPos st).2 <= H ->
  TransformF.tolerance W < Qabs ((currentPos st).1 - (startPos st).1) ->
  TransformF.tolerance H < Qabs ((currentPos st).2 - (startPos st).2) ->
  exists b band,
    App1F.paintedRects (App1F.handlePointerUp st) = App1F.paintedRects st ++ [b] /\
    App1F.paintedBand st = [band] /\ App1F.paintedBand (App1F.handlePointerUp st) = [] /\
    App1F.box_close (5 * TransformF.tolerance W) (5 * TransformF.tolerance H) b band.
Proof.
  intros Ho HW HH Hd [Sx0 Sx1] [Cx0 Cx1] [Sy0 Sy1] [Cy0 Cy1] Hx Hy.
  destruct st as [fs ai pd np pn z ov dr sp cp prs].
  cbn [overlay isDrawing startPos currentPos] in *. subst ov dr.
  pose proof (axis_distinctF sp.1 cp.1 W HW Sx0 Sx1 Cx0 Cx1 Hx) as Nx.
  pose proof (axis_distinctF sp.2 cp.2 H HH Sy0 Sy1 Cy0 Cy1 Hy) as Ny.
  assert (Hup : App1F.handlePointerUp
                  (mkState fs ai pd np pn z (Some (W, H)) true sp cp prs)
                = mkState fs ai pd np pn z (Some (W, H)) false sp cp
                    (pushRect pn (TransformF.normalizeRect (mkPx sp.1 sp.2 cp.1 cp.2) W H)
                       prs)).
  { unfold App1F.handlePointerUp.
    cbn [isDrawing set_drag overlay startPos currentPos pageNumber pageRects negb
         fmap option_fmap option_map default from_option fst snd].
    unfold id.
    assert (E1 : Qeq_bool W 0 = false).
    { destruct (Qeq_bool W 0) eqn:E; [| reflexivity]. apply Qeq_bool_iff in E. lra. }
    assert (E2 : Qeq_bool H 0 = false).
    { destruct (Qeq_bool H 0) eqn:E; [| reflexivity]. apply Qeq_bool_iff in E. lra. }
    rewrite E1, E2. cbn [orb].
    match goal with |- context [negb (Qeq_bool ?a ?b) && negb (Qeq_bool ?c ?d)] =>
      destruct (Qeq_bool a b) eqn:Ex; [apply Qeq_bool_iff in Ex; contradiction |];
      destruct (Qeq_bool c d) eqn:Ey; [apply Qeq_bool_iff in Ey; contradiction |]
    end.
    reflexivity. }
  rewrite Hup.
  exists (App1F.boxOf
            (TransformF.denormalizeRect
               (TransformF.normalizeRect (mkPx sp.1 sp.2 cp.1 cp.2) W H) W H)),
         (App1F.boxOf (mkPx sp.1 sp.2 cp.1 cp.2)).
  split; [| split; [reflexivity | split; [reflexivity |]]].
  - unfold App1F.paintedRects, rectsForPage, pushRect.
    cbn [overlay pageRects pageNumber]. rewrite lookup_insert_eq.
    cbn [default from_option]. unfold id. rewrite fmap_app. reflexivity.
  - destruct (axis_roundtrip_clamped sp.1 cp.1 W HW Sx0 Sx1 Cx0 Cx1) as [Ex1 Ex2].
    destruct (axis_roundtrip_clamped sp.2 cp.2 H HH Sy0 Sy1 Cy0 Cy1) as [Ey1 Ey2].
    destruct (axis_box _ _ W _ _ HW Sx0 Sx1 Cx0 Cx1 Ex1 Ex2) as [Bx Bw].
    destruct (axis_box _ _ H _ _ HH Sy0 Sy1 Cy0 Cy1 Ey1 Ey2) as [By Bh].
    repeat split; assumption.
Qed.

End PaintFFacts.

Lemma commit_painted_where_drawn_witness :
  exists b band,
    App1F.paintedRects
      (App1F.handlePointerUp
         (App1.handlePointerMove (10, 60)%Q
            (App1.handlePointerDown (110, 10)%Q (App1.session 1 (800, 600)%Q))))
    = App1F.paintedRects
        (App1.handlePointerMove (10, 60)%Q
           (App1.handlePointerDown (110, 10)%Q (App1.session 1 (800, 600)%Q)))
        ++ [b] /\
    App1F.paintedBand
      (App1.handlePointerMove (10, 60)%Q
         (App1.handlePointerDown (110, 10)%Q (App1.session 1 (800, 600)%Q)))
    = [band] /\
    App1F.paintedBand
      (App1F.handlePointerUp
         (App1.handlePointerMove (10, 60)%Q
            (App1.handlePointerDown (110, 10)%Q (App1.session 1 (800, 600)%Q))))
    = [] /\
    App1F.box_close (5 * TransformF.tolerance 800) (5 * TransformF.tolerance 600) b band.
Proof.
  apply (commit_painted_where_drawn
           (App1.handlePointerMove (10, 60)%Q
              (App1.handlePointerDown (110, 10)%Q (App1.session 1 (800, 600)%Q)))
           800 600);
    try reflexivity; try (split; discriminate); vm_compute; reflexivity.
Defined.

(** The painted width of that rectangle is not the width of the drag: the
    program paints [100.00000000000001] for a drag of [100] pixels. *)
Example painted_width_inexact :
  App1More.bw <$> App1F.paintedRects
      (App1F.drag (110, 10)%Q (10, 60)%Q (App1.session 1 (800, 600)%Q))
    = [7036874417766401 # 70368744177664]%Q.
Proof. vm_compute. reflexivity. Qed.

(** ** File intake, client filter and replacement map of [PDFSanitizerApp.jsx] *)

Section HomeFacts.

Import App Home.

(** The built-in; nothing is assumed of it. *)
Variable toLowerCase : string -> string.

(** X10. [filterClients] keeps the options in their order; an absent,
    empty or blank query keeps them all; otherwise exactly the options whose
    lower-case form contains the trimmed lower-case query are kept, and
    filtering the result again with the same query changes nothing. *)
Theorem filterClients_sound (q : option string) (opts : list string) :
  filterClients toLowerCase q opts `sublist_of` opts /\
  (nonEmpty (toLowerCase (trim (default EmptyString q))) = false ->
     filterClients toLowerCase q opts = opts) /\
  (nonEmpty (toLowerCase (trim (default EmptyString q))) = true ->
     forall c, c ∈ filterClients toLowerCase q opts <->
               c ∈ opts /\
               includes (toLowerCase (trim (default EmptyString q))) (toLowerCase c) = true) /\
  filterClients toLowerCase q (filterClients toLowerCase q opts)
  = filterClients toLowerCase q opts.
Proof.
  unfold filterClients. destruct (nonEmpty _) eqn:Hs.
  - split; [apply sublist_filter |]. split; [discriminate |]. split.
    + intros _ c. rewrite list_elem_of_filter. tauto.
    + rewrite list_filter_filter. apply list_filter_iff. tauto.
  - split; [reflexivity |]. split; [reflexivity |]. split; [discriminate | reflexivity].
Qed.

(** *** [addFiles] *)

Lemma foldl_merge (existing : gset string) (pdfs files : list FileInfo) :
  foldl (fun merged f => if bool_decide (key f ∈ existing) then merged else merged ++ [f])
        files pdfs
  = files ++ filter (fun f => key f ∉ existing) pdfs.
Proof.
  revert files. induction pdfs as [|f pdfs IH]; intros files.
  - cbn. rewrite app_nil_r. reflexivity.
  - cbn [foldl]. rewrite IH, filter_cons.
    destruct (decide (key f ∉ existing)) as [Hn|Hi].
    + rewrite bool_decide_eq_false_2 by exact Hn. rewrite <- app_assoc. reflexivity.
    + rewrite bool_decide_eq_true_2 by (destruct (decide (key f ∈ existing)); tauto).
      reflexivity.
Qed.

Lemma addFiles_closed (incoming files : list FileInfo) :
  (addFiles toLowerCase incoming files).1
  = files ++ filter (fun f => key f ∉ key <$> files)
               (filter (fun f => isPdf toLowerCase f = true) incoming).
Proof.
  unfold addFiles. cbn [fst]. rewrite foldl_merge. f_equal.
  apply list_filter_iff. intros f. rewrite elem_of_list_to_set. tauto.
Qed.

(** X11. [addFiles] keeps the files already selected, in place, and
    appends, in their order, the incoming files that pass [isPdf] and whose
    name-and-size key is not among the selected ones; it shows one alert per
    incoming file that fails [isPdf].  Adding the same batch again adds
    nothing, and when the selected files have distinct keys and so do the
    incoming PDFs, the result has distinct keys. *)
Theorem addFiles_merge (incoming files : list FileInfo) :
  (exists added,
     (addFiles toLowerCase incoming files).1 = files ++ added /\
     added `sublist_of` incoming /\
     forall f, f ∈ added <->
       f ∈ incoming /\ isPdf toLowerCase f = true /\ key f ∉ key <$> files) /\
  length (addFiles toLowerCase incoming files).2
  = length (filter (fun f => isPdf toLowerCase f <> true) incoming) /\
  (addFiles toLowerCase incoming (addFiles toLowerCase incoming files).1).1
  = (addFiles toLowerCase incoming files).1 /\
  (NoDup (key <$> files) ->
   NoDup (key <$> filter (fun f => isPdf toLowerCase f = true) incoming) ->
   NoDup (key <$> (addFiles toLowerCase incoming files).1)).
Proof.
  split; [| split; [| split]].
  - eexists. split; [apply addFiles_closed |]. split.
    + etransitivity; apply sublist_filter.
    + intros f. rewrite !list_elem_of_filter. tauto.
  - unfold addFiles. cbn [snd]. apply length_fmap.
  - rewrite (addFiles_closed incoming (addFiles toLowerCase incoming files).1).
    set (once := (addFiles toLowerCase incoming files).1).
    assert (Hnil : filter (fun f => key f ∉ key <$> once)
                     (filter (fun f => isPdf toLowerCase f = true) incoming) = []);
      [| rewrite Hnil; apply app_nil_r].
    subst once. apply elem_of_nil_inv. intros f Hf.
    apply list_elem_of_filter in Hf as [Hk Hf]. apply Hk.
    rewrite addFiles_closed, fmap_app, elem_of_app.
    destruct (decide (key f ∈ key <$> files)) as [Hin|Hout]; [left; exact Hin |].
    right. apply list_elem_of_fmap_2, list_elem_of_filter. split; assumption.
  - intros Hf Hp. rewrite addFiles_closed, fmap_app. apply NoDup_app. split; [exact Hf |].
    split.
    + intros k Hk Hk'. apply list_elem_of_fmap in Hk' as (f & -> & Hin).
      apply list_elem_of_filter in Hin as [Hn _]. contradiction.
    + eapply sublist_NoDup; [exact Hp |]. apply fmap_sublist, sublist_filter.
Qed.

End HomeFacts.

(** *** [parseReplacementMap] *)

Section ReplacementMapFacts.

Import App Home.

(** The built-in; nothing is assumed of it. *)
Variable JSON_parse : string -> JsonResult.

Lemma setProp_foldl (l : list (string * string)) (m : gmap string string) :
  foldl (fun m kv => setProp kv.1 kv.2 m) m l
  = list_to_map (reverse (filter stored l)) ∪ m.
Proof.
  revert m. induction l as [|[k v] l IH]; intros m.
  - cbn. rewrite (left_id_L ∅ (∪)). reflexivity.
  - cbn [foldl]. rewrite IH, filter_cons. unfold setProp at 1. cbn [fst snd].
    destruct (String.eqb_spec k "__proto__") as [->|Hk].
    + rewrite decide_False by (unfold stored; cbn; tauto). reflexivity.
    + rewrite decide_True by exact Hk.
      rewrite reverse_cons, list_to_map_app. cbn [list_to_map foldr].
      rewrite <- (assoc_L (∪) _ _ m). f_equal.
      rewrite <- insert_union_l, (left_id_L ∅ (∪)). reflexivity.
Qed.

Lemma omap_cons_eq {A B} (f : A -> option B) (x : A) (l : list A) :
  omap f (x :: l) = from_option (fun y => y :: omap f l) (omap f l) (f x).
Proof. cbn. destruct (f x); reflexivity. Qed.

Lemma lineStep_eq (acc : Parsed) (line : string) :
  lineStep acc line
  = mkParsed (from_option (fun kv => setProp kv.1 kv.2 (map acc)) (map acc) (pairOf line))
             (errors acc ++ from_option (fun e => [e]) [] (lineError line)).
Proof.
  unfold lineStep, pairOf, lineError.
  destruct (cutAtColon line) as [[l r]|]; [destruct (nonEmpty (trim l)) |];
    cbn; rewrite ?app_nil_r; reflexivity.
Qed.

Lemma jsonStep_eq (acc : Parsed) (kv : string * string) :
  jsonStep acc kv
  = mkParsed (from_option (fun kv => setProp kv.1 kv.2 (map acc)) (map acc) (jsonPairOf kv))
             (errors acc ++ (if jsonPairOf kv is Some _ then [] else ["Empty key in JSON"])).
Proof.
  unfold jsonStep, jsonPairOf.
  destruct (nonEmpty (trim kv.1)); cbn; rewrite ?app_nil_r; reflexivity.
Qed.

Lemma lineStep_foldl (lines : list string) (m : gmap string string) (errs : list string) :
  foldl lineStep (mkParsed m errs) lines
  = mkParsed (foldl (fun m kv => setProp kv.1 kv.2 m) m (omap pairOf lines))
             (errs ++ omap lineError lines).
Proof.
  revert m errs. induction lines as [|line lines IH]; intros m errs.
  - cbn. rewrite app_nil_r. reflexivity.
  - cbn [foldl]. rewrite lineStep_eq, IH, !omap_cons_eq. cbn [map errors].
    destruct (pairOf line), (lineError line); cbn [from_option foldl];
      rewrite <- ?app_assoc, ?app_nil_r; reflexivity.
Qed.

Lemma jsonStep_foldl (es : list (string * string)) (m : gmap string string)
    (errs : list string) :
  foldl jsonStep (mkParsed m errs) es
  = mkParsed (foldl (fun m kv => setProp kv.1 kv.2 m) m (omap jsonPairOf es))
             (errs ++ replicate (length (filter (fun kv => jsonPairOf kv = None) es))
                                "Empty key in JSON").
Proof.
  revert m errs. induction es as [|kv es IH]; intros m errs.
  - cbn. rewrite app_nil_r. reflexivity.
  - cbn [foldl]. rewrite jsonStep_eq, IH, omap_cons_eq, filter_cons. cbn [map errors].
    destruct (jsonPairOf kv) as [p|]; cbn [from_option foldl].
    + rewrite decide_False by discriminate. rewrite app_nil_r. reflexivity.
    + rewrite decide_True by reflexivity. cbn [length replicate].
      rewrite <- app_assoc. reflexivity.
Qed.

Lemma pairOf_tidy (line k v : string) :
  pairOf line = Some (k, v) -> nonEmpty k = true /\ trim k = k /\ trim v = v.
Proof.
  unfold pairOf. destruct (cutAtColon line) as [[l r]|]; [| discriminate].
  destruct (nonEmpty (trim l)) eqn:Hl; [| discriminate].
  intros [= <- <-]. split; [exact Hl |]. split; apply trim_fixed.
Qed.

Lemma jsonPairOf_tidy (kv : string * string) (k v : string) :
  jsonPairOf kv = Some (k, v) -> nonEmpty k = true /\ trim k = k /\ trim v = v.
Proof.
  unfold jsonPairOf. destruct (nonEmpty (trim kv.1)) eqn:Hl; [| discriminate].
  intros [= <- <-]. split; [exact Hl |]. split; apply trim_fixed.
Qed.

Lemma stored_map_lookup {A} (f : A -> option (string * string)) (l : list A)
    (k v : string) :
  (list_to_map (reverse (filter stored (omap f l))) : gmap string string) !! k = Some v ->
  k <> "__proto__" /\ exists a, a ∈ l /\ f a = Some (k, v).
Proof.
  intros H. apply elem_of_list_to_map_2 in H.
  rewrite elem_of_reverse in H. apply list_elem_of_filter in H as [Hs H].
  apply list_elem_of_omap in H as (a & Ha & Hf).
  split; [exact Hs | exists a; split; assumption].
Qed.

Lemma stored_map_tidy {A} (f : A -> option (string * string)) (l : list A) :
  (forall a k v, f a = Some (k, v) -> nonEmpty k = true /\ trim k = k /\ trim v = v) ->
  tidy (list_to_map (reverse (filter stored (omap f l)))) /\
  (list_to_map (reverse (filter stored (omap f l))) : gmap string string) !! "__proto__" = None.
Proof.
  intros Hf. split.
  - intros k v H. apply stored_map_lookup in H as (_ & a & _ & Ha). exact (Hf a k v Ha).
  - destruct (_ !! "__proto__") as [v|] eqn:H; [| reflexivity].
    apply stored_map_lookup in H as [Hk _]. contradiction.
Qed.

(** The result of the line loop from an empty object. *)
Lemma lineMode_closed (errs : list string) (lines : list string) :
  foldl lineStep (mkParsed ∅ errs) lines
  = mkParsed (list_to_map (reverse (filter stored (omap pairOf lines))))
             (errs ++ omap lineError lines).
Proof.
  rewrite lineStep_foldl, setProp_foldl, (right_id_L ∅ (∪)). reflexivity.
Qed.

Lemma pairs_and_errors (lines : list string) :
  (length (omap lineError lines) + length (omap pairOf lines) = length lines)%nat.
Proof.
  induction lines as [|line lines IH]; [reflexivity |].
  rewrite !omap_cons_eq.
  assert (H : (exists p, pairOf line = Some p /\ lineError line = None) \/
              (exists e, pairOf line = None /\ lineError line = Some e)).
  { unfold pairOf, lineError.
    destruct (cutAtColon line) as [[l r]|]; [destruct (nonEmpty (trim l)) |]; eauto. }
  destruct H as [(p & -> & ->)|(e & -> & ->)]; cbn [from_option length]; lia.
Qed.

Lemma parseReplacementMap_shape (raw : option string) :
  exists (A : Type) (f : A -> option (string * string)) (l : list A),
    (forall a k v, f a = Some (k, v) -> nonEmpty k = true /\ trim k = k /\ trim v = v) /\
    map (parseReplacementMap JSON_parse raw)
    = list_to_map (reverse (filter stored (omap f l))).
Proof.
  unfold parseReplacementMap.
  destruct (nonEmpty (trim (default EmptyString raw))); cbn [negb].
  2:{ exists string, pairOf, []. split; [apply pairOf_tidy | reflexivity]. }
  destruct (String.prefix _ _); [destruct (JSON_parse _) as [| |es] |].
  - exists string, pairOf, (eraseTerms (trim (default EmptyString raw))).
    split; [apply pairOf_tidy |]. rewrite lineMode_closed. reflexivity.
  - exists string, pairOf, (eraseTerms (trim (default EmptyString raw))).
    split; [apply pairOf_tidy |]. rewrite lineMode_closed. reflexivity.
  - exists (string * string)%type, jsonPairOf, es.
    split; [apply jsonPairOf_tidy |].
    rewrite jsonStep_foldl, setProp_foldl, (right_id_L ∅ (∪)). reflexivity.
  - exists string, pairOf, (eraseTerms (trim (default EmptyString raw))).
    split; [apply pairOf_tidy |]. rewrite lineMode_closed. reflexivity.
Qed.

(** X12. Whatever [JSON.parse] does, every key of the map returned by
    [parseReplacementMap] is non-empty and trimmed, every value is trimmed,
    and [__proto__] is never a key; an absent, empty or blank input gives the
    empty map and no error.  For a text that does not start with a brace the
    map is the one built from the pairs of the lines, a later line winning
    over an earlier one with the same key, and every line gives either a pair
    or exactly one error. *)
Theorem parseReplacementMap_lines (raw : option string) :
  let text := trim (default EmptyString raw) in
  let r := parseReplacementMap JSON_parse raw in
  tidy (map r) /\ map r !! "__proto__" = None /\
  (nonEmpty text = false -> map r = ∅ /\ errors r = []) /\
  (String.prefix "{" text = false ->
     map r = list_to_map (reverse (filter stored (omap pairOf (eraseTerms text)))) /\
     errors r = omap lineError (eraseTerms text) /\
     (length (errors r) + length (omap pairOf (eraseTerms text))
      = length (eraseTerms text))%nat).
Proof.
  intros text r.
  destruct (parseReplacementMap_shape raw) as (A & f & l & Hf & Hm).
  fold r in Hm. destruct (stored_map_tidy f l Hf) as [Ht Hp].
  rewrite <- Hm in Ht, Hp.
  split; [exact Ht |]. split; [exact Hp |]. subst r text.
  unfold parseReplacementMap.
  destruct (nonEmpty (trim (default EmptyString raw))) eqn:Hne; cbn [negb].
  - split; [discriminate |]. intros ->. rewrite lineMode_closed. cbn [map errors app].
    split; [reflexivity |]. split; [reflexivity |]. apply pairs_and_errors.
  - split; [intros _; split; reflexivity |]. intros _.
    apply nonEmpty_false in Hne. rewrite Hne. cbn. repeat split.
Qed.

(** X13. For a text that starts with a brace: when [JSON.parse] returns
    an object the lines are not read, the map is built from the entries
    with a non-empty trimmed key (a later entry winning) and there is one
    error per entry whose key trims to nothing; when it throws or returns
    something else, the text is read as lines all the same, and the result is
    that of the line loop with one more error in front. *)
Theorem parseReplacementMap_brace (raw : option string) :
  let text := trim (default EmptyString raw) in
  let r := parseReplacementMap JSON_parse raw in
  let byLines := foldl lineStep (mkParsed ∅ []) (eraseTerms text) in
  String.prefix "{" text = true ->
  match JSON_parse text with
  | JsonObject es =>
      map r = list_to_map (reverse (filter stored (omap jsonPairOf es))) /\
      errors r = replicate (length (filter (fun kv => jsonPairOf kv = None) es))
                           "Empty key in JSON"
  | JsonNotObject =>
      map r = map byLines /\ errors r = jsonShape :: errors byLines
  | JsonThrows =>
      map r = map byLines /\
      errors r = "Invalid JSON. Use object or line pairs old:new" :: errors byLines
  end.
Proof.
  intros text r byLines Hb. subst r byLines. unfold parseReplacementMap. fold text.
  assert (Hne : nonEmpty text = true).
  { destruct text; [discriminate Hb | reflexivity]. }
  rewrite Hne, Hb. cbn [negb].
  destruct (JSON_parse text) as [| |es].
  - rewrite !lineMode_closed. split; reflexivity.
  - rewrite !lineMode_closed. split; reflexivity.
  - rewrite jsonStep_foldl, setProp_foldl, (right_id_L ∅ (∪)). split; reflexivity.
Qed.

End ReplacementMapFacts.

Example filterClients_self_tests :
  Home.filterClients App.lowerASCII (Some EmptyString) ["A"; "B"] = ["A"; "B"] /\
  Home.filterClients App.lowerASCII (Some "a") ["Bar"; "baz"; "Qux"] = ["Bar"; "baz"] /\
  Home.isPdf App.lowerASCII (Home.mkFile "x.PDF" EmptyString 0) = true.
Proof. repeat split. Qed.

Lemma filterClients_sound_witness :
  "Bar" ∈ Home.filterClients App.lowerASCII (Some " A ") ["Bar"; "baz"; "Qux"] <->
  "Bar" ∈ ["Bar"; "baz"; "Qux"] /\
  Home.includes (App.lowerASCII (App.trim (default EmptyString (Some " A "))))
                (App.lowerASCII "Bar") = true.
Proof.
  apply (proj1 (proj2 (proj2
    (filterClients_sound App.lowerASCII (Some " A ") ["Bar"; "baz"; "Qux"])))).
  reflexivity.
Defined.

(** The set of selected keys is read once, before the loop: the same file
    twice in one batch is added twice. *)
Example addFiles_same_batch :
  (Home.addFiles App.lowerASCII
     [Home.mkFile "a.pdf" "application/pdf" 10; Home.mkFile "a.pdf" "application/pdf" 10;
      Home.mkFile "notes.txt" "text/plain" 3] []).1
  = [Home.mkFile "a.pdf" "application/pdf" 10; Home.mkFile "a.pdf" "application/pdf" 10].
Proof. vm_compute. reflexivity. Qed.

Lemma addFiles_merge_witness :
  NoDup (Home.key <$>
    (Home.addFiles App.lowerASCII
       [Home.mkFile "a.pdf" "application/pdf" 10; Home.mkFile "b.PDF" EmptyString 10;
        Home.mkFile "notes.txt" "text/plain" 3]
       [Home.mkFile "a.pdf" "application/pdf" 10]).1).
Proof.
  apply (proj2 (proj2 (proj2 (addFiles_merge App.lowerASCII
    [Home.mkFile "a.pdf" "application/pdf" 10; Home.mkFile "b.PDF" EmptyString 10;
     Home.mkFile "notes.txt" "text/plain" 3]
    [Home.mkFile "a.pdf" "application/pdf" 10])))).
  - vm_compute. apply NoDup_singleton.
  - vm_compute. apply NoDup_cons. split; [| apply NoDup_singleton].
    intros H. apply list_elem_of_singleton in H. discriminate H.
Defined.

Lemma parseReplacementMap_lines_witness :
  Home.map (Home.parseReplacementMap Home.parseThrows (Some "a:b, c , a: d ,:e"))
  = list_to_map (reverse (filter Home.stored (omap Home.pairOf
      (App.eraseTerms (App.trim (default EmptyString (Some "a:b, c , a: d ,:e"))))))) /\
  Home.errors (Home.parseReplacementMap Home.parseThrows (Some "a:b, c , a: d ,:e"))
  = omap Home.lineError
      (App.eraseTerms (App.trim (default EmptyString (Some "a:b, c , a: d ,:e")))) /\
  (length (Home.errors (Home.parseReplacementMap Home.parseThrows (Some "a:b, c , a: d ,:e")))
   + length (omap Home.pairOf
       (App.eraseTerms (App.trim (default EmptyString (Some "a:b, c , a: d ,:e")))))
   = length (App.eraseTerms (App.trim (default EmptyString (Some "a:b, c , a: d ,:e")))))%nat.
Proof.
  apply (proj2 (proj2 (proj2
    (parseReplacementMap_lines Home.parseThrows (Some "a:b, c , a: d ,:e"))))).
  reflexivity.
Defined.

Example parseReplacementMap_example :
  map_to_list (Home.map (Home.parseReplacementMap Home.parseThrows
                           (Some "a:b, c , a: d ,:e, __proto__:x")))
  = [("a", "d")] /\
  length (Home.errors (Home.parseReplacementMap Home.parseThrows
                         (Some "a:b, c , a: d ,:e, __proto__:x"))) = 2%nat.
Proof. vm_compute. split; reflexivity. Qed.

Lemma parseReplacementMap_brace_witness :
  match Home.parseFixed (App.trim (default EmptyString (Some " {x:1, y "))) with
  | Home.JsonObject es =>
      Home.map (Home.parseReplacementMap Home.parseFixed (Some " {x:1, y "))
      = list_to_map (reverse (filter Home.stored (omap Home.jsonPairOf es))) /\
      Home.errors (Home.parseReplacementMap Home.parseFixed (Some " {x:1, y "))
      = replicate (length (filter (fun kv => Home.jsonPairOf kv = None) es))
                  "Empty key in JSON"
  | Home.JsonNotObject =>
      Home.map (Home.parseReplacementMap Home.parseFixed (Some " {x:1, y "))
      = Home.map (foldl Home.lineStep (Home.mkParsed ∅ [])
                    (App.eraseTerms (App.trim (default EmptyString (Some " {x:1, y "))))) /\
      Home.errors (Home.parseReplacementMap Home.parseFixed (Some " {x:1, y "))
      = Home.jsonShape :: Home.errors (foldl Home.lineStep (Home.mkParsed ∅ [])
                    (App.eraseTerms (App.trim (default EmptyString (Some " {x:1, y ")))))
  | Home.JsonThrows =>
      Home.map (Home.parseReplacementMap Home.parseFixed (Some " {x:1, y "))
      = Home.map (foldl Home.lineStep (Home.mkParsed ∅ [])
                    (App.eraseTerms (App.trim (default EmptyString (Some " {x:1, y "))))) /\
      Home.errors (Home.parseReplacementMap Home.parseFixed (Some " {x:1, y "))
      = "Invalid JSON. Use object or line pairs old:new"
        :: Home.errors (foldl Home.lineStep (Home.mkParsed ∅ [])
                    (App.eraseTerms (App.trim (default EmptyString (Some " {x:1, y ")))))
  end.
Proof.
  apply (parseReplacementMap_brace Home.parseFixed (Some " {x:1, y ")).
  reflexivity.
Defined.

Example parseReplacementMap_fallback :
  map_to_list (Home.map (Home.parseReplacementMap Home.parseThrows (Some "{x:1, y")))
  = [("{x", "1")] /\
  length (Home.errors (Home.parseReplacementMap Home.parseThrows (Some "{x:1, y"))) = 2%nat /\
  map_to_list (Home.map (Home.parseReplacementMap Home.parseFixed (Some "{x:1, y")))
  = [("a", "d")] /\
  Home.errors (Home.parseReplacementMap Home.parseFixed (Some "{x:1, y"))
  = ["Empty key in JSON"].
Proof. vm_compute. repeat split. Qed.


(** ** Sessions on the rectangle step of [PDFSanitizerApp.jsx] *)

Section AppSessionFacts.

Import Transform App AppMore.

Local Open Scope Q_scope.

(** A property that [init] has and every operation keeps holds after every
    session. *)
Lemma run_invariant (P : State -> Prop) (ops : list Op) (st : State) :
  (forall st op, P st -> P (apply st op)) -> P st -> P (run ops st).
Proof.
  intros Hstep. revert st. induction ops as [|op ops IH]; intros st Hst; [exact Hst |].
  cbn. apply IH, Hstep, Hst.
Qed.

Lemma apply_actionsOk (st : State) (op : Op) : actionsOk st -> actionsOk (apply st op).
Proof.
  intros [Hr Ha].
  assert (Hins : forall i a,
            ((action a = "redact" /\ logoFile a = None /\ logoKey a = None)
             \/ action a = "logo") ->
            actionsOk (set_rectActions (fun prev => <[i := a]> prev) st)).
  { intros i a Hok. split.
    - intros r Hin. cbn [rectActions set_rectActions]. specialize (Hr r Hin).
      destruct (decide (i = id r)) as [->|Hne];
        [rewrite lookup_insert_eq; eauto | rewrite lookup_insert_ne by exact Hne; exact Hr].
    - intros j b. cbn [rectActions set_rectActions].
      destruct (decide (i = j)) as [->|Hne].
      + rewrite lookup_insert_eq. intros [= <-]. exact Hok.
      + rewrite lookup_insert_ne by exact Hne. apply Ha. }
  destruct op as [p|p| |newId| |i|i v|i e|i]; cbn [apply].
  - unfold onPointerDown. destruct (overlayRef st); split; assumption.
  - unfold onPointerMove. destruct (startRef st); [| split; assumption].
    destruct (drawingRef st && overlayRef st); split; assumption.
  - unfold onPointerUp. destruct (drawingRef st); [| split; assumption].
    destruct (draft st) as [d|]; [destruct (tooSmall d) |]; split; assumption.
  - unfold confirmDraft. destruct (draft st) as [d|]; [| split; assumption].
    destruct (overlayRef st); [| split; assumption]. cbn [negb]. split.
    + intros r Hin. cbn [rects rectActions] in *.
      apply elem_of_app in Hin as [Hin|Hin].
      * specialize (Hr r Hin).
        destruct (decide (newId = id r)) as [->|Hne];
          [rewrite lookup_insert_eq; eauto | rewrite lookup_insert_ne by exact Hne; exact Hr].
      * apply list_elem_of_singleton in Hin as ->. cbn [id newRect].
        rewrite lookup_insert_eq. eauto.
    + intros j b. cbn [rectActions].
      destruct (decide (newId = j)) as [->|Hne].
      * rewrite lookup_insert_eq. intros [= <-]. left. auto.
      * rewrite lookup_insert_ne by exact Hne. apply Ha.
  - split; assumption.
  - split.
    + intros r Hin. cbn [rects rectActions removeRect] in *.
      apply list_elem_of_filter in Hin as [Hne Hin].
      rewrite lookup_delete_ne by congruence. exact (Hr r Hin).
    + intros j b. cbn [rectActions removeRect].
      destruct (decide (i = j)) as [->|Hne];
        [rewrite lookup_delete_eq; discriminate | rewrite lookup_delete_ne by exact Hne; apply Ha].
  - unfold onActionChange.
    destruct (String.eqb_spec v "logo") as [_|_].
    + split.
      * intros r Hin. cbn [rectActions set_rectActions rects]. specialize (Hr r Hin).
        destruct (decide (i = id r)) as [->|Hne];
          [rewrite lookup_insert_eq; eauto | rewrite lookup_insert_ne by exact Hne; exact Hr].
      * intros j b. cbn [rectActions set_rectActions].
        destruct (decide (i = j)) as [->|Hne].
        -- rewrite lookup_insert_eq. intros [= <-]. right. reflexivity.
        -- rewrite lookup_insert_ne by exact Hne. apply Ha.
    + apply (Hins i (mkAction "redact" None None)). left. auto.
  - destruct e as [|f|f k]; cbn [onLogoChange].
    + apply Hins. right. reflexivity.
    + split; assumption.
    + apply Hins. right. reflexivity.
  - split; assumption.
Qed.

Lemma actionsOk_init : actionsOk init.
Proof.
  split.
  - intros r Hr. cbn in Hr. by apply elem_of_nil in Hr.
  - intros i a Hi. cbn in Hi. rewrite lookup_empty in Hi. discriminate.
Qed.

(** X14. Whatever the operator does on the rectangle step (draw, confirm,
    cancel, remove, change the action, choose or fail to upload a logo,
    switch file), every rectangle has an entry in [rectActions], every entry
    is [redact] or [logo], and a [redact] entry carries no file and no key. *)
Theorem actions_cover_rects (ops : list Op) : actionsOk (run ops init).
Proof. apply run_invariant; [apply apply_actionsOk | apply actionsOk_init]. Qed.

(** *** Sizes *)

Lemma Math_round_le (z : Z) (q : Q) : inject_Z z <= q -> (z <= Math_round q)%Z.
Proof.
  intros Hq. unfold Math_round. rewrite <- (Qfloor_Z z).
  apply Qfloor_resp_le. lra.
Qed.

Lemma apply_draftOk (st : State) (op : Op) : draftOk st -> draftOk (apply st op).
Proof.
  intros Hok. pose proof Hok as (Hd & Hrel & Hr).
  destruct op as [p|p| |newId| |i|i v|i e|i]; cbn [apply].
  - unfold onPointerDown. destruct (overlayRef st); [| exact Hok].
    cbn [negb]. split; [| split].
    + intros d E. apply (inj Some) in E. rewrite <- E. cbn [dw dh]. split; lra.
    + cbn [drawingRef]. discriminate.
    + exact Hr.
  - unfold onPointerMove. destruct (startRef st) as [s|]; [| exact Hok].
    destruct (drawingRef st) eqn:Hdr; cbn [andb]; [| exact Hok].
    destruct (overlayRef st); [| exact Hok].
    split; [| split].
    + intros d E. apply (inj Some) in E. rewrite <- E. cbn [dw dh].
      split; apply Qabs_nonneg.
    + cbn [drawingRef]. discriminate.
    + exact Hr.
  - unfold onPointerUp. destruct (drawingRef st) eqn:Hdr; [| exact Hok].
    cbn [negb]. destruct (draft st) as [d|] eqn:Hdraft.
    + destruct (tooSmall d) eqn:Hs.
      * split; [| split]; [intros ? [=] | intros _ ? [=] | exact Hr].
      * split; [| split]; [| | exact Hr].
        -- intros d' E. cbn [draft] in E. apply (inj Some) in E. subst d'.
           apply (proj1 Hok). exact Hdraft.
        -- intros _ d' E. cbn [draft] in E. apply (inj Some) in E. subst d'.
           unfold tooSmall in Hs.
           destruct (Qlt_le_dec (dw d) 4); [discriminate |].
           destruct (Qlt_le_dec (dh d) 4); [discriminate |]. split; assumption.
    + split; [| split]; [intros ? [=] | intros _ ? [=] | exact Hr].
  - unfold confirmDraft. destruct (draft st) as [d|] eqn:Hdraft; [| exact Hok].
    destruct (overlayRef st); [| exact Hok].
    cbn [negb]. split; [| split]; [intros ? [=] | intros _ ? [=] |].
    intros r Hin. cbn [rects] in Hin. apply elem_of_app in Hin as [Hin|Hin]; [exact (Hr r Hin) |].
    apply list_elem_of_singleton in Hin as ->. cbn [w h newRect].
    destruct (proj1 Hok d Hdraft) as [Hw Hh]. split; apply Math_round_le; assumption.
  - split; [| split]; [intros ? [=] | intros _ ? [=] | exact Hr].
  - split; [exact Hd | split; [exact Hrel |]].
    intros r Hin. cbn [rects removeRect] in Hin.
    apply list_elem_of_filter in Hin as [_ Hin]. exact (Hr r Hin).
  - exact Hok.
  - destruct e; exact Hok.
  - exact Hok.
Qed.

Lemma draftOk_init : draftOk init.
Proof.
  split; [| split]; [intros ? [=] | intros _ ? [=] |].
  intros r Hr. cbn in Hr. by apply elem_of_nil in Hr.
Qed.

Lemma run_draftOk (ops : list Op) : draftOk (run ops init).
Proof. apply run_invariant; [apply apply_draftOk | apply draftOk_init]. Qed.

(** X15. Whatever the operator did before, [runSanitization] sends one zone
    per rectangle, and every zone has the form [[x0, y0, x1, y1]] with
    [x0 <= x1] and [y0 <= y1]: no rectangle with a negative side is ever
    stored. *)
Theorem zones_ordered (ops : list Op) (pdfFiles : list File) (eraseList : list string)
    (sub : Submission) :
  runSanitization pdfFiles eraseList (run ops init) = Some sub ->
  length (template_zones sub) = length (rects (run ops init)) /\
  Forall ordered (template_zones sub).
Proof.
  intros Hsub. destruct (run_draftOk ops) as (_ & _ & Hr).
  destruct pdfFiles as [|f fs]; [discriminate |].
  cbn [runSanitization] in Hsub. injection Hsub as <-.
  destruct (foldl_zoneStep (rectActions (run ops init)) eraseList (rects (run ops init)))
    as (Hz & _).
  rewrite Hz. split; [apply length_fmap |].
  apply Forall_fmap, Forall_forall. intros r Hin. destruct (Hr r Hin) as [Hw Hh].
  exists (x r), (y r), (x r + w r)%Z, (y r + h r)%Z. cbn. split; [reflexivity |]. lia.
Qed.

(** X16. A confirmation that comes when no drag is on (the pointer was
    released) adds nothing but one rectangle at least 4 px wide and 4 px
    high under the new identifier; without a draft it adds nothing. *)
Theorem confirm_after_release (ops : list Op) (newId : string) (r : Rect) :
  drawingRef (run ops init) = false ->
  r ∈ rects (confirmDraft newId (run ops init)) ->
  r ∈ rects (run ops init) \/ (id r = newId /\ (4 <= w r)%Z /\ (4 <= h r)%Z).
Proof.
  intros Hrel Hin. destruct (run_draftOk ops) as (_ & Hd & _).
  specialize (Hd Hrel). unfold confirmDraft in Hin.
  destruct (draft (run ops init)) as [d|]; [| left; exact Hin].
  destruct (overlayRef (run ops init)); [| left; exact Hin].
  cbn [negb rects] in Hin. apply elem_of_app in Hin as [Hin|Hin]; [left; exact Hin |].
  apply list_elem_of_singleton in Hin as ->. right. cbn [id w h newRect].
  destruct (Hd d eq_refl) as [Hw Hh].
  split; [reflexivity |]. split; apply Math_round_le; assumption.
Qed.

(** *** Identifiers *)

Lemma confirmIds_snoc (ops : list Op) (op : Op) :
  confirmIds (ops ++ [op])
  = confirmIds ops ++ match op with Confirm i => [i] | _ => [] end.
Proof.
  unfold confirmIds. rewrite omap_app. f_equal. destruct op; reflexivity.
Qed.

Lemma run_snoc (ops : list Op) (op : Op) (st : State) :
  run (ops ++ [op]) st = apply (run ops st) op.
Proof. unfold run. rewrite foldl_app. reflexivity. Qed.

Lemma rect_ids_sublist (ops : list Op) :
  (id <$> rects (run ops init)) `sublist_of` confirmIds ops.
Proof.
  induction ops as [|op ops IH] using rev_ind; [reflexivity |].
  rewrite run_snoc, confirmIds_snoc.
  destruct (rects_apply (run ops init) op)
    as [->|[(newId & d & -> & _ & ->)|(i & -> & ->)]].
  - etransitivity; [exact IH | apply sublist_inserts_r; reflexivity].
  - rewrite fmap_app. apply sublist_app; [exact IH | reflexivity].
  - rewrite app_nil_r. etransitivity; [| exact IH]. apply fmap_sublist, sublist_filter.
Qed.

Lemma filter_Forall_id {A} (P : A -> Prop) `{!forall x, Decision (P x)} (l : list A) :
  Forall P l -> filter P l = l.
Proof.
  induction 1 as [|x l Hx _ IH]; [reflexivity |].
  rewrite filter_cons_True by exact Hx. f_equal. exact IH.
Qed.

(** X17. The identifiers of the rectangles are, in order, among the
    identifiers the confirmations of the session generated; when those were
    pairwise distinct, no two rectangles share an identifier, so each entry
    of [rectActions] belongs to one rectangle and [removeRect] removes at
    most one. *)
Theorem rect_ids_distinct (ops : list Op) (i : string) :
  NoDup (confirmIds ops) ->
  (id <$> rects (run ops init)) `sublist_of` confirmIds ops /\
  NoDup (id <$> rects (run ops init)) /\
  (length (rects (run ops init)) <= length (rects (removeRect i (run ops init))) + 1)%nat.
Proof.
  intros Hnd. pose proof (rect_ids_sublist ops) as Hsub.
  assert (Hids : NoDup (id <$> rects (run ops init)))
    by exact (sublist_NoDup _ _ Hnd Hsub).
  split; [exact Hsub |]. split; [exact Hids |].
  cbn [rects removeRect]. revert Hids. generalize (rects (run ops init)).
  induction l as [|r l IH]; intros Hl; [cbn; lia |].
  rewrite fmap_cons in Hl. apply NoDup_cons in Hl as [Hr Hl].
  rewrite filter_cons. destruct (decide (id r ≠ i)) as [Hne|He].
  - cbn [length]. specialize (IH Hl). lia.
  - assert (E : filter (fun r0 => id r0 ≠ i) l = l).
    { apply filter_Forall_id, Forall_forall. intros r' Hr' E.
      apply Hr. apply dec_stable in He. rewrite He, <- E.
      apply list_elem_of_fmap_2. exact Hr'. }
    rewrite E. cbn [length]. lia.
Qed.

End AppSessionFacts.

Lemma zones_ordered_witness :
  length (App.template_zones
            (foldl (App.zoneStep (App.rectActions (App.run AppMore.oneRect App.init)))
                   (App.mkSubmission [] ∅ ["ACME"] [])
                   (App.rects (App.run AppMore.oneRect App.init))))
  = length (App.rects (App.run AppMore.oneRect App.init)) /\
  Forall AppMore.ordered
    (App.template_zones
       (foldl (App.zoneStep (App.rectActions (App.run AppMore.oneRect App.init)))
              (App.mkSubmission [] ∅ ["ACME"] [])
              (App.rects (App.run AppMore.oneRect App.init)))).
Proof.
  apply (zones_ordered AppMore.oneRect ["drawing.pdf"] ["ACME"]). reflexivity.
Defined.

Example oneRect_zone :
  App.template_zones <$> App.runSanitization ["drawing.pdf"] [] (App.run AppMore.oneRect App.init)
  = Some [App.mkZone 0 [10; 10; 110; 60]%Z "A4" "H" 0].
Proof. vm_compute. reflexivity. Qed.

Lemma confirm_after_release_witness :
  App.mkRect "b" 200 200 100 60 0 0 "A4" "H"
    ∈ App.rects (App.run AppMore.oneRect App.init) \/
  (App.id (App.mkRect "b" 200 200 100 60 0 0 "A4" "H") = "b" /\
   (4 <= App.w (App.mkRect "b" 200 200 100 60 0 0 "A4" "H"))%Z /\
   (4 <= App.h (App.mkRect "b" 200 200 100 60 0 0 "A4" "H"))%Z).
Proof.
  apply (confirm_after_release
           (AppMore.oneRect ++ [App.PointerDown (200, 200)%Q; App.PointerMove (300, 260)%Q;
                                App.PointerUp]) "b").
  - vm_compute. reflexivity.
  - apply (list_elem_of_lookup_2 _ 1%nat). vm_compute. reflexivity.
Defined.

Lemma rect_ids_distinct_witness :
  (App.id <$> App.rects (App.run (AppMore.oneRect ++ AppMore.secondRect "b") App.init))
    `sublist_of` AppMore.confirmIds (AppMore.oneRect ++ AppMore.secondRect "b") /\
  NoDup (App.id <$> App.rects (App.run (AppMore.oneRect ++ AppMore.secondRect "b") App.init)) /\
  (length (App.rects (App.run (AppMore.oneRect ++ AppMore.secondRect "b") App.init))
   <= length (App.rects (App.removeRect "a"
                (App.run (AppMore.oneRect ++ AppMore.secondRect "b") App.init))) + 1)%nat.
Proof.
  apply (rect_ids_distinct (AppMore.oneRect ++ AppMore.secondRect "b") "a").
  vm_compute. apply NoDup_cons. split; [| apply NoDup_singleton].
  intros H. apply list_elem_of_singleton in H. discriminate H.
Defined.

(** Two confirmations under one identifier: the two rectangles share one
    action, and removing "one" of them removes both. *)
Example shared_identifier :
  length (App.rects (App.run (AppMore.oneRect ++ AppMore.secondRect "a") App.init)) = 2%nat /\
  size (App.rectActions (App.run (AppMore.oneRect ++ AppMore.secondRect "a") App.init)) = 1%nat /\
  App.rects (App.removeRect "a"
               (App.run (AppMore.oneRect ++ AppMore.secondRect "a") App.init)) = [].
Proof. vm_compute. repeat split. Qed.

(** ** The drawing step of [PDFSanitizerApp0.jsx] *)

Section App0Facts.

Import App0.

Local Open Scope Q_scope.

Lemma bigEnough_spec (z : Zone) : bigEnough z = true <-> 5 < zwidth z /\ 5 < zheight z.
Proof.
  unfold bigEnough.
  destruct (Qlt_le_dec 5 (zwidth z)) as [Hw|Hw], (Qlt_le_dec 5 (zheight z)) as [Hh|Hh];
    cbn; split; try discriminate; try tauto; intros [? ?]; exfalso; lra.
Qed.

Lemma apply_sessionOk (n : nat) (st : State) (op : Op) :
  sessionOk n st -> sessionOk n (apply st op).
Proof.
  intros Hok. pose proof Hok as (Hn & Hp & Hz).
  destruct op as [p|p| | |]; cbn [apply].
  - exact Hok.
  - unfold handleMouseMove. destruct (isDrawingRef st); exact Hok.
  - unfold handleMouseUp. destruct (isDrawingRef st); [| exact Hok]. cbn [negb].
    split; [exact Hn |]. split; [exact Hp |]. cbn [redactionZones].
    destruct (bigEnough (box st)) eqn:Hb; [| exact Hz].
    apply Forall_app. split; [exact Hz |]. apply Forall_singleton.
    apply bigEnough_spec in Hb as [Hw Hh].
    split; [exact Hw |]. split; [exact Hh |]. exact Hp.
  - unfold prevPage. destruct (1 <? currentPage st)%nat eqn:Hlt; [| exact Hok].
    apply Nat.ltb_lt in Hlt. split; [exact Hn |]. split; [cbn [currentPage]; lia | exact Hz].
  - unfold nextPage. destruct (currentPage st <? numPages st)%nat eqn:Hlt; [| exact Hok].
    apply Nat.ltb_lt in Hlt. split; [exact Hn |]. split; [cbn [currentPage]; lia | exact Hz].
Qed.

Lemma run_sessionOk (n : nat) (ops : list Op) (st : State) :
  sessionOk n st -> sessionOk n (run ops st).
Proof.
  revert st. induction ops as [|op ops IH]; intros st Hst; [exact Hst |].
  cbn. apply IH, apply_sessionOk, Hst.
Qed.

(** X18. While one template of [n >= 1] pages is loaded, whatever the
    operator does (press, move, release, turn pages), the page on display
    is a page of the template, every zone is more than 5 px wide and more
    than 5 px high and lies on a page of the template, and every element of
    [template_zones] is [[x0, y0, x1, y1]] with [x0 + 5 < x1] and
    [y0 + 5 < y1]. *)
Theorem zones_big_enough (n : nat) (ops : list Op) :
  (1 <= n)%nat ->
  (1 <= currentPage (run ops (init n)) <= n)%nat /\
  Forall (zoneOk n) (redactionZones (run ops (init n))) /\
  Forall (fun pz => exists x0 y0 x1 y1,
            pz.2 = [x0; y0; x1; y1] /\ x0 + 5 < x1 /\ y0 + 5 < y1 /\
            (1 <= pz.1 <= n)%nat)
         (template_zones (run ops (init n))).
Proof.
  intros Hn.
  assert (Hinit : sessionOk n (init n)).
  { split; [reflexivity |]. split; [cbn; lia | constructor]. }
  destruct (run_sessionOk n ops (init n) Hinit) as (_ & Hp & Hz).
  split; [exact Hp |]. split; [exact Hz |].
  unfold template_zones. apply Forall_fmap. eapply Forall_impl; [exact Hz |].
  intros z (Hw & Hh & Hpg). cbn.
  exists (zx z), (zy z), (zx z + zwidth z), (zy z + zheight z).
  split; [reflexivity |]. split; [lra |]. split; [lra | exact Hpg].
Qed.

(** X19. A press is not a fresh start: [handleMouseDown] keeps the last
    position of the previous drag, so a press at [p] released without a
    move commits the box spanned by [p] and that stale position whenever
    the two are more than 5 px apart along both axes, and commits nothing
    otherwise. *)
Theorem click_commits_stale_box (st : State) (p : Q * Q) :
  let cur := currentPosRef st in
  let st' := handleMouseUp (handleMouseDown p st) in
  isDrawingRef st' = false /\
  (5 < Qabs (cur.1 - p.1) -> 5 < Qabs (cur.2 - p.2) ->
   redactionZones st'
   = redactionZones st
     ++ [mkZone (Qmin p.1 cur.1) (Qmin p.2 cur.2)
                (Qabs (cur.1 - p.1)) (Qabs (cur.2 - p.2)) (currentPage st)]) /\
  (~ (5 < Qabs (cur.1 - p.1) /\ 5 < Qabs (cur.2 - p.2)) ->
   redactionZones st' = redactionZones st).
Proof.
  intros cur st'. subst cur st'. unfold handleMouseUp, handleMouseDown.
  cbn [isDrawingRef negb redactionZones]. split; [reflexivity |].
  destruct (bigEnough _) eqn:Hb.
  - apply bigEnough_spec in Hb. cbn in Hb. split; [intros _ _; reflexivity |].
    intros Hn. contradiction.
  - split; [| reflexivity]. intros Hw Hh.
    assert (Hb' : bigEnough (box (mkState true p (currentPosRef st) (redactionZones st)
                                    (currentPage st) (numPages st))) = true)
      by (apply bigEnough_spec; cbn; split; assumption).
    rewrite Hb' in Hb. discriminate.
Qed.

(** *** [manual_names] *)

Lemma splitComma_length (s : string) : length (App1More.splitComma s) = S (commas s).
Proof.
  induction s as [|c s IH]; [reflexivity |].
  cbn [App1More.splitComma commas].
  destruct (nat_of_ascii c =? 44)%nat; [cbn [length]; rewrite IH; reflexivity |].
  destruct (App1More.splitComma s) as [|q qs]; [discriminate IH |]. cbn in *. exact IH.
Qed.

(** X20. [runSanitization] of [PDFSanitizerApp0.jsx] sends one manual name
    per comma-separated piece of the input, empty pieces included: the list
    has one entry more than the input has commas, so it is never empty (an
    empty input gives one empty name), and every entry is trimmed. *)
Theorem manual_names_count (manualNames : string) :
  length (manual_names manualNames) = S (commas manualNames) /\
  manual_names manualNames <> [] /\
  Forall (fun t => App.trim t = t) (manual_names manualNames) /\
  manual_names EmptyString = [EmptyString].
Proof.
  assert (Hlen : length (manual_names manualNames) = S (commas manualNames)).
  { unfold manual_names. rewrite length_fmap. apply splitComma_length. }
  split; [exact Hlen |]. split.
  - intros E. rewrite E in Hlen. discriminate.
  - split; [| reflexivity]. unfold manual_names. apply Forall_fmap, Forall_forall.
    intros t _. apply trim_fixed.
Qed.

End App0Facts.

Lemma zones_big_enough_witness :
  (1 <= App0.currentPage
          (App0.run [App0.MouseDown (10, 10)%Q; App0.MouseMove (60, 40)%Q; App0.MouseUp;
                     App0.NextPage; App0.MouseDown (5, 5)%Q; App0.MouseUp]
                    (App0.init 2)) <= 2)%nat /\
  Forall (App0.zoneOk 2)
    (App0.redactionZones
       (App0.run [App0.MouseDown (10, 10)%Q; App0.MouseMove (60, 40)%Q; App0.MouseUp;
                  App0.NextPage; App0.MouseDown (5, 5)%Q; App0.MouseUp]
                 (App0.init 2))) /\
  Forall (fun pz => exists x0 y0 x1 y1,
            pz.2 = [x0; y0; x1; y1] /\ (x0 + 5 < x1)%Q /\ (y0 + 5 < y1)%Q /\
            (1 <= pz.1 <= 2)%nat)
    (App0.template_zones
       (App0.run [App0.MouseDown (10, 10)%Q; App0.MouseMove (60, 40)%Q; App0.MouseUp;
                  App0.NextPage; App0.MouseDown (5, 5)%Q; App0.MouseUp]
                 (App0.init 2))).
Proof.
  apply (zones_big_enough 2
           [App0.MouseDown (10, 10)%Q; App0.MouseMove (60, 40)%Q; App0.MouseUp;
            App0.NextPage; App0.MouseDown (5, 5)%Q; App0.MouseUp]).
  lia.
Defined.

(** A drag on page 1, then a click on page 2: the click commits a second
    zone, between the click and the end of the drag. *)
Example click_after_drag :
  App0.template_zones
    (App0.run [App0.MouseDown (10, 10)%Q; App0.MouseMove (60, 40)%Q; App0.MouseUp;
               App0.NextPage; App0.MouseDown (5, 5)%Q; App0.MouseUp]
              (App0.init 2))
  = [(1%nat, [10; 10; 10 + 50; 10 + 30]%Q); (2%nat, [5; 5; 5 + 55; 5 + 35]%Q)].
Proof. vm_compute. reflexivity. Qed.

Lemma click_commits_stale_box_witness :
  App0.redactionZones
    (App0.handleMouseUp (App0.handleMouseDown (5, 5)%Q
       (App0.mkState false (10, 10)%Q (60, 40)%Q [] 2 2)))
  = App0.redactionZones (App0.mkState false (10, 10)%Q (60, 40)%Q [] 2 2)
    ++ [App0.mkZone (Qmin 5 60) (Qmin 5 40) (Qabs (60 - 5)) (Qabs (40 - 5)) 2].
Proof.
  apply (proj1 (proj2 (click_commits_stale_box
           (App0.mkState false (10, 10)%Q (60, 40)%Q [] 2 2) (5, 5)%Q))).
  - vm_compute. reflexivity.
  - vm_compute. reflexivity.
Defined.

(** ** Schedules of the render effect of [PDFSanitizerApp1.jsx] *)

Section RenderScheduleFacts.

Import Render RenderMore.

Lemma run1_snoc (es : list Event) (e : Event) :
  Render1.run (es ++ [e]) = Render1.run es ≫= fun st => Render1.step st e.
Proof. unfold Render1.run. rewrite foldl_app. reflexivity. Qed.

Lemma runSerial_snoc (es : list Event) (e : Event) :
  runSerial (es ++ [e]) = runSerial es ≫= fun st => stepSerial st e.
Proof. unfold runSerial. rewrite foldl_app. reflexivity. Qed.

(** A serial schedule is a schedule. *)
Lemma runSerial_run (es : list Event) (st : State) :
  runSerial es = Some st -> Render1.run es = Some st.
Proof.
  revert st. induction es as [|e es IH] using rev_ind; intros st H; [exact H |].
  rewrite runSerial_snoc in H. rewrite run1_snoc.
  destruct (runSerial es) as [st0|]; [| discriminate]. rewrite (IH st0 eq_refl).
  cbn in *. unfold stepSerial in H. destruct (allowed st0 e); [exact H | discriminate].
Qed.

(** *** Every schedule *)

Lemma quiescent_insert (cs : list Call) (i : nat) (c : Call) :
  (i < length cs)%nat -> finished c = false ->
  forallb (fun c => match phase c with Finished => true | _ => false end) (<[i := c]> cs)
  = false.
Proof.
  intros Hi Hc. apply not_true_is_false. intros Hall.
  rewrite forallb_forall in Hall. specialize (Hall c).
  unfold finished in Hc. rewrite Hc in Hall. discriminate Hall.
  apply list_elem_of_In, list_elem_of_lookup. exists i. apply list_lookup_insert_eq, Hi.
Qed.

Lemma step_reportsOk (st st' : State) (e : Event) :
  reportsOk st -> Render1.step st e = Some st' -> reportsOk st'.
Proof.
  intros (Hq & Hnd & Hfin) Hstep.
  assert (Hfresh : forall i p ph, calls st !! i = Some (mkCall p ph) -> ph <> Finished ->
                     i ∉ published st ++ errors st).
  { intros i p ph Hi Hph Hin. destruct (Hfin i Hin) as [p' Hp'].
    rewrite Hi in Hp'. congruence. }
  assert (Hkeep : forall i j c, i ∈ published st ++ errors st -> j ∉ published st ++ errors st ->
            exists p, <[j := c]> (calls st) !! i = Some (mkCall p Finished)).
  { intros i j c Hi Hj. destruct (Hfin i Hi) as [p Hp]. exists p.
    rewrite list_lookup_insert_ne by (intros ->; contradiction). exact Hp. }
  assert (Hfinish : forall i p ph o, calls st !! i = Some (mkCall p ph) -> ph <> Finished ->
            reportsOk (Render1.render_finish i (mkCall p ph) o st)).
  { intros i p ph o Hi Hph. pose proof (Hfresh i p ph Hi Hph) as Hni.
    assert (Hlt : (i < length (calls st))%nat) by (eapply lookup_lt_Some; exact Hi).
    assert (Hself : <[i := mkCall p Finished]> (calls st) !! i = Some (mkCall p Finished))
      by (apply list_lookup_insert_eq, Hlt).
    destruct o; cbn [Render1.render_finish params]; (split; [intros _; reflexivity |]);
      cbn [published errors calls].
    - split.
      + rewrite <- app_assoc. apply NoDup_app. apply NoDup_app in Hnd as (Hp & Hpe & He).
        split; [exact Hp |]. split.
        * intros x Hx Hx'. apply elem_of_app in Hx' as [Hx'|Hx'].
          -- apply list_elem_of_singleton in Hx' as ->. apply Hni, elem_of_app. left. exact Hx.
          -- exact (Hpe x Hx Hx').
        * apply NoDup_cons. split; [| exact He].
          intros Hx. apply Hni, elem_of_app. right. exact Hx.
      + intros j Hj. rewrite <- app_assoc in Hj.
        apply elem_of_app in Hj as [Hj|Hj]; [| apply elem_of_cons in Hj as [->|Hj]].
        * apply Hkeep; [apply elem_of_app; left; exact Hj | exact Hni].
        * exists p. exact Hself.
        * apply Hkeep; [apply elem_of_app; right; exact Hj | exact Hni].
    - split; [exact Hnd |]. intros j Hj. apply Hkeep; [exact Hj | exact Hni].
    - split.
      + rewrite app_assoc. apply NoDup_app. split; [exact Hnd |]. split.
        * intros x Hx Hx'. apply list_elem_of_singleton in Hx' as ->. exact (Hni Hx).
        * apply NoDup_singleton.
      + intros j Hj. rewrite app_assoc in Hj.
        apply elem_of_app in Hj as [Hj|Hj].
        * apply Hkeep; [exact Hj | exact Hni].
        * apply list_elem_of_singleton in Hj as ->. exists p. exact Hself. }
  destruct e as [p|i|i|i o]; cbn [Render1.step] in Hstep.
  - apply (inj Some) in Hstep; subst st'. unfold Render1.render_enter. split; [| split].
    + intros Hq'. exfalso. unfold quiescent in Hq'. cbn [calls] in Hq'.
      rewrite forallb_app in Hq'. cbn in Hq'. rewrite andb_false_r in Hq'. discriminate.
    + exact Hnd.
    + intros i Hi. destruct (Hfin i Hi) as [q Hq']. exists q. cbn [calls].
      apply lookup_app_l_Some. exact Hq'.
  - destruct (calls st !! i) as [[p ph]|] eqn:Hi; [| discriminate].
    destruct ph; try discriminate. apply (inj Some) in Hstep; subst st'.
    assert (Hni := Hfresh i p AwaitPage Hi ltac:(discriminate)).
    unfold Render1.render_start. split; [| split]; cbn [published errors calls params].
    + intros Hq'. exfalso. unfold quiescent in Hq'. cbn [calls] in Hq'.
      rewrite quiescent_insert in Hq';
        [discriminate | eapply lookup_lt_Some; exact Hi | reflexivity].
    + exact Hnd.
    + intros j Hj. apply Hkeep; [exact Hj | exact Hni].
  - destruct (calls st !! i) as [[p ph]|] eqn:Hi; [| discriminate].
    destruct ph; try discriminate. apply (inj Some) in Hstep; subst st'.
    apply Hfinish; [exact Hi | discriminate].
  - destruct (calls st !! i) as [[p ph]|] eqn:Hi; [| discriminate].
    destruct ph as [|t|]; try discriminate.
    destruct (mayOutcome st t o); [| discriminate]. apply (inj Some) in Hstep; subst st'.
    apply Hfinish; [exact Hi | discriminate].
Qed.

Lemma run_reportsOk (es : list Event) (st : State) :
  Render1.run es = Some st -> reportsOk st.
Proof.
  revert st. induction es as [|e es IH] using rev_ind; intros st H.
  - injection H as <-. split; [reflexivity |]. split; [constructor |].
    intros i Hi. by apply elem_of_nil in Hi.
  - rewrite run1_snoc in H. destruct (Render1.run es) as [st0|]; [| discriminate].
    cbn in H. exact (step_reportsOk st0 st e (IH st0 eq_refl) H).
Qed.

(** X21. In every schedule of the render effect (requests, pages and tasks
    settling in any order): once every call has run to its end the
    [rendering] flag is off; a call sizes and repaints the overlay or logs
    an error at most once and not both, and only a call that has run to its
    end has done so. *)
Theorem render_reports_once (es : list Event) (st : State) :
  Render1.run es = Some st ->
  (quiescent st = true -> rendering st = false) /\
  NoDup (published st ++ errors st) /\
  (forall i, i ∈ published st ++ errors st ->
     exists p, calls st !! i = Some (mkCall p Finished)).
Proof. apply run_reportsOk. Qed.

(** *** Serial schedules *)

Lemma render_finish_fields (i : nat) (c : Call) (o : Outcome) (st : State) :
  calls (Render1.render_finish i c o st) = <[i := mkCall (params c) Finished]> (calls st) /\
  tasks (Render1.render_finish i c o st) = tasks st /\
  renderTaskRef (Render1.render_finish i c o st) = renderTaskRef st /\
  canvas (Render1.render_finish i c o st) = canvas st.
Proof. destruct o; repeat split. Qed.

Lemma cancelCurrent_no_live (st : State) (t : nat) :
  (tasks st !! t = Some false -> renderTaskRef st = Some t) ->
  cancelCurrent st !! t = Some false -> False.
Proof.
  intros Href. unfold cancelCurrent. destruct (renderTaskRef st) as [r|] eqn:Hr.
  - destruct (decide (r = t)) as [->|Hne].
    + intros H. pose proof (lookup_lt_Some _ _ _ H) as Hlt.
      rewrite length_insert in Hlt. rewrite list_lookup_insert_eq in H by exact Hlt.
      discriminate.
    + rewrite list_lookup_insert_ne by exact Hne. intros H.
      specialize (Href H). congruence.
  - intros H. specialize (Href H). discriminate.
Qed.

Lemma cancelCurrent_length (st : State) : length (cancelCurrent st) = length (tasks st).
Proof. unfold cancelCurrent. destruct (renderTaskRef st); [apply length_insert | reflexivity]. Qed.

Lemma step_serialOk (st st' : State) (e : Event) :
  serialOk st -> stepSerial st e = Some st' -> serialOk st'.
Proof.
  intros [HA HB] Hstep. unfold stepSerial in Hstep.
  destruct (allowed st e) eqn:Hallow; [| discriminate].
  assert (Hfinish : forall i p ph o, calls st !! i = Some (mkCall p ph) ->
            serialOk (Render1.render_finish i (mkCall p ph) o st)).
  { intros i p ph o Hi.
    destruct (render_finish_fields i (mkCall p ph) o st) as (Ec & Et & Er & Ev).
    split.
    - intros j c Hj Hlive. rewrite Ec in Hj. rewrite Ec, length_insert.
      destruct (decide (i = j)) as [->|Hne].
      + rewrite list_lookup_insert_eq in Hj by (eapply lookup_lt_Some; exact Hi).
        apply (inj Some) in Hj. subst c. contradiction Hlive.
      + rewrite list_lookup_insert_ne in Hj by exact Hne. apply (HA j c Hj).
        unfold live in *. rewrite Et in Hlive. exact Hlive.
    - intros j c t Hj Hph. rewrite Ec in Hj. rewrite Ec, Et, Er, Ev, length_insert.
      destruct (decide (i = j)) as [->|Hne].
      + rewrite list_lookup_insert_eq in Hj by (eapply lookup_lt_Some; exact Hi).
        apply (inj Some) in Hj. subst c. discriminate Hph.
      + rewrite list_lookup_insert_ne in Hj by exact Hne. exact (HB j c t Hj Hph). }
  destruct e as [p|i|i|i o]; cbn [Render1.step] in Hstep.
  - apply (inj Some) in Hstep. subst st'. cbn [allowed] in Hallow.
    rewrite forallb_forall in Hallow.
    assert (Hold : forall j c, calls st !! j = Some c -> live (Render1.render_enter p st) c ->
                     False).
    { intros j c Hj Hlive. unfold live in Hlive. destruct c as [q ph].
      cbn [phase Render1.render_enter tasks] in Hlive. destruct ph as [|t|].
      - specialize (Hallow (mkCall q AwaitPage)). cbn in Hallow.
        assert (false = true); [| discriminate]. apply Hallow.
        apply list_elem_of_In, list_elem_of_lookup. exists j. exact Hj.
      - destruct (HB j _ t Hj eq_refl) as (_ & Href & _).
        exact (cancelCurrent_no_live st t Href Hlive).
      - exact Hlive. }
    split.
    + intros j c Hj Hlive. cbn [calls Render1.render_enter] in Hj |- *.
      rewrite length_app. cbn [length].
      apply lookup_app_Some in Hj as [Hj|[Hge Hj]].
      * exfalso. exact (Hold j c Hj Hlive).
      * apply list_lookup_singleton_Some in Hj as [Hz _]. lia.
    + intros j c t Hj Hph. cbn [calls Render1.render_enter] in Hj.
      apply lookup_app_Some in Hj as [Hj|[Hge Hj]].
      * destruct (HB j c t Hj Hph) as (Hlt & Href & _).
        cbn [tasks Render1.render_enter renderTaskRef calls canvas].
        rewrite cancelCurrent_length. split; [exact Hlt |]. split.
        -- intros Hl. exfalso. exact (cancelCurrent_no_live st t Href Hl).
        -- rewrite length_app. cbn [length]. intros E.
           pose proof (lookup_lt_Some _ _ _ Hj). lia.
      * apply list_lookup_singleton_Some in Hj as [_ <-]. discriminate Hph.
  - destruct (calls st !! i) as [[p ph]|] eqn:Hi; [| discriminate].
    destruct ph; try discriminate. apply (inj Some) in Hstep. subst st'.
    assert (Hlast : S i = length (calls st)) by (apply (HA i _ Hi); exact I).
    assert (Hlt : (i < length (calls st))%nat) by lia.
    split.
    + intros j c Hj Hlive. cbn [calls Render1.render_start params] in Hj |- *.
      rewrite length_insert. destruct (decide (i = j)) as [->|Hne]; [exact Hlast |].
      rewrite list_lookup_insert_ne in Hj by exact Hne. apply (HA j c Hj).
      unfold live in *. destruct (phase c) as [|t|] eqn:Hph; [exact I | | exact Hlive].
      cbn [tasks Render1.render_start] in Hlive.
      destruct (HB j c t Hj Hph) as (Ht & _).
      rewrite lookup_app_l in Hlive by exact Ht. exact Hlive.
    + intros j c t Hj Hph.
      cbn [calls tasks renderTaskRef canvas Render1.render_start params] in Hj |- *.
      rewrite length_insert, length_app. cbn [length].
      destruct (decide (i = j)) as [->|Hne].
      * rewrite list_lookup_insert_eq in Hj by exact Hlt.
        apply (inj Some) in Hj. subst c. cbn [phase params] in *.
        injection Hph as <-. split; [lia |]. split; reflexivity.
      * rewrite list_lookup_insert_ne in Hj by exact Hne.
        destruct (HB j c t Hj Hph) as (Ht & Href & _).
        split; [lia |]. split.
        -- intros Hl. rewrite lookup_app_l in Hl by exact Ht.
           assert (S j = length (calls st)); [| lia].
           apply (HA j c Hj). unfold live. rewrite Hph. exact Hl.
        -- intros E. lia.
  - destruct (calls st !! i) as [[p ph]|] eqn:Hi; [| discriminate].
    destruct ph; try discriminate. apply (inj Some) in Hstep. subst st'.
    apply Hfinish. exact Hi.
  - destruct (calls st !! i) as [[p ph]|] eqn:Hi; [| discriminate].
    destruct ph as [|t|]; try discriminate.
    destruct (mayOutcome st t o); [| discriminate]. apply (inj Some) in Hstep. subst st'.
    apply Hfinish. exact Hi.
Qed.

Lemma runSerial_serialOk (es : list Event) (st : State) :
  runSerial es = Some st -> serialOk st.
Proof.
  revert st. induction es as [|e es IH] using rev_ind; intros st H.
  - injection H as <-. split.
    + intros i c Hi. cbn in Hi. rewrite lookup_nil in Hi. discriminate.
    + intros i c t Hi. cbn in Hi. rewrite lookup_nil in Hi. discriminate.
  - rewrite runSerial_snoc in H. destruct (runSerial es) as [st0|]; [| discriminate].
    cbn in H. exact (step_serialOk st0 st e (IH st0 eq_refl) H).
Qed.

Lemma last_insert_last {A} (l : list A) (i : nat) (x : A) :
  S i = length l -> last (<[i := x]> l) = Some x.
Proof.
  intros Hi. rewrite last_lookup, length_insert, <- Hi. cbn [pred].
  apply list_lookup_insert_eq. lia.
Qed.

(** X22. In a serial schedule with cancellation honoured (no request
    arrives while a call still waits for its page, and a task on which
    [cancel()] was called does not complete), a call that completes is the
    latest one: after its completion the overlay and the base canvas are
    both sized for the latest request, and it is the last call that
    published. *)
Theorem serial_render_publishes_latest (es : list Event) (i : nat) (st : State) :
  runSerial (es ++ [TaskSettled i Done]) = Some st ->
  Render1.run (es ++ [TaskSettled i Done]) = Some st /\
  S i = length (calls st) /\
  last (published st) = Some i /\
  overlay st = latest st /\ canvas st = latest st.
Proof.
  intros Hrun. split; [apply runSerial_run; exact Hrun |].
  rewrite runSerial_snoc in Hrun.
  destruct (runSerial es) as [st0|] eqn:H0; [| discriminate]. cbn [mbind option_bind] in Hrun.
  destruct (runSerial_serialOk es st0 H0) as [HA HB].
  unfold stepSerial in Hrun. destruct (allowed st0 _) eqn:Hallow; [| discriminate].
  cbn [Render1.step allowed] in Hrun, Hallow.
  destruct (calls st0 !! i) as [[p ph]|] eqn:Hi; [| discriminate].
  destruct ph as [|t|]; try discriminate.
  destruct (mayOutcome st0 t Done); [| discriminate].
  apply (inj Some) in Hrun. subst st.
  destruct (HB i _ t Hi eq_refl) as (Ht & _ & Hcanvas).
  assert (Hlive : tasks st0 !! t = Some false).
  { unfold uncancelled in Hallow. destruct (lookup_lt_is_Some_2 _ _ Ht) as [b Hb].
    rewrite Hb in Hallow |- *. destruct b; [discriminate | reflexivity]. }
  assert (Hlast : S i = length (calls st0)).
  { apply (HA i _ Hi). unfold live. cbn [phase]. exact Hlive. }
  unfold latest. cbn [Render1.render_finish calls published overlay canvas params].
  rewrite length_insert, last_snoc, (last_insert_last _ _ _ Hlast). cbn [fmap option_fmap option_map params].
  split; [exact Hlast |]. split; [reflexivity |]. split; [reflexivity |].
  exact (Hcanvas Hlast).
Qed.

End RenderScheduleFacts.

Lemma render_reports_once_witness :
  NoDup (Render.published RenderMore.afterCancelHonoured
         ++ Render.errors RenderMore.afterCancelHonoured).
Proof.
  apply (proj1 (proj2 (render_reports_once Render.cancelHonoured
                         RenderMore.afterCancelHonoured eq_refl))).
Defined.

Lemma serial_render_publishes_latest_witness :
  Render.overlay RenderMore.afterCancelHonoured
  = Render.latest RenderMore.afterCancelHonoured.
Proof.
  apply (proj1 (proj2 (proj2 (proj2
    (serial_render_publishes_latest
       [Render.Request Render.first; Render.PageResolved 0; Render.Request Render.second;
        Render.PageResolved 1; Render.TaskSettled 0 Render.Cancelled]
       1 RenderMore.afterCancelHonoured eq_refl))))).
Defined.

(** The schedule [slowEarlyRender] is not serial: the second request
    arrives while the first call still waits for its page. *)
Example slowEarlyRender_not_serial (o : Render.Outcome) :
  RenderMore.runSerial (Render.slowEarlyRender o) = None.
Proof. destruct o; reflexivity. Qed.

(** ** [parseReplacementMap] of [PDFSanitizerApp1.jsx] *)

Section App1ParseFacts.

Import App App1Parse.

Variable JSON_parse : string -> JsonResult.

Lemma chars_length_cons (c : ascii) (s : string) :
  length (chars (String c s)) = S (length (chars s)).
Proof. reflexivity. Qed.

(** A trimmed string does not start with white space. *)
Lemma trimmed_head (c : ascii) (s : string) :
  trim (String c s) = String c s -> isWhiteSpace c = false.
Proof.
  intros Ht. destruct (isWhiteSpace c) eqn:Hc; [| reflexivity]. exfalso.
  assert (E : trim (String c s) = trim s).
  { unfold trim. cbn [trimStart]. rewrite Hc. reflexivity. }
  rewrite E in Ht. pose proof (sublist_length _ _ (chars_trim s)) as Hlen.
  rewrite Ht, chars_length_cons in Hlen. lia.
Qed.

Lemma trim_head_nonEmpty (c : ascii) (s : string) :
  isWhiteSpace c = false -> nonEmpty (trim (String c s)) = true.
Proof.
  intros Hc. unfold trim. cbn [trimStart]. rewrite Hc. cbn [trimEnd].
  destruct (trimEnd s); [rewrite Hc |]; reflexivity.
Qed.

(** In a trimmed line, the text before a colon that is not at the start
    does not trim to nothing. *)
Lemma left_nonEmpty (line l r : string) :
  trim line = line -> Home.cutAtColon line = Some (l, r) -> nonEmpty l = true ->
  nonEmpty (trim l) = true.
Proof.
  intros Ht Hcut Hl. destruct line as [|c line]; [discriminate Hcut |].
  pose proof (trimmed_head c line Ht) as Hc. cbn [Home.cutAtColon] in Hcut.
  destruct (nat_of_ascii c =? 58)%nat.
  - injection Hcut as <- <-. discriminate Hl.
  - destruct (Home.cutAtColon line) as [[l0 r0]|]; [| discriminate].
    injection Hcut as <- <-. apply trim_head_nonEmpty, Hc.
Qed.

(** What one line does: nothing, one pair stored, or one error that is not
    [EmptyOld]. *)
Lemma lineStep_cases (acc : Parsed) (i : nat) (x : string) :
  lineStep acc (i, x) = acc \/
  (exists k v, nonEmpty k = true /\ trim k = k /\ nonEmpty v = true /\ trim v = v /\
               lineStep acc (i, x) = mkParsed (Home.setProp k v (map acc)) (errors acc)) \/
  (exists e, (e = MissingSeparator (i + 1) \/ e = EmptyNew (i + 1)) /\
             lineStep acc (i, x) = mkParsed (map acc) (errors acc ++ [e])).
Proof.
  unfold lineStep. cbn [fst snd].
  destruct (nonEmpty (trim x)) eqn:Hne; cbn [negb]; [| left; reflexivity].
  destruct (Home.cutAtColon (trim x)) as [[l r]|] eqn:Hcut.
  - destruct (nonEmpty l) eqn:Hl; cbn [negb].
    + rewrite (left_nonEmpty (trim x) l r (trim_fixed x) Hcut Hl). cbn [andb].
      destruct (nonEmpty (trim r)) eqn:Hr.
      * right. left. exists (trim l), (trim r).
        split; [exact (left_nonEmpty (trim x) l r (trim_fixed x) Hcut Hl) |].
        split; [apply trim_fixed |]. split; [exact Hr |]. split; [apply trim_fixed |].
        reflexivity.
      * right. right. exists (EmptyNew (i + 1)). split; [right; reflexivity | reflexivity].
    + right. right. exists (MissingSeparator (i + 1)). split; [left; reflexivity | reflexivity].
  - right. right. exists (MissingSeparator (i + 1)). split; [left; reflexivity | reflexivity].
Qed.

Lemma setProp_tidy (k v : string) (m : gmap string string) :
  nonEmpty k = true -> trim k = k -> nonEmpty v = true -> trim v = v ->
  tidy m -> tidy (Home.setProp k v m).
Proof.
  intros Hk Hk' Hv Hv' Hm. unfold Home.setProp.
  destruct (String.eqb_spec k "__proto__") as [_|Hp]; [exact Hm |].
  intros k' v'. destruct (decide (k = k')) as [<-|Hne].
  - rewrite lookup_insert_eq. intros [= <-]. auto.
  - rewrite lookup_insert_ne by exact Hne. apply Hm.
Qed.

Lemma lineLoop_ok (n : nat) (lines : list (nat * string)) (acc : Parsed) :
  Forall (fun il => (il.1 < n)%nat) lines ->
  tidy (map acc) -> Forall (lineError n) (errors acc) ->
  tidy (map (foldl lineStep acc lines)) /\
  Forall (lineError n) (errors (foldl lineStep acc lines)) /\
  (length (errors (foldl lineStep acc lines)) <= length (errors acc) + length lines)%nat.
Proof.
  intros Hlines. revert acc. induction Hlines as [|[i x] lines Hi _ IH]; intros acc Hm He.
  - cbn. split; [exact Hm |]. split; [exact He | lia].
  - cbn [foldl length]. cbn [fst] in Hi.
    destruct (lineStep_cases acc i x)
      as [->|[(k & v & Hk & Hk' & Hv & Hv' & ->)|(e & Hcase & ->)]].
    + destruct (IH acc Hm He) as (A & B & C). split; [exact A |]. split; [exact B | lia].
    + destruct (IH (mkParsed (Home.setProp k v (map acc)) (errors acc))) as (A & B & C).
      * cbn [map]. apply setProp_tidy; assumption.
      * exact He.
      * split; [exact A |]. split; [exact B |]. cbn [errors] in C. lia.
    + destruct (IH (mkParsed (map acc) (errors acc ++ [e]))) as (A & B & C).
      * exact Hm.
      * cbn [errors]. apply Forall_app. split; [exact He |]. apply Forall_singleton.
        exists (i + 1)%nat. split; [lia | exact Hcase].
      * split; [exact A |]. split; [exact B |]. cbn [errors] in C.
        rewrite length_app in C. cbn [length] in C. lia.
Qed.

Lemma imap_indices (lines : list string) :
  Forall (fun il : nat * string => (il.1 < length lines)%nat)
         (imap (fun i l => (i, l)) lines).
Proof.
  apply Forall_forall. intros [i x] Hin.
  apply list_elem_of_lookup in Hin as [j Hj]. rewrite list_lookup_imap in Hj.
  destruct (lines !! j) as [y|] eqn:Hy; [| discriminate]. cbn in Hj.
  injection Hj as <- <-. cbn. eapply lookup_lt_Some. exact Hy.
Qed.

Lemma jsonLoop_ok (entries : list (string * option string)) (acc : Parsed) :
  (forall k v, map (foldl jsonStep acc entries) !! k = Some v ->
     map acc !! k = Some v \/ (k <> "__proto__" /\ (k, Some v) ∈ entries)) /\
  errors (foldl jsonStep acc entries)
  = errors acc ++ replicate (length (filter (fun kv => kv.2 = None) entries)) NotStrings.
Proof.
  revert acc. induction entries as [|[k0 v0] entries IH]; intros acc.
  - cbn. rewrite app_nil_r. split; [auto | reflexivity].
  - cbn [foldl]. destruct (IH (jsonStep acc (k0, v0))) as [Hm He]. split.
    + intros k v Hkv. destruct (Hm k v Hkv) as [Hacc|[Hp Hin]].
      * unfold jsonStep in Hacc. cbn [fst snd] in Hacc.
        destruct v0 as [v0|]; cbn [map] in Hacc; [| left; exact Hacc].
        unfold Home.setProp in Hacc.
        destruct (String.eqb_spec k0 "__proto__") as [_|Hp]; [left; exact Hacc |].
        destruct (decide (k0 = k)) as [->|Hne].
        -- rewrite lookup_insert_eq in Hacc. injection Hacc as ->.
           right. split; [exact Hp | apply list_elem_of_here].
        -- rewrite lookup_insert_ne in Hacc by exact Hne. left. exact Hacc.
      * right. split; [exact Hp | apply list_elem_of_further, Hin].
    + rewrite He, filter_cons. unfold jsonStep. cbn [fst snd].
      destruct v0 as [v0|]; cbn [errors].
      * rewrite decide_False by discriminate. reflexivity.
      * rewrite decide_True by reflexivity. cbn [length replicate].
        rewrite <- app_assoc. reflexivity.
Qed.

(** X23. [parseReplacementMap] of [PDFSanitizerApp1.jsx], whatever
    [JSON.parse] does.  An absent or blank input gives the empty map and no
    error.  When the text parses to an object, the map holds only pairs of
    that object whose value is a string, and there is one error per other
    value.  Otherwise the text is read line by line: every key and every
    value of the map is non-empty and trimmed, every error is a missing
    separator or an empty new value and carries the number of a line, there
    are at most as many errors as lines, and the error for an empty old value
    is never produced. *)
Theorem parseReplacementMap_cases (raw : option string) :
  let trimmed := trim (default EmptyString raw) in
  let r := parseReplacementMap JSON_parse raw in
  (nonEmpty trimmed = false -> map r = ∅ /\ errors r = []) /\
  (forall n, EmptyOld n ∉ errors r) /\
  map r !! "__proto__" = None /\
  match JSON_parse trimmed with
  | JsonObject entries =>
      nonEmpty trimmed = true ->
      (forall k v, map r !! k = Some v -> (k, Some v) ∈ entries) /\
      errors r = replicate (length (filter (fun kv => kv.2 = None) entries)) NotStrings
  | _ =>
      tidy (map r) /\
      Forall (lineError (length (splitLines trimmed))) (errors r) /\
      (length (errors r) <= length (splitLines trimmed))%nat
  end.
Proof.
  intros trimmed r.
  assert (Hempty : tidy (∅ : gmap string string)).
  { intros k v Hk. rewrite lookup_empty in Hk. discriminate. }
  assert (Hlines : forall lines : list string,
            let r := foldl lineStep (mkParsed ∅ []) (imap (fun i l => (i, l)) lines) in
            tidy (map r) /\ Forall (lineError (length lines)) (errors r) /\
            (length (errors r) <= length lines)%nat).
  { intros lines.
    destruct (lineLoop_ok (length lines) (imap (fun i l => (i, l)) lines) (mkParsed ∅ [])
                (imap_indices lines) Hempty (Forall_nil_2 _)) as (A & B & C).
    split; [exact A |]. split; [exact B |]. rewrite length_imap in C. exact C. }
  assert (Hno : forall n es k, Forall (lineError k) es -> EmptyOld n ∉ es).
  { intros n es k Hes Hin. rewrite Forall_forall in Hes.
    destruct (Hes _ Hin) as (i & _ & [E|E]); discriminate E. }
  assert (Hproto : forall m : gmap string string, tidy m -> m !! "__proto__" = None).
  { intros m Hm. destruct (m !! "__proto__") as [v|] eqn:Hv; [| reflexivity].
    destruct (Hm _ _ Hv) as (_ & _ & _ & _ & Hp). contradiction. }
  subst r. unfold parseReplacementMap. fold trimmed.
  destruct (nonEmpty trimmed) eqn:Hne; cbn [negb].
  - split; [discriminate |].
    destruct (JSON_parse trimmed) as [| |entries].
    + destruct (Hlines (splitLines trimmed)) as (A & B & C).
      split; [intros n; exact (Hno n _ _ B) |]. split; [exact (Hproto _ A) |].
      split; [exact A |]. split; [exact B | exact C].
    + destruct (Hlines (splitLines trimmed)) as (A & B & C).
      split; [intros n; exact (Hno n _ _ B) |]. split; [exact (Hproto _ A) |].
      split; [exact A |]. split; [exact B | exact C].
    + destruct (jsonLoop_ok entries (mkParsed ∅ [])) as [Hm He]. cbn [map errors app] in *.
      assert (Hin : forall k v, map (foldl jsonStep (mkParsed ∅ []) entries) !! k = Some v ->
                      k <> "__proto__" /\ (k, Some v) ∈ entries).
      { intros k v Hkv. destruct (Hm k v Hkv) as [Hacc|Hin]; [| exact Hin].
        rewrite lookup_empty in Hacc. discriminate. }
      split; [| split].
      * intros n Hn. rewrite He in Hn. apply elem_of_replicate in Hn as [Hn _]. discriminate.
      * destruct (_ !! "__proto__") as [v|] eqn:Hv; [| reflexivity].
        destruct (Hin _ _ Hv) as [Hp _]. contradiction.
      * intros _. split; [| exact He]. intros k v Hkv. exact (proj2 (Hin k v Hkv)).
  - split; [intros _; split; reflexivity |].
    split; [intros n Hn; cbn in Hn; by apply elem_of_nil in Hn |].
    split; [apply lookup_empty |].
    destruct (JSON_parse trimmed) as [| |entries]; [| | discriminate];
      (split; [exact Hempty |]); (split; [constructor | cbn; lia]).
Qed.

End App1ParseFacts.

Example parseReplacementMap1_lines :
  map_to_list (App1Parse.map (App1Parse.parseReplacementMap App1Parse.parseThrows
     (Some ("ACME : Client" +:+ String (ascii_of_nat 13) (String (ascii_of_nat 10)
            ("no separator" +:+ String (ascii_of_nat 10) ("old:" +:+ String (ascii_of_nat 10)
            ":new")))))))
  = [("ACME", "Client")] /\
  App1Parse.errors (App1Parse.parseReplacementMap App1Parse.parseThrows
     (Some ("ACME : Client" +:+ String (ascii_of_nat 13) (String (ascii_of_nat 10)
            ("no separator" +:+ String (ascii_of_nat 10) ("old:" +:+ String (ascii_of_nat 10)
            ":new"))))))
  = [App1Parse.MissingSeparator 2; App1Parse.EmptyNew 3; App1Parse.MissingSeparator 4].
Proof. vm_compute. split; reflexivity. Qed.

Lemma parseReplacementMap_cases_witness :
  (forall k v,
     App1Parse.map (App1Parse.parseReplacementMap App1Parse.parseFixed (Some "{}")) !! k
     = Some v ->
     (k, Some v) ∈ [("a", Some "b"); ("n", None); ("a", Some " c ")]) /\
  App1Parse.errors (App1Parse.parseReplacementMap App1Parse.parseFixed (Some "{}"))
  = replicate (length (filter (fun kv : string * option string => kv.2 = None)
                              [("a", Some "b"); ("n", None); ("a", Some " c ")]))
              App1Parse.NotStrings.
Proof.
  apply (proj2 (proj2 (proj2
    (parseReplacementMap_cases App1Parse.parseFixed (Some "{}"))))).
  reflexivity.
Defined.
